(** * generate_monolithic_vcxproj.py: the generator of hlffi_monolithic.vcxproj

    A shallow embedding of the script and of the library calls it is made
    of (os.path, glob, sorted, open/write, print), with the properties of
    its specification.

    Conventions of the model.
    - A Python [str] is a [string]: the bytes of the text in UTF-8, and
      for a file name the bytes of the name. Strings are compared byte by
      byte, which for UTF-8 text is the code point order Python's
      [sorted] uses.
    - A text stream encodes what is written to it; which texts its
      encoder takes is part of the world ([fs_encodable]), and the worlds
      of the scenarios have UTF-8 streams. A file holds the text written
      to it.
    - The working directory may be gone: then [os.getcwd] raises, and no
      relative path leads anywhere.
    - The script runs on a POSIX host: [os.path] is [posixpath], the
      separator is [/] and [fnmatch] does no case folding.
    - The file system is a tree of directories and regular files (no
      symbolic links); the order of the entries of a directory is the
      order in which [os.scandir] lists them.
    - [glob] follows CPython 3.11's glob.py; the matching of one name
      against one pattern segment ([fnmatch]) is a parameter of the
      development, instantiated for the concrete scenarios by a matcher
      for the wildcards [*] and [?]. *)

From Stdlib Require Import Strings.String Strings.Ascii Lists.List Bool.Bool.
From Stdlib Require Import Arith.PeanoNat NArith.BinNat Lia.
From Stdlib Require Import Sorting.Mergesort Sorting.Sorted Sorting.Permutation.
From Stdlib Require Import Numbers.DecimalString Structures.Orders.
Import ListNotations.

Local Open Scope list_scope.
Local Open Scope string_scope.

(** ** Exceptions *)

(** [OSError] stands for its subclasses too: the [FileNotFoundError] of
    [os.getcwd] and of [open] in a working directory that is gone, and
    the [IsADirectoryError] of [open]. *)
Inductive exn : Type :=
| ValueError
| OSError
| UnicodeEncodeError.

Inductive result (A : Type) : Type :=
| Ok (a : A)
| Raise (e : exn).

Arguments Ok {A} a.
Arguments Raise {A} e.

Definition bind {A B : Type} (m : result A) (k : A -> result B) : result B :=
  match m with
  | Ok a => k a
  | Raise e => Raise e
  end.

Notation "x <- m ;; k" := (bind m (fun x => k))
  (at level 61, m at next level, right associativity).

(** A list comprehension whose body may raise. *)
Fixpoint mapM {A B : Type} (f : A -> result B) (l : list A) : result (list B) :=
  match l with
  | [] => Ok []
  | a :: l' => b <- f a ;; bs <- mapM f l' ;; Ok (b :: bs)
  end.

(** ** Characters and [str] methods *)

Definition LF : ascii := "010"%char.
Definition CR : ascii := "013"%char.
Definition DQ : ascii := "034"%char.
Definition SEP : ascii := "/"%char.

Definition nl : string := String LF "".
Definition dq : string := String DQ "".

Definition nonempty (s : string) : bool :=
  match s with
  | "" => false
  | String _ _ => true
  end.

(** [c in s] for a character [c]. *)
Fixpoint contains (c : ascii) (s : string) : bool :=
  match s with
  | "" => false
  | String a r => Ascii.eqb a c || contains c r
  end.

(** [s.startswith(c)] and [s.endswith(c)] for a character [c]. *)
Definition startswith (c : ascii) (s : string) : bool :=
  match s with
  | "" => false
  | String a _ => Ascii.eqb a c
  end.

Fixpoint endswith (c : ascii) (s : string) : bool :=
  match s with
  | "" => false
  | String a "" => Ascii.eqb a c
  | String _ r => endswith c r
  end.

(** [s.replace(a, b)] for characters [a] and [b]. *)
Fixpoint replace (a b : ascii) (s : string) : string :=
  match s with
  | "" => ""
  | String c r => String (if Ascii.eqb c a then b else c) (replace a b r)
  end.

(** [s.split(sep)] for a character [sep]: never an empty list. *)
Fixpoint split (sep : ascii) (s : string) : list string :=
  match s with
  | "" => [""]
  | String c r =>
      if Ascii.eqb c sep then "" :: split sep r
      else match split sep r with
           | h :: t => String c h :: t
           | [] => [String c ""]
           end
  end.

(** [s.rstrip('/')]. *)
Fixpoint rstrip_sep (s : string) : string :=
  match s with
  | "" => ""
  | String c r =>
      match rstrip_sep r with
      | "" => if Ascii.eqb c SEP then "" else String c ""
      | r' => String c r'
      end
  end.

(** [(p[:i], p[i:])] for [i = p.rfind('/') + 1]. *)
Fixpoint cut_last_sep (p : string) : string * string :=
  match p with
  | "" => ("", "")
  | String c r =>
      match cut_last_sep r with
      | ("", t) => if Ascii.eqb c SEP then (String c "", t) else ("", String c t)
      | (h, t) => (String c h, t)
      end
  end.

(** ** UTF-8

    The encoder of a UTF-8 stream takes a text when the bytes that stand
    for it are well-formed UTF-8 (a file name that is not comes from
    [os.scandir] with escapes that no strict encoder takes). *)

Definition in_range (lo hi c : ascii) : bool :=
  (nat_of_ascii lo <=? nat_of_ascii c)%nat && (nat_of_ascii c <=? nat_of_ascii hi)%nat.

(** After the bytes read: at a character boundary; a byte of [lo..hi]
    and then [n] continuation bytes to come; after the byte [EF]. *)
Inductive ustate : Type :=
| UStart
| UNext (lo hi : ascii) (n : nat)
| UAfterEF.

(** One byte of well-formed UTF-8 (table 3-7 of the Unicode standard).
    With [xml], the characters have to be characters of XML 1.0 too: no
    control character but tab, line feed and carriage return, and neither
    U+FFFE nor U+FFFF. *)
Definition utf8_step (xml : bool) (s : ustate) (b : ascii) : option ustate :=
  match s with
  | UStart =>
      if in_range "000" "127" b then
        if xml && in_range "000" "031" b
           && negb (Ascii.eqb b "009" || Ascii.eqb b "010" || Ascii.eqb b "013")
        then None else Some UStart
      else if in_range "194" "223" b then Some (UNext "128" "191" 0)
      else if Ascii.eqb b "224" then Some (UNext "160" "191" 1)
      else if in_range "225" "236" b then Some (UNext "128" "191" 1)
      else if Ascii.eqb b "237" then Some (UNext "128" "159" 1)
      else if Ascii.eqb b "238" then Some (UNext "128" "191" 1)
      else if Ascii.eqb b "239" then
        if xml then Some UAfterEF else Some (UNext "128" "191" 1)
      else if Ascii.eqb b "240" then Some (UNext "144" "191" 2)
      else if in_range "241" "243" b then Some (UNext "128" "191" 2)
      else if Ascii.eqb b "244" then Some (UNext "128" "143" 2)
      else None
  | UNext lo hi n =>
      if in_range lo hi b then
        match n with
        | 0 => Some UStart
        | S n' => Some (UNext "128" "191" n')
        end
      else None
  | UAfterEF =>
      if Ascii.eqb b "191" then Some (UNext "128" "189" 0)
      else if in_range "128" "190" b then Some (UNext "128" "191" 0)
      else None
  end.

Fixpoint utf8_run (xml : bool) (s : string) (st : ustate) : option ustate :=
  match s with
  | "" => Some st
  | String b r =>
      match utf8_step xml st b with
      | Some st' => utf8_run xml r st'
      | None => None
      end
  end.

Definition at_boundary (st : option ustate) : bool :=
  match st with
  | Some UStart => true
  | _ => false
  end.

(** The text is well-formed UTF-8. *)
Definition utf8_valid (s : string) : bool := at_boundary (utf8_run false s UStart).

(** The text is made of characters of XML 1.0, in UTF-8. *)
Definition xml_chars (s : string) : bool := at_boundary (utf8_run true s UStart).

(** ** posixpath *)

(** [os.path.join(a, b)]. *)
Definition os_path_join (a b : string) : string :=
  if startswith SEP b then b
  else if negb (nonempty a) || endswith SEP a then a ++ b
  else a ++ String SEP b.

(** [os.path.join(a, *p)]. *)
Definition os_path_join_all (a : string) (p : list string) : string :=
  fold_left os_path_join p a.

(** [os.path.split(p)]: a head that is not made of slashes only loses its
    trailing slashes. *)
Definition os_path_split (p : string) : string * string :=
  let (head, tail) := cut_last_sep p in
  match rstrip_sep head with
  | "" => (head, tail)
  | head' => (head', tail)
  end.

(** The loop of [os.path.normpath]; [new_comps] is kept reversed. *)
Definition normpath_step (initial_slashes : bool) (new_comps : list string)
  (comp : string) : list string :=
  if (comp =? "") || (comp =? ".") then new_comps
  else if negb (comp =? "..") then comp :: new_comps
  else match new_comps with
       | [] => if initial_slashes then [] else [comp]
       | top :: popped => if top =? ".." then comp :: new_comps else popped
       end.

Definition normpath_comps (initial_slashes : bool) (path : string) : list string :=
  rev (fold_left (normpath_step initial_slashes) (split SEP path) []).

(** [os.path.normpath(path)]: exactly two leading slashes are kept. *)
Definition os_path_normpath (path : string) : string :=
  match path with
  | "" => "."
  | _ =>
      let initial_slashes := startswith SEP path in
      let body := String.concat "/" (normpath_comps initial_slashes path) in
      let res :=
        if initial_slashes then
          match path with
          | String _ (String b "") => if Ascii.eqb b SEP then "//" ++ body else "/" ++ body
          | String _ (String b (String c _)) =>
              if Ascii.eqb b SEP && negb (Ascii.eqb c SEP) then "//" ++ body else "/" ++ body
          | _ => "/" ++ body
          end
        else body in
      match res with
      | "" => "."
      | _ => res
      end
  end.

(** [os.path.abspath(path)]: [os.getcwd()] is called for a path that is
    not absolute; [getcwd] is what the call does. *)
Definition os_path_abspath (getcwd : result string) (path : string) : result string :=
  path <- (if negb (startswith SEP path) then
             cwd <- getcwd ;; Ok (os_path_join cwd path)
           else Ok path) ;;
  Ok (os_path_normpath path).

(** [len(os.path.commonprefix([l1, l2]))] for two lists of components. *)
Fixpoint commonprefix_len (l1 l2 : list string) : nat :=
  match l1, l2 with
  | a :: l1', b :: l2' => if a =? b then S (commonprefix_len l1' l2') else 0
  | _, _ => 0
  end.

(** [[x for x in s.split('/') if x]]. *)
Definition path_list (s : string) : list string :=
  filter nonempty (split SEP s).

(** [os.path.relpath(path, start)]: both paths are made absolute, the
    start first. *)
Definition os_path_relpath (getcwd : result string) (path start : string)
  : result string :=
  if negb (nonempty path) then Raise ValueError
  else
    start_abs <- os_path_abspath getcwd start ;;
    let start_list := path_list start_abs in
    path_abs <- os_path_abspath getcwd path ;;
    let path_comps := path_list path_abs in
    let i := commonprefix_len start_list path_comps in
    let rel_list :=
      (repeat ".." (List.length start_list - i) ++ skipn i path_comps)%list in
    match rel_list with
    | [] => Ok "."
    | a :: p => Ok (os_path_join_all a p)
    end.

(** ** The file system *)

#[local] Set Warnings "-register-all".

Inductive node : Type :=
| File (content : string)
| Dir (entries : list (string * node)).

(** The root directory, the components of the working directory, and the
    encoding of the text streams [open] makes: the texts its encoder
    takes. *)
Record world : Type := {
  fs_root : node;
  fs_cwd : list string;
  fs_encodable : string -> bool
}.

Definition is_dir (n : node) : bool :=
  match n with
  | Dir _ => true
  | File _ => false
  end.

Fixpoint lookup_entry (name : string) (es : list (string * node)) : option node :=
  match es with
  | [] => None
  | (x, n) :: es' => if x =? name then Some n else lookup_entry name es'
  end.

(** Path resolution, one component at a time. The stack holds the node
    reached and its ancestors; every component, also an empty one or a
    dot, needs a directory to be looked up in. *)
Fixpoint walk (comps : list string) (stack : list node) : option (list node) :=
  match comps with
  | [] => Some stack
  | c :: comps' =>
      match stack with
      | Dir es :: up =>
          if (c =? "") || (c =? ".") then walk comps' stack
          else if c =? ".." then
            walk comps' (match up with [] => stack | _ :: _ => up end)
          else match lookup_entry c es with
               | Some n => walk comps' (n :: stack)
               | None => None
               end
      | _ => None
      end
  end.

(** The working directory and its ancestors: [os.getcwd()] is made of
    plain names, each looked up in the directory above. *)
Fixpoint descend (names : list string) (stack : list node) : option (list node) :=
  match names with
  | [] => Some stack
  | c :: names' =>
      match stack with
      | Dir es :: _ =>
          match lookup_entry c es with
          | Some n => descend names' (n :: stack)
          | None => None
          end
      | _ => None
      end
  end.

Definition cwd_stack (w : world) : option (list node) :=
  descend (fs_cwd w) [fs_root w].

Definition lookup_path (w : world) (path : string) : option node :=
  match path with
  | "" => None
  | _ =>
      match (if startswith SEP path then Some [fs_root w] else cwd_stack w) with
      | Some st =>
          match walk (split SEP path) st with
          | Some (n :: _) => Some n
          | _ => None
          end
      | None => None
      end
  end.

(** [os.getcwd()]: the path of the working directory, and
    [FileNotFoundError] when the directory is gone. *)
Definition cwd_there (w : world) : bool :=
  match cwd_stack w with
  | Some (Dir _ :: _) => true
  | _ => false
  end.

Definition cwd_path (w : world) : string :=
  "/" ++ String.concat "/" (fs_cwd w).

Definition getcwd (w : world) : result string :=
  if cwd_there w then Ok (cwd_path w) else Raise OSError.

(** [os.path.lexists] and [os.path.isdir]. *)
Definition lexists (w : world) (path : string) : bool :=
  match lookup_path w path with
  | Some _ => true
  | None => false
  end.

Definition isdir (w : world) (path : string) : bool :=
  match lookup_path w path with
  | Some n => is_dir n
  | None => false
  end.

(** [glob._listdir(dirname, dir_fd, dironly)]: the names [os.scandir]
    yields, and no name when it raises [OSError]. *)
Definition _listdir (w : world) (dirname : string) (dironly : bool) : list string :=
  match lookup_path w (if nonempty dirname then dirname else ".") with
  | Some (Dir es) => map fst (filter (fun e => negb dironly || is_dir (snd e)) es)
  | _ => []
  end.

(** ** glob *)

(** [magic_check = re.compile('([*?[])')]. *)
Fixpoint has_magic (s : string) : bool :=
  match s with
  | "" => false
  | String c r =>
      Ascii.eqb c "*" || Ascii.eqb c "?" || Ascii.eqb c "[" || has_magic r
  end.

(** [path[0] == '.']; the names of a directory and the pattern segments
    it is applied to are not empty. *)
Definition _ishidden (path : string) : bool := startswith "." path.

Definition _isrecursive (pattern : string) : bool := pattern =? "**".

(** [glob._join(dirname, basename)]. *)
Definition _join (dirname basename : string) : string :=
  if negb (nonempty dirname) || negb (nonempty basename) then
    (if nonempty dirname then dirname else basename)
  else os_path_join dirname basename.

(** [_rlistdir] on the directory itself: the listing of
    [_join(dirname, x)] is the listing of the entry [x]. *)
Fixpoint rlistdir_node (dironly : bool) (n : node) : list string :=
  match n with
  | File _ => []
  | Dir es =>
      flat_map
        (fun e =>
           if (negb dironly || is_dir (snd e)) && negb (_ishidden (fst e)) then
             fst e :: map (_join (fst e)) (rlistdir_node dironly (snd e))
           else [])
        es
  end.

Section Glob.

(** [fnmatchcase name pat]: does [name] match the pattern segment [pat]. *)
Variable fnmatchcase : string -> string -> bool.

Variable w : world.

Definition _glob1 (dirname pattern : string) (dironly : bool) : list string :=
  let names := _listdir w dirname dironly in
  let names :=
    if negb (_ishidden pattern) then filter (fun x => negb (_ishidden x)) names
    else names in
  filter (fun name => fnmatchcase name pattern) names.

Definition _glob0 (dirname basename : string) (dironly : bool) : list string :=
  if nonempty basename then
    (if lexists w (_join dirname basename) then [basename] else [])
  else
    (if isdir w dirname then [basename] else []).

Definition _rlistdir (dirname : string) (dironly : bool) : list string :=
  match lookup_path w (if nonempty dirname then dirname else ".") with
  | Some n => rlistdir_node dironly n
  | None => []
  end.

Definition _glob2 (dirname pattern : string) (dironly : bool) : list string :=
  "" :: _rlistdir dirname dironly.

(** [glob._iglob]; each recursive call is on the head of [os.path.split],
    which is shorter than the path, so [fuel] above its length is never
    used up (lemma [iglob_fuel_enough]). *)
Fixpoint iglob_fuel (fuel : nat) (pathname : string) (dironly : bool) : list string :=
  match fuel with
  | 0 => []
  | S fuel' =>
      let (dirname, basename) := os_path_split pathname in
      if negb (has_magic pathname) then
        if nonempty basename then
          (if lexists w pathname then [pathname] else [])
        else
          (if isdir w dirname then [pathname] else [])
      else if negb (nonempty dirname) then
        if _isrecursive basename then _glob2 "" basename dironly
        else _glob1 "" basename dironly
      else
        let dirs :=
          if negb (dirname =? pathname) && has_magic dirname
          then iglob_fuel fuel' dirname true
          else [dirname] in
        let glob_in_dir :=
          if has_magic basename then
            (if _isrecursive basename then _glob2 else _glob1)
          else _glob0 in
        flat_map
          (fun dirname =>
             map (os_path_join dirname) (glob_in_dir dirname basename dironly))
          dirs
  end.

Definition _iglob (pathname : string) (dironly : bool) : list string :=
  iglob_fuel (S (String.length pathname)) pathname dironly.

(** [glob.glob(pathname, recursive=True)]: an empty first result is
    skipped for an empty pattern and for one that starts with [**]. *)
Definition glob_glob (pathname : string) : list string :=
  let it := _iglob pathname false in
  if negb (nonempty pathname) || _isrecursive (substring 0 2 pathname) then
    match it with
    | s :: rest => if nonempty s then it else rest
    | [] => []
    end
  else it.

End Glob.

(** A matcher for the wildcards [*] (any run of characters) and [?] (any
    one character); it is [fnmatch.fnmatchcase] on the patterns that have
    no bracket expression. *)
Fixpoint wild_match (pat name : string) {struct pat} : bool :=
  match pat with
  | "" => negb (nonempty name)
  | String c pat' =>
      if Ascii.eqb c "*" then
        (fix star (name : string) : bool :=
           wild_match pat' name
           || match name with
              | "" => false
              | String _ r => star r
              end) name
      else
        match name with
        | "" => false
        | String a r => (Ascii.eqb c "?" || Ascii.eqb a c) && wild_match pat' r
        end
  end.

Definition fnmatch_wild (name pat : string) : bool := wild_match pat name.

(** ** sorted *)

Module StringOrder <: TotalLeBool.
Definition t := string.
Definition leb := String.leb.
Theorem leb_total : forall a1 a2, leb a1 a2 = true \/ leb a2 a1 = true.
Proof. exact String.leb_total. Qed.
End StringOrder.

Module StringSort := Sort StringOrder.

(** [sorted(l)] for a list of [str]. *)
Definition sorted (l : list string) : list string := StringSort.sort l.

(** ** The template

    [header_lines] and [footer_lines] are the lines of the two string
    literals of the script; each line ends with a line feed. *)

Definition unlines (ls : list string) : string :=
  fold_right (fun l acc => l ++ nl ++ acc) EmptyString ls.

Definition header_lines : list string :=
  [ "<?xml version=" ++ dq ++ "1.0" ++ dq ++ " encoding=" ++ dq ++ "utf-8" ++ dq ++
     "?>";
    "<Project DefaultTargets=" ++ dq ++ "Build" ++ dq ++ " xmlns=" ++ dq ++
     "http://schemas.microsoft.com/developer/msbuild/2003" ++ dq ++ ">";
    "  <ItemGroup Label=" ++ dq ++ "ProjectConfigurations" ++ dq ++ ">";
    "    <ProjectConfiguration Include=" ++ dq ++ "Debug|x64" ++ dq ++ ">";
    "      <Configuration>Debug</Configuration>";
    "      <Platform>x64</Platform>";
    "    </ProjectConfiguration>";
    "    <ProjectConfiguration Include=" ++ dq ++ "Release|x64" ++ dq ++ ">";
    "      <Configuration>Release</Configuration>";
    "      <Platform>x64</Platform>";
    "    </ProjectConfiguration>";
    "  </ItemGroup>";
    "  <PropertyGroup Label=" ++ dq ++ "Globals" ++ dq ++ ">";
    "    <VCProjectVersion>16.0</VCProjectVersion>";
    "    <ProjectGuid>{F7A8B1E3-9C4D-4E5F-8A6B-1D2E3F4A5B6C}</ProjectGuid>";
    "    <Keyword>Win32Proj</Keyword>";
    "    <RootNamespace>hlffi</RootNamespace>";
    "    <WindowsTargetPlatformVersion>10.0</WindowsTargetPlatformVersion>";
    "  </PropertyGroup>";
    "  <Import Project=" ++ dq ++ "$(VCTargetsPath)\Microsoft.Cpp.Default.props" ++
     dq ++ " />";
    "  <PropertyGroup Condition=" ++ dq ++
     "'$(Configuration)|$(Platform)'=='Debug|x64'" ++ dq ++ " Label=" ++ dq ++
     "Configuration" ++ dq ++ ">";
    "    <ConfigurationType>StaticLibrary</ConfigurationType>";
    "    <UseDebugLibraries>true</UseDebugLibraries>";
    "    <PlatformToolset>v143</PlatformToolset>";
    "    <CharacterSet>Unicode</CharacterSet>";
    "  </PropertyGroup>";
    "  <PropertyGroup Condition=" ++ dq ++
     "'$(Configuration)|$(Platform)'=='Release|x64'" ++ dq ++ " Label=" ++ dq ++
     "Configuration" ++ dq ++ ">";
    "    <ConfigurationType>StaticLibrary</ConfigurationType>";
    "    <UseDebugLibraries>false</UseDebugLibraries>";
    "    <PlatformToolset>v143</PlatformToolset>";
    "    <WholeProgramOptimization>true</WholeProgramOptimization>";
    "    <CharacterSet>Unicode</CharacterSet>";
    "  </PropertyGroup>";
    "  <Import Project=" ++ dq ++ "$(VCTargetsPath)\Microsoft.Cpp.props" ++ dq ++
     " />";
    "  <ImportGroup Label=" ++ dq ++ "ExtensionSettings" ++ dq ++ ">";
    "  </ImportGroup>";
    "  <ImportGroup Label=" ++ dq ++ "Shared" ++ dq ++ ">";
    "  </ImportGroup>";
    "  <ImportGroup Label=" ++ dq ++ "PropertySheets" ++ dq ++ " Condition=" ++
     dq ++ "'$(Configuration)|$(Platform)'=='Debug|x64'" ++ dq ++ ">";
    "    <Import Project=" ++ dq ++
     "$(UserRootDir)\Microsoft.Cpp.$(Platform).user.props" ++ dq ++ " Condition=" ++
     dq ++ "exists('$(UserRootDir)\Microsoft.Cpp.$(Platform).user.props')" ++ dq ++
     " Label=" ++ dq ++ "LocalAppDataPlatform" ++ dq ++ " />";
    "  </ImportGroup>";
    "  <ImportGroup Label=" ++ dq ++ "PropertySheets" ++ dq ++ " Condition=" ++
     dq ++ "'$(Configuration)|$(Platform)'=='Release|x64'" ++ dq ++ ">";
    "    <Import Project=" ++ dq ++
     "$(UserRootDir)\Microsoft.Cpp.$(Platform).user.props" ++ dq ++ " Condition=" ++
     dq ++ "exists('$(UserRootDir)\Microsoft.Cpp.$(Platform).user.props')" ++ dq ++
     " Label=" ++ dq ++ "LocalAppDataPlatform" ++ dq ++ " />";
    "  </ImportGroup>";
    "  <PropertyGroup Label=" ++ dq ++ "UserMacros" ++ dq ++ " />";
    "  <PropertyGroup Condition=" ++ dq ++
     "'$(Configuration)|$(Platform)'=='Debug|x64'" ++ dq ++ ">";
    "    <LinkIncremental>true</LinkIncremental>";
    "    <OutDir>$(SolutionDir)bin\$(Platform)\$(Configuration)\</OutDir>";
    "    <IntDir>$(SolutionDir)obj\$(ProjectName)\$(Platform)\$(Configuration)\</IntDir>";
    "  </PropertyGroup>";
    "  <PropertyGroup Condition=" ++ dq ++
     "'$(Configuration)|$(Platform)'=='Release|x64'" ++ dq ++ ">";
    "    <LinkIncremental>false</LinkIncremental>";
    "    <OutDir>$(SolutionDir)bin\$(Platform)\$(Configuration)\</OutDir>";
    "    <IntDir>$(SolutionDir)obj\$(ProjectName)\$(Platform)\$(Configuration)\</IntDir>";
    "  </PropertyGroup>";
    "  <ItemDefinitionGroup Condition=" ++ dq ++
     "'$(Configuration)|$(Platform)'=='Debug|x64'" ++ dq ++ ">";
    "    <ClCompile>";
    "      <PrecompiledHeader>NotUsing</PrecompiledHeader>";
    "      <WarningLevel>Level3</WarningLevel>";
    "      <SDLCheck>true</SDLCheck>";
    "      <PreprocessorDefinitions>_DEBUG;_LIB;LIBHL_EXPORTS;HAVE_CONFIG_H;PCRE2_CODE_UNIT_WIDTH=16;MBEDTLS_USER_CONFIG_FILE=&lt;mbedtls_user_config.h&gt;;%(PreprocessorDefinitions)</PreprocessorDefinitions>";
    "      <ConformanceMode>false</ConformanceMode>";
    "      <AdditionalIncludeDirectories>$(ProjectDir)include;$(ProjectDir)vendor\hashlink\src;$(ProjectDir)vendor\hashlink\include\pcre;$(ProjectDir)vendor\hashlink\include\libuv\include;$(ProjectDir)vendor\hashlink\include\libuv\src;$(ProjectDir)vendor\hashlink\include\mbedtls\include;$(ProjectDir)vendor\hashlink\libs\ssl;%(AdditionalIncludeDirectories)</AdditionalIncludeDirectories>";
    "      <LanguageStandard>stdcpp17</LanguageStandard>";
    "      <MultiProcessorCompilation>true</MultiProcessorCompilation>";
    "      <TreatWarningAsError>false</TreatWarningAsError>";
    "      <DisableSpecificWarnings>4244;4267;4456;4459;4127;4100;4201;4706;%(DisableSpecificWarnings)</DisableSpecificWarnings>";
    "    </ClCompile>";
    "    <Link>";
    "      <SubSystem>Console</SubSystem>";
    "      <GenerateDebugInformation>true</GenerateDebugInformation>";
    "    </Link>";
    "    <Lib>";
    "      <AdditionalDependencies>ws2_32.lib;advapi32.lib;psapi.lib;user32.lib;iphlpapi.lib;userenv.lib;winmm.lib;%(AdditionalDependencies)</AdditionalDependencies>";
    "    </Lib>";
    "  </ItemDefinitionGroup>";
    "  <ItemDefinitionGroup Condition=" ++ dq ++
     "'$(Configuration)|$(Platform)'=='Release|x64'" ++ dq ++ ">";
    "    <ClCompile>";
    "      <PrecompiledHeader>NotUsing</PrecompiledHeader>";
    "      <WarningLevel>Level3</WarningLevel>";
    "      <FunctionLevelLinking>true</FunctionLevelLinking>";
    "      <IntrinsicFunctions>true</IntrinsicFunctions>";
    "      <SDLCheck>true</SDLCheck>";
    "      <PreprocessorDefinitions>NDEBUG;_LIB;LIBHL_EXPORTS;HAVE_CONFIG_H;PCRE2_CODE_UNIT_WIDTH=16;MBEDTLS_USER_CONFIG_FILE=&lt;mbedtls_user_config.h&gt;;%(PreprocessorDefinitions)</PreprocessorDefinitions>";
    "      <ConformanceMode>false</ConformanceMode>";
    "      <AdditionalIncludeDirectories>$(ProjectDir)include;$(ProjectDir)vendor\hashlink\src;$(ProjectDir)vendor\hashlink\include\pcre;$(ProjectDir)vendor\hashlink\include\libuv\include;$(ProjectDir)vendor\hashlink\include\libuv\src;$(ProjectDir)vendor\hashlink\include\mbedtls\include;$(ProjectDir)vendor\hashlink\libs\ssl;%(AdditionalIncludeDirectories)</AdditionalIncludeDirectories>";
    "      <LanguageStandard>stdcpp17</LanguageStandard>";
    "      <MultiProcessorCompilation>true</MultiProcessorCompilation>";
    "      <TreatWarningAsError>false</TreatWarningAsError>";
    "      <DisableSpecificWarnings>4244;4267;4456;4459;4127;4100;4201;4706;%(DisableSpecificWarnings)</DisableSpecificWarnings>";
    "    </ClCompile>";
    "    <Link>";
    "      <SubSystem>Console</SubSystem>";
    "      <EnableCOMDATFolding>true</EnableCOMDATFolding>";
    "      <OptimizeReferences>true</OptimizeReferences>";
    "      <GenerateDebugInformation>true</GenerateDebugInformation>";
    "    </Link>";
    "    <Lib>";
    "      <AdditionalDependencies>ws2_32.lib;advapi32.lib;psapi.lib;user32.lib;iphlpapi.lib;userenv.lib;winmm.lib;%(AdditionalDependencies)</AdditionalDependencies>";
    "    </Lib>";
    "  </ItemDefinitionGroup>";
    "  <ItemGroup>";
    "    <ClInclude Include=" ++ dq ++ "include\hlffi.h" ++ dq ++ " />";
    "  </ItemGroup>";
    "  <ItemGroup>" ].

Definition VCXPROJ_HEADER : string := unlines header_lines.

Definition footer_lines : list string :=
  [ "  </ItemGroup>";
    "  <Import Project=" ++ dq ++ "$(VCTargetsPath)\Microsoft.Cpp.targets" ++ dq ++
     " />";
    "  <ImportGroup Label=" ++ dq ++ "ExtensionTargets" ++ dq ++ ">";
    "  </ImportGroup>";
    "</Project>" ].

Definition VCXPROJ_FOOTER : string := unlines footer_lines.

(** ** Writing a text file *)

(** What a text stream opened with [newline] writes for the text [s]:
    every line feed becomes [newline]. *)
Fixpoint translate_newlines (newline s : string) : string :=
  match s with
  | "" => ""
  | String c r =>
      (if Ascii.eqb c LF then newline else String c "")
      ++ translate_newlines newline r
  end.

Fixpoint set_entry (name : string) (n : node) (es : list (string * node))
  : list (string * node) :=
  match es with
  | [] => [(name, n)]
  | (x, m) :: es' =>
      if x =? name then (name, n) :: es' else (x, m) :: set_entry name n es'
  end.

(** Replace the entries of the directory reached by [path]. *)
Fixpoint update_dir (path : list string)
  (f : list (string * node) -> result (list (string * node))) (n : node)
  : result node :=
  match n with
  | File _ => Raise OSError
  | Dir es =>
      match path with
      | [] => es' <- f es ;; Ok (Dir es')
      | c :: path' =>
          match lookup_entry c es with
          | Some child =>
              child' <- update_dir path' f child ;;
              Ok (Dir (set_entry c child' es))
          | None => Raise OSError
          end
      end
  end.

Definition update_cwd (w : world)
  (f : list (string * node) -> result (list (string * node))) : result world :=
  root' <- update_dir (fs_cwd w) f (fs_root w) ;;
  Ok {| fs_root := root'; fs_cwd := fs_cwd w; fs_encodable := fs_encodable w |}.

(** [open(name, 'w')] for a file name of the working directory: the file
    is created or truncated; a directory of that name cannot be opened. *)
Definition open_w (w : world) (name : string) : result world :=
  update_cwd w (fun es =>
    match lookup_entry name es with
    | Some (Dir _) => Raise OSError
    | _ => Ok (set_entry name (File "") es)
    end).

(** [f.write(s)] on the stream opened on [name] with [newline]: the line
    feeds are translated, the text is encoded, which raises
    [UnicodeEncodeError] for a text the encoder does not take, and the
    result is added to the file. *)
Definition file_write (w : world) (name newline s : string) : result world :=
  let text := translate_newlines newline s in
  if fs_encodable w text then
    update_cwd w (fun es =>
      match lookup_entry name es with
      | Some (File old) => Ok (set_entry name (File (old ++ text)) es)
      | _ => Raise OSError
      end)
  else Raise UnicodeEncodeError.

(** The content of the file [name] of the working directory. *)
Definition read_file (w : world) (name : string) : option string :=
  match cwd_stack w with
  | Some (Dir es :: _) =>
      match lookup_entry name es with
      | Some (File c) => Some c
      | _ => None
      end
  | _ => None
  end.

(** [print(s)] on the standard output [out]. *)
Definition print (s out : string) : string := out ++ s ++ nl.

(** [str(n)] for a length. *)
Definition str_of_nat (n : nat) : string := NilEmpty.string_of_uint (Nat.to_uint n).

(** ** The script *)

Section Generator.

Variable fnmatchcase : string -> string -> bool.

Definition find_sources (w : world) (base_path pattern : string)
  : result (list string) :=
  let full_pattern := os_path_join base_path pattern in
  let files := glob_glob fnmatchcase w full_pattern in
  rel_files <-
    mapM (fun f => r <- os_path_relpath (getcwd w) f "." ;; Ok (replace "/" "\" r))
      files ;;
  Ok (sorted rel_files).

Definition SourceGroup : Type := (string * list string)%type.

(** The part of [main] that fills [sources]. *)
Definition main_sources (w : world) : result (list SourceGroup) :=
  let sources : list SourceGroup := [] in
  let sources := (sources ++ [("HLFFI wrapper code", [
      "src\hlffi_core.c";
      "src\hlffi_events.c";
      "src\hlffi_integration.c";
      "src\hlffi_lifecycle.c";
      "src\hlffi_reload.c";
      "src\hlffi_threading.c"])])%list in
  let sources := (sources ++ [("HashLink VM core", [
      "vendor\hashlink\src\allocator.c";
      "vendor\hashlink\src\code.c";
      "vendor\hashlink\src\module.c";
      "vendor\hashlink\src\jit.c";
      "vendor\hashlink\src\debugger.c";
      "vendor\hashlink\src\profile.c";
      "vendor\hashlink\src\gc.c"])])%list in
  stdlib_sources <- find_sources w "vendor/hashlink/src/std" "*.c" ;;
  let sources := (sources ++ [("HashLink standard library", stdlib_sources)])%list in
  pcre_sources <- find_sources w "vendor/hashlink/include/pcre" "*.c" ;;
  let sources := (sources ++ [("PCRE2 regex library", pcre_sources)])%list in
  let sources := (sources ++ [("Plugin wrappers", [
      "vendor\hashlink\libs\uv\uv.c";
      "vendor\hashlink\libs\ssl\ssl.c"])])%list in
  uv_sources_1 <- find_sources w "vendor/hashlink/include/libuv/src" "*.c" ;;
  uv_sources_2 <- find_sources w "vendor/hashlink/include/libuv/src/win" "*.c" ;;
  let uv_sources := (uv_sources_1 ++ uv_sources_2)%list in
  let sources := (sources ++ [("libuv sources (embedded)", uv_sources)])%list in
  mbedtls_sources <- find_sources w "vendor/hashlink/include/mbedtls/library" "*.c" ;;
  let sources :=
    (sources ++ [("mbedtls sources (embedded - TLS/SSL support)", mbedtls_sources)])%list in
  Ok sources.

(** The part of [main] that builds the text [vcxproj]. *)
Definition render (sources : list SourceGroup) : string :=
  let vcxproj := VCXPROJ_HEADER in
  let vcxproj :=
    fold_left
      (fun vcxproj (group : SourceGroup) =>
         let (section_name, files) := group in
         let vcxproj := vcxproj ++ ("    <!-- " ++ section_name ++ " -->" ++ nl) in
         let vcxproj :=
           fold_left
             (fun vcxproj f =>
                vcxproj ++ ("    <ClCompile Include=" ++ dq ++ f ++ dq ++ " />" ++ nl))
             files vcxproj in
         vcxproj ++ nl)
      sources vcxproj in
  vcxproj ++ VCXPROJ_FOOTER.

(** The part of [main] that prints the summary. *)
Definition summary (sources : list SourceGroup) (out : string) : string :=
  let total := fold_left (fun acc (group : SourceGroup) => acc + List.length (snd group)) sources 0 in
  let out := print "Generated hlffi_monolithic.vcxproj" out in
  let out := print ("Total source files: " ++ str_of_nat total) out in
  let out :=
    fold_left
      (fun out (group : SourceGroup) =>
         let (name, files) := group in
         print ("  " ++ name ++ ": " ++ str_of_nat (List.length files) ++ " files") out)
      sources out in
  let out := print (nl ++ "To use:") out in
  print "  mv hlffi_monolithic.vcxproj hlffi.vcxproj" out.

(** What a run leaves behind. *)
Record run : Type := {
  run_sources : list SourceGroup;
  run_vcxproj : string;
  run_world : world;
  run_stdout : string
}.

Definition main (w : world) : result run :=
  sources <- main_sources w ;;
  let vcxproj := render sources in
  w1 <- open_w w "hlffi_monolithic.vcxproj" ;;
  w2 <- file_write w1 "hlffi_monolithic.vcxproj" (String CR nl) vcxproj ;;
  let out := summary sources "" in
  Ok {| run_sources := sources; run_vcxproj := vcxproj;
        run_world := w2; run_stdout := out |}.

End Generator.

(** ** Scenarios *)

(** A project checked out in [/home/u]: [hashlink] holds the vendor tree. *)
Definition project (hashlink : list (string * node)) (others : list (string * node))
  : world :=
  {| fs_root :=
       Dir [("home", Dir [("u", Dir (("vendor", Dir [("hashlink", Dir hashlink)]) :: others))])];
     fs_cwd := ["home"; "u"];
     fs_encodable := utf8_valid |}.

(** Nothing but an empty root directory, which is the working directory. *)
Definition world_bare : world :=
  {| fs_root := Dir []; fs_cwd := []; fs_encodable := utf8_valid |}.

(** The scenario of the specification: [b.c] and [a.c], listed in this
    order, under the std subtree; an output file of an earlier run. *)
Definition world_std : world :=
  project
    [("src", Dir [("std", Dir [("b.c", File "int b;"); ("a.c", File "int a;")])])]
    [("hlffi_monolithic.vcxproj", File "stale")].

(** The same files, listed in the other order. *)
Definition world_std_swapped : world :=
  project
    [("src", Dir [("std", Dir [("a.c", File "int a;"); ("b.c", File "int b;")])])]
    [].

(** A source file in a subdirectory of the std subtree. *)
Definition world_nested : world :=
  project
    [("src", Dir [("std", Dir [("a.c", File ""); ("sub", Dir [("b.c", File "")])])])]
    [].

(** libuv with [z.c] next to its [win] folder. *)
Definition world_uv : world :=
  project
    [("include", Dir [("libuv", Dir [("src", Dir [
        ("z.c", File ""); ("win", Dir [("a.c", File "")])])])])]
    [].

(** A source file with an ampersand in its name. *)
Definition world_amp : world :=
  project [("src", Dir [("std", Dir [("q&r.c", File "")])])] [].

(** A source file with a control character in its name. *)
Definition world_ctl : world :=
  project [("src", Dir [("std", Dir [(String "a" (String "001" ".c"), File "")])])] [].

(** A source file with a line feed and the start of an include-entry in
    its name. *)
Definition world_lf : world :=
  project
    [("src", Dir [("std", Dir [
        ("x.c" ++ nl ++ "    <ClCompile Include=" ++ dq ++ "y.c", File "")])])]
    [].

(** A source file with a name that is not UTF-8: the byte [FF]. *)
Definition world_ff : world :=
  project [("src", Dir [("std", Dir [(String "255" ".c", File "")])])] [].

(** The working directory [/gone] has been removed; [/data] holds [a.c]. *)
Definition world_gone : world :=
  {| fs_root := Dir [("data", Dir [("a.c", File "")])];
     fs_cwd := ["gone"];
     fs_encodable := utf8_valid |}.

(** [open(name, 'w')] succeeds: the working directory is there and [name]
    is not a directory of it. *)
Definition writable (w : world) (name : string) : bool :=
  match cwd_stack w with
  | Some (Dir es :: _) =>
      match lookup_entry name es with
      | Some (Dir _) => false
      | _ => true
      end
  | _ => false
  end.

(** ** Base paths and patterns *)

(** [os.path.abspath(path)] and the list [rel_list] of
    [os.path.relpath(path, start)] when [os.getcwd()] returns [cwd]. *)
Definition abspath_in (cwd path : string) : string :=
  os_path_normpath (if startswith SEP path then path else os_path_join cwd path).

Definition rel_list (cwd path start : string) : list string :=
  let start_list := path_list (abspath_in cwd start) in
  let path_comps := path_list (abspath_in cwd path) in
  let i := commonprefix_len start_list path_comps in
  (repeat ".." (List.length start_list - i) ++ skipn i path_comps)%list.

(** The value [os.path.relpath] returns when it returns. *)
Definition relpath_of (cwd path start : string) : string :=
  match rel_list cwd path start with
  | [] => "."
  | a :: p => os_path_join_all a p
  end.

(** What [find_sources] makes of one path of [glob]. *)
Definition to_rel (w : world) (f : string) : string :=
  replace "/" "\" (relpath_of (cwd_path w) f ".").

(** A base path that names one directory: not empty, no wildcard. *)
Definition literal_path (base_path : string) : bool :=
  nonempty base_path && negb (has_magic base_path).

(** A pattern for the names of one directory: one segment, with a
    wildcard, other than the recursive [**]. *)
Definition segment_pattern (pattern : string) : bool :=
  negb (contains SEP pattern) && has_magic pattern && negb (_isrecursive pattern).

(** The directory [glob] lists for a literal base path: the base path
    without its trailing slashes. *)
Definition dir_of (base_path : string) : string :=
  match rstrip_sep base_path with
  | "" => base_path
  | d => d
  end.

Fixpoint slashes (k : nat) : string :=
  match k with
  | 0 => ""
  | S k' => String SEP (slashes k')
  end.

(** ** The document, as the specification describes it *)

(** [l] is in the order of [sorted]: each element is below the next. *)
Definition is_sorted (l : list string) : Prop :=
  Sorted (fun a b => String.leb a b = true) l.

(** The text a loop of [+=] builds. *)
Definition concat_map {A : Type} (g : A -> string) (l : list A) : string :=
  fold_right (fun x acc => g x ++ acc) "" l.

(** The comment line naming a group and the include-entry of a file. *)
Definition comment_line (section_name : string) : string :=
  "    <!-- " ++ section_name ++ " -->" ++ nl.

Definition include_entry (f : string) : string :=
  "    <ClCompile Include=" ++ dq ++ f ++ dq ++ " />" ++ nl.

(** A group: its comment line, one include-entry per file, an empty line. *)
Definition group_block (group : SourceGroup) : string :=
  comment_line (fst group) ++ concat_map include_entry (snd group) ++ nl.

(** Header, the groups in order, footer. *)
Definition render_spec (sources : list SourceGroup) : string :=
  VCXPROJ_HEADER ++ concat_map group_block sources ++ VCXPROJ_FOOTER.

(** The number of files of all groups. *)
Definition total_files (sources : list SourceGroup) : nat :=
  list_sum (map (fun group : SourceGroup => List.length (snd group)) sources).

(** The lines of a text, and those that are include-entries. *)
Definition lines (doc : string) : list string := split LF doc.

Definition entry_prefix : string := "    <ClCompile Include=" ++ dq.

Definition is_entry_line (l : string) : bool := prefix entry_prefix l.

Definition count_entry_lines (doc : string) : nat :=
  List.length (filter is_entry_line (lines doc)).

(** ** Well-formed XML

    Two passes over the bytes of a document. The first checks that they
    are characters of XML 1.0 in UTF-8 ([xml_chars]). The second scans
    the markup: the XML declaration, at the very start only; processing
    instructions with a target; comments (no double hyphen inside);
    start tags with quoted attribute values, no attribute name twice in
    a tag; empty-element tags; end tags; references, which are the five
    predefined entities and the character references to a character of
    XML; no [<] in an attribute value and no [\]\]>] in character data.
    It keeps the stack of the open elements; a document is well formed
    when the scanner accepts every character, every opened element is
    closed by the end tag of its name, and there is one root element.
    The scanner knows no document type declaration, no CDATA section and
    no name outside ASCII, and of the XML declarations those for version
    1.0 with the encoding UTF-8 or none: it refuses documents with them,
    and accepts no document that is not well formed. *)

Inductive xmode : Type :=
| XStart
| XText
| XTextB
| XTextBB
| XLt (first : bool)
| XPITarget (first : bool) (target : string)
| XPI (first : bool) (target body : string)
| XPIq (first : bool) (target body : string)
| XBang
| XBangDash
| XComment
| XCommentDash
| XCommentDashDash
| XOpenName (name : string)
| XInTag (name : string) (attrs : list string)
| XAttrName (name : string) (attrs : list string) (attr : string)
| XAfterAttrName (name : string) (attrs : list string)
| XAfterEq (name : string) (attrs : list string)
| XAttrValue (name : string) (attrs : list string) (quote : ascii)
| XAttrEntity (name : string) (attrs : list string) (quote : ascii) (ref : string)
| XAfterValue (name : string) (attrs : list string)
| XSlash (name : string)
| XCloseName (name : string)
| XCloseWs (name : string)
| XEntity (ref : string).

Record xstate : Type := {
  x_mode : xmode;
  x_stack : list string;
  x_roots : nat
}.

Definition is_space (c : ascii) : bool :=
  Ascii.eqb c " " || Ascii.eqb c "009" || Ascii.eqb c LF || Ascii.eqb c CR.

Definition is_name_start (c : ascii) : bool :=
  in_range "a" "z" c || in_range "A" "Z" c || Ascii.eqb c "_" || Ascii.eqb c ":".

Definition is_name_char (c : ascii) : bool :=
  is_name_start c || in_range "0" "9" c || Ascii.eqb c "-" || Ascii.eqb c ".".

Definition snoc (s : string) (c : ascii) : string := s ++ String c "".

(** The number a character reference names, and the characters of XML
    1.0 by number. *)
Definition digit_value (hex : bool) (c : ascii) : option N :=
  if in_range "0" "9" c then Some (N_of_ascii c - 48)%N
  else if hex && in_range "a" "f" c then Some (N_of_ascii c - 87)%N
  else if hex && in_range "A" "F" c then Some (N_of_ascii c - 55)%N
  else None.

Fixpoint number (hex : bool) (s : string) (acc : N) : option N :=
  match s with
  | "" => Some acc
  | String c r =>
      match digit_value hex c with
      | Some d => number hex r (acc * (if hex then 16 else 10) + d)%N
      | None => None
      end
  end.

Definition xml_char_code (n : N) : bool :=
  ((n =? 9) || (n =? 10) || (n =? 13)
   || ((32 <=? n) && (n <=? 55295))
   || ((57344 <=? n) && (n <=? 65533))
   || ((65536 <=? n) && (n <=? 1114111)))%N.

Definition char_ref_ok (hex : bool) (digits : string) : bool :=
  nonempty digits &&
  match number hex digits 0 with
  | Some n => xml_char_code n
  | None => false
  end.

(** What stands between [&] and [;] in a reference. *)
Definition ref_ok (ref : string) : bool :=
  match ref with
  | String a r =>
      if Ascii.eqb a "#" then
        match r with
        | String b r' => if Ascii.eqb b "x" then char_ref_ok true r' else char_ref_ok false r
        | "" => false
        end
      else existsb (String.eqb ref) ["amp"; "lt"; "gt"; "apos"; "quot"]
  | "" => false
  end.

(** The target [xml], in any case, is kept for the XML declaration. *)
Definition is_xml_target (target : string) : bool :=
  match target with
  | String x (String m (String l "")) =>
      (Ascii.eqb x "x" || Ascii.eqb x "X") && (Ascii.eqb m "m" || Ascii.eqb m "M")
      && (Ascii.eqb l "l" || Ascii.eqb l "L")
  | _ => false
  end.

Definition known_declarations : list string :=
  [ "version=" ++ dq ++ "1.0" ++ dq;
    "version=" ++ dq ++ "1.0" ++ dq ++ " encoding=" ++ dq ++ "utf-8" ++ dq;
    "version=" ++ dq ++ "1.0" ++ dq ++ " encoding=" ++ dq ++ "UTF-8" ++ dq ].

Definition pi_ok (first : bool) (target body : string) : bool :=
  if is_xml_target target then
    first && (target =? "xml") && existsb (String.eqb body) known_declarations
  else true.

Definition xmk (m : xmode) (stack : list string) (roots : nat) : option xstate :=
  Some {| x_mode := m; x_stack := stack; x_roots := roots |}.

(** The end of a start tag: the element is opened. A second root element
    is refused. *)
Definition x_open (name : string) (stack : list string) (roots : nat) : option xstate :=
  match stack, roots with
  | [], S _ => None
  | _, _ => xmk XText (name :: stack) roots
  end.

(** The end of an empty-element tag. *)
Definition x_empty (stack : list string) (roots : nat) : option xstate :=
  match stack, roots with
  | [], S _ => None
  | [], 0 => xmk XText [] 1
  | _ :: _, _ => xmk XText stack roots
  end.

(** The end of an end tag: it closes the innermost open element. *)
Definition x_close (name : string) (stack : list string) (roots : nat) : option xstate :=
  match stack with
  | top :: rest =>
      if top =? name then
        xmk XText rest (match rest with [] => S roots | _ :: _ => roots end)
      else None
  | [] => None
  end.

(** The end of an attribute name: it is new in its tag. *)
Definition x_attr (attr : string) (attrs : list string) (m : list string -> xmode)
  (stack : list string) (roots : nat) : option xstate :=
  if existsb (String.eqb attr) attrs then None else xmk (m (attr :: attrs)) stack roots.

(** A character outside markup, after [brackets] closing brackets:
    outside the root element it is white space; inside, it is character
    data. *)
Definition x_text (brackets : nat) (stack : list string) (roots : nat) (c : ascii)
  : option xstate :=
  if Ascii.eqb c "<" then xmk (XLt false) stack roots
  else match stack with
       | [] => if is_space c then xmk XText stack roots else None
       | _ :: _ =>
           if Ascii.eqb c "&" then xmk (XEntity "") stack roots
           else if Ascii.eqb c "]" then
             xmk (match brackets with 0 => XTextB | S _ => XTextBB end) stack roots
           else if Ascii.eqb c ">" then
             match brackets with
             | S (S _) => None
             | _ => xmk XText stack roots
             end
           else xmk XText stack roots
       end.

Definition xml_step (s : xstate) (c : ascii) : option xstate :=
  let stack := x_stack s in
  let roots := x_roots s in
  let go m := xmk m stack roots in
  match x_mode s with
  | XStart =>
      if Ascii.eqb c "<" then go (XLt true) else x_text 0 stack roots c
  | XText => x_text 0 stack roots c
  | XTextB => x_text 1 stack roots c
  | XTextBB => x_text 2 stack roots c
  | XLt first =>
      if Ascii.eqb c "?" then go (XPITarget first "")
      else if Ascii.eqb c "!" then go XBang
      else if Ascii.eqb c "/" then go (XCloseName "")
      else if is_name_start c then go (XOpenName (String c ""))
      else None
  | XPITarget first target =>
      if (if nonempty target then is_name_char c else is_name_start c) then
        go (XPITarget first (snoc target c))
      else if negb (nonempty target) then None
      else if is_space c then go (XPI first target "")
      else if Ascii.eqb c "?" then go (XPIq first target "")
      else None
  | XPI first target body =>
      if Ascii.eqb c "?" then go (XPIq first target body)
      else go (XPI first target (snoc body c))
  | XPIq first target body =>
      if Ascii.eqb c ">" then
        if pi_ok first target body then go XText else None
      else if Ascii.eqb c "?" then go (XPIq first target (snoc body "?"))
      else go (XPI first target (snoc (snoc body "?") c))
  | XBang => if Ascii.eqb c "-" then go XBangDash else None
  | XBangDash => if Ascii.eqb c "-" then go XComment else None
  | XComment => if Ascii.eqb c "-" then go XCommentDash else go XComment
  | XCommentDash => if Ascii.eqb c "-" then go XCommentDashDash else go XComment
  | XCommentDashDash => if Ascii.eqb c ">" then go XText else None
  | XOpenName name =>
      if is_name_char c then go (XOpenName (snoc name c))
      else if is_space c then go (XInTag name [])
      else if Ascii.eqb c ">" then x_open name stack roots
      else if Ascii.eqb c "/" then go (XSlash name)
      else None
  | XInTag name attrs =>
      if is_space c then go (XInTag name attrs)
      else if Ascii.eqb c ">" then x_open name stack roots
      else if Ascii.eqb c "/" then go (XSlash name)
      else if is_name_start c then go (XAttrName name attrs (String c ""))
      else None
  | XAttrName name attrs attr =>
      if is_name_char c then go (XAttrName name attrs (snoc attr c))
      else if Ascii.eqb c "=" then x_attr attr attrs (XAfterEq name) stack roots
      else if is_space c then x_attr attr attrs (XAfterAttrName name) stack roots
      else None
  | XAfterAttrName name attrs =>
      if is_space c then go (XAfterAttrName name attrs)
      else if Ascii.eqb c "=" then go (XAfterEq name attrs)
      else None
  | XAfterEq name attrs =>
      if is_space c then go (XAfterEq name attrs)
      else if Ascii.eqb c DQ || Ascii.eqb c "'" then go (XAttrValue name attrs c)
      else None
  | XAttrValue name attrs quote =>
      if Ascii.eqb c quote then go (XAfterValue name attrs)
      else if Ascii.eqb c "<" then None
      else if Ascii.eqb c "&" then go (XAttrEntity name attrs quote "")
      else go (XAttrValue name attrs quote)
  | XAttrEntity name attrs quote ref =>
      if Ascii.eqb c ";" then
        if ref_ok ref then go (XAttrValue name attrs quote) else None
      else if is_name_char c || Ascii.eqb c "#" then
        go (XAttrEntity name attrs quote (snoc ref c))
      else None
  | XAfterValue name attrs =>
      if is_space c then go (XInTag name attrs)
      else if Ascii.eqb c ">" then x_open name stack roots
      else if Ascii.eqb c "/" then go (XSlash name)
      else None
  | XSlash name => if Ascii.eqb c ">" then x_empty stack roots else None
  | XCloseName name =>
      if is_name_char c then go (XCloseName (snoc name c))
      else if is_space c then
        if nonempty name then go (XCloseWs name) else None
      else if Ascii.eqb c ">" then x_close name stack roots
      else None
  | XCloseWs name =>
      if is_space c then go (XCloseWs name)
      else if Ascii.eqb c ">" then x_close name stack roots
      else None
  | XEntity ref =>
      if Ascii.eqb c ";" then
        if ref_ok ref then go XText else None
      else if is_name_char c || Ascii.eqb c "#" then go (XEntity (snoc ref c))
      else None
  end.

Fixpoint xml_run (doc : string) (s : xstate) : option xstate :=
  match doc with
  | "" => Some s
  | String c r =>
      match xml_step s c with
      | Some s' => xml_run r s'
      | None => None
      end
  end.

Definition xml_start : xstate := {| x_mode := XStart; x_stack := []; x_roots := 0 |}.

Definition xml_markup (doc : string) : bool :=
  match xml_run doc xml_start with
  | Some {| x_mode := XText; x_stack := []; x_roots := 1 |} => true
  | _ => false
  end.

Definition well_formed (doc : string) : bool := xml_chars doc && xml_markup doc.

(** A path can stand in a quoted attribute value as it is: it is made of
    characters of XML, none of them [<], [&] or the double quote. A group
    name can stand in a comment as it is: no double hyphen. *)
Definition attr_plain_char (c : ascii) : bool :=
  negb (Ascii.eqb c "<") && negb (Ascii.eqb c "&") && negb (Ascii.eqb c DQ).

Fixpoint attr_plain (f : string) : bool :=
  match f with
  | "" => true
  | String c r => attr_plain_char c && attr_plain r
  end.

Definition attr_safe (f : string) : bool := attr_plain f && xml_chars f.

Fixpoint comment_safe (name : string) : bool :=
  match name with
  | "" => true
  | String c r =>
      match r with
      | String d _ => negb (Ascii.eqb c "-" && Ascii.eqb d "-")
      | "" => true
      end
      && comment_safe r
  end.

(** ** The groups of [main] *)

Definition output_name : string := "hlffi_monolithic.vcxproj".

Definition hlffi_wrapper : SourceGroup :=
  ("HLFFI wrapper code", [
      "src\hlffi_core.c";
      "src\hlffi_events.c";
      "src\hlffi_integration.c";
      "src\hlffi_lifecycle.c";
      "src\hlffi_reload.c";
      "src\hlffi_threading.c"]).

Definition hashlink_core : SourceGroup :=
  ("HashLink VM core", [
      "vendor\hashlink\src\allocator.c";
      "vendor\hashlink\src\code.c";
      "vendor\hashlink\src\module.c";
      "vendor\hashlink\src\jit.c";
      "vendor\hashlink\src\debugger.c";
      "vendor\hashlink\src\profile.c";
      "vendor\hashlink\src\gc.c"]).

Definition plugin_wrappers : SourceGroup :=
  ("Plugin wrappers", [
      "vendor\hashlink\libs\uv\uv.c";
      "vendor\hashlink\libs\ssl\ssl.c"]).

(** The hand-declared groups. *)
Definition explicit_groups : list SourceGroup :=
  [hlffi_wrapper; hashlink_core; plugin_wrappers].

(** The discovered groups: the name and the directories searched, each
    with the pattern [*.c]. *)
Definition std_dir : string := "vendor/hashlink/src/std".
Definition pcre_dir : string := "vendor/hashlink/include/pcre".
Definition uv_dir : string := "vendor/hashlink/include/libuv/src".
Definition uv_win_dir : string := "vendor/hashlink/include/libuv/src/win".
Definition mbedtls_dir : string := "vendor/hashlink/include/mbedtls/library".

Definition std_name : string := "HashLink standard library".
Definition pcre_name : string := "PCRE2 regex library".
Definition uv_name : string := "libuv sources (embedded)".
Definition mbedtls_name : string := "mbedtls sources (embedded - TLS/SSL support)".

Definition discovered_groups : list (string * list string) :=
  [ (std_name, [std_dir]);
    (pcre_name, [pcre_dir]);
    (uv_name, [uv_dir; uv_win_dir]);
    (mbedtls_name, [mbedtls_dir]) ].

Definition searched_dirs : list string :=
  [std_dir; pcre_dir; uv_dir; uv_win_dir; mbedtls_dir].

(** The names of [dirname] that [glob] keeps for [*.c], and the sorted
    paths [find_sources] makes of them. *)
Definition matching (fnmatchcase : string -> string -> bool) (w : world)
  (dirname : string) : list string :=
  _glob1 fnmatchcase w dirname "*.c" false.

Definition discovered (fnmatchcase : string -> string -> bool) (w : world)
  (dirname : string) : list string :=
  sorted (map (fun name => to_rel w (os_path_join dirname name))
            (matching fnmatchcase w dirname)).

Definition discover_group (fnmatchcase : string -> string -> bool) (w : world)
  (group : string * list string) : SourceGroup :=
  (fst group, flat_map (discovered fnmatchcase w) (snd group)).

Definition groups_of (fnmatchcase : string -> string -> bool) (w : world)
  : list SourceGroup :=
  [ hlffi_wrapper;
    hashlink_core;
    discover_group fnmatchcase w (std_name, [std_dir]);
    discover_group fnmatchcase w (pcre_name, [pcre_dir]);
    plugin_wrappers;
    discover_group fnmatchcase w (uv_name, [uv_dir; uv_win_dir]);
    discover_group fnmatchcase w (mbedtls_name, [mbedtls_dir]) ].

(** The summary, as the specification describes it. *)
Definition count_line (group : SourceGroup) : string :=
  "  " ++ fst group ++ ": " ++ str_of_nat (List.length (snd group)) ++ " files" ++ nl.

Definition summary_spec (sources : list SourceGroup) : string :=
  ("Generated hlffi_monolithic.vcxproj" ++ nl)
  ++ ("Total source files: " ++ str_of_nat (total_files sources) ++ nl)
  ++ concat_map count_line sources
  ++ (nl ++ "To use:" ++ nl)
  ++ ("  mv hlffi_monolithic.vcxproj hlffi.vcxproj" ++ nl).

(** ** Line endings *)

(** Every line feed of [s] comes right after a carriage return; [prev] is
    the character before [s]. *)
Fixpoint lf_after_cr (prev : ascii) (s : string) : bool :=
  match s with
  | "" => true
  | String c r =>
      (if Ascii.eqb c LF then Ascii.eqb prev CR else true) && lf_after_cr c r
  end.

(** Every line of [s] ends in CR LF: each line feed follows a carriage
    return and the last line is ended too. *)
Definition crlf_lines (s : string) : bool :=
  lf_after_cr " " s && (negb (nonempty s) || endswith LF s).

Definition CRLF : string := String CR nl.

(** Reading a CR LF text back: a carriage return before a line feed goes. *)
Fixpoint untranslate_crlf (s : string) : string :=
  match s with
  | "" => ""
  | String c r =>
      match r with
      | String d _ =>
          if Ascii.eqb c CR && Ascii.eqb d LF then untranslate_crlf r
          else String c (untranslate_crlf r)
      | "" => String c ""
      end
  end.

(** ** Runs of the scenarios *)

Definition no_run : run :=
  {| run_sources := []; run_vcxproj := ""; run_world := world_bare; run_stdout := "" |}.

(** The run of [main] in [w], with the matcher for [*] and [?]. *)
Definition run_in (w : world) : run :=
  match main fnmatch_wild w with
  | Ok r => r
  | Raise _ => no_run
  end.

(** ** Components of a normal path *)

(** A component [os.path.normpath] keeps below a root: a name. *)
Definition proper (comp : string) : bool :=
  nonempty comp && negb (contains SEP comp)
  && negb (comp =? ".") && negb (comp =? "..").

(** A component of [rel_list]: a name or the parent directory. *)
Definition rel_comp (comp : string) : bool :=
  nonempty comp && negb (contains SEP comp).

(** [sep + b] for every [b], one after the other. *)
Definition sep_each (p : list string) : string :=
  concat_map (fun b => String SEP b) p.

(** ** File systems with names *)

(** Every entry of every directory has a name that is not empty. *)
Fixpoint names_nonempty (n : node) : bool :=
  match n with
  | File _ => true
  | Dir es => forallb (fun e => nonempty (fst e) && names_nonempty (snd e)) es
  end.

(** The results of [glob]: none is empty, but the first may be. *)
Definition rest_nonempty (l : list string) : Prop :=
  Forall (fun x => nonempty x = true) (tl l).

Definition first_empty (l : list string) : Prop :=
  match l with
  | s :: _ => nonempty s = false
  | [] => False
  end.

(** ** Auxiliary definitions *)

Definition xbind (m : option xstate) (doc : string) : option xstate :=
  match m with
  | Some s => xml_run doc s
  | None => None
  end.

(** Inside an element, text mode with the stack [top :: stack]. *)
Definition in_element (top : string) (stack : list string) (roots : nat) : xstate :=
  {| x_mode := XText; x_stack := top :: stack; x_roots := roots |}.

(** The groups whose names and paths can be written as they are. *)
Definition xml_safe (sources : list SourceGroup) : Prop :=
  Forall (fun group : SourceGroup =>
            (comment_safe (fst group) = true /\ xml_chars (fst group) = true) /\
            Forall (fun f => attr_safe f = true) (snd group)) sources.

(** The groups whose names and paths have no [<]. *)
Definition line_safe (sources : list SourceGroup) : Prop :=
  Forall (fun group : SourceGroup =>
            contains "<" (fst group) = false /\
            Forall (fun f => contains "<" f = false) (snd group)) sources.

(** The node reached from [n] by [names], and its entries. *)
Fixpoint node_at (names : list string) (n : node) : option node :=
  match names with
  | [] => Some n
  | c :: names' =>
      match n with
      | Dir es =>
          match lookup_entry c es with
          | Some child => node_at names' child
          | None => None
          end
      | File _ => None
      end
  end.

Definition entries_at (names : list string) (n : node) : option (list (string * node)) :=
  match node_at names n with
  | Some (Dir es) => Some es
  | _ => None
  end.

Ltac forall_by_computation :=
  repeat first
    [ apply Forall_nil
    | apply Forall_cons
    | split
    | reflexivity ].


(** ** More scenarios and path shapes *)

(** A directory stands where the output file should be. *)
Definition world_outdir : world :=
  project [] [("hlffi_monolithic.vcxproj", Dir [])].

(** In the std subtree: a directory with a name that ends in [.c], a
    hidden file, and a source file two levels down. *)
Definition world_deep : world :=
  project
    [("src", Dir [("std", Dir [
        ("dir.c", Dir [("inner", Dir [("x.c", File "")])]);
        (".hidden.c", File "");
        ("a.c", File "")])])]
    [("README", File "read me")].

(** The path written for the entry [name] of the directory [dirname]. *)
Definition win_path (dirname name : string) : string :=
  replace "/" "\" dirname ++ "\" ++ name.

(** A name that descends without being hidden. *)
Definition visible (comp : string) : bool := proper comp && negb (_ishidden comp).


(** ** What a write leaves alone *)

(** The content of the file reached from [n] by [names], and whether a
    directory is reached. *)
Definition file_at (names : list string) (n : node) : option string :=
  match node_at names n with
  | Some (File c) => Some c
  | _ => None
  end.

Definition dir_at (names : list string) (n : node) : bool :=
  match node_at names n with
  | Some (Dir _) => true
  | _ => false
  end.

(** What [open(name, 'w')] and one [write(text)] make of the entries of
    the working directory. *)
Definition store (name text : string) (es : list (string * node))
  : result (list (string * node)) :=
  match lookup_entry name es with
  | Some (Dir _) => Raise OSError
  | _ => Ok (set_entry name (File text) es)
  end.


(** ** File systems that differ in contents only *)

(** The names and kinds of [n], with every file emptied. *)
Fixpoint shape (n : node) : node :=
  match n with
  | File _ => File ""
  | Dir es => Dir (map (fun e => (fst e, shape (snd e))) es)
  end.

Definition shape_world (w : world) : world :=
  {| fs_root := shape (fs_root w); fs_cwd := fs_cwd w;
     fs_encodable := fun _ => true |}.

(** Induction on a tree: a directory has the property when its entries
    have it. *)
Fixpoint node_tree_ind (P : node -> Prop)
  (Hfile : forall c, P (File c))
  (Hdir : forall es, Forall (fun e => P (snd e)) es -> P (Dir es))
  (n : node) : P n :=
  match n with
  | File c => Hfile c
  | Dir es =>
      Hdir es
        ((fix entries (es : list (string * node)) : Forall (fun e => P (snd e)) es :=
            match es with
            | [] => Forall_nil _
            | e :: es' =>
                Forall_cons e (node_tree_ind P Hfile Hdir (snd e)) (entries es')
            end) es)
  end.

(** The files of [world_std] after an edit, and an output file of
    another content. *)
Definition world_std_edited : world :=
  project
    [("src", Dir [("std", Dir [("b.c", File "int b = 1;"); ("a.c", File "")])])]
    [("hlffi_monolithic.vcxproj", File "")].


(** ** Folders of the written paths *)

(** The part of a written path before its last backslash. *)
Fixpoint folder (p : string) : string :=
  match p with
  | "" => ""
  | String c r => if contains "\" r then String c (folder r) else ""
  end.

(** No string of [l] is there twice. *)
Fixpoint distinct (l : list string) : bool :=
  match l with
  | [] => true
  | x :: l' => negb (existsb (String.eqb x) l') && distinct l'
  end.

(** The files of the groups of [main], folder by folder, in the order of
    the document. *)
Definition by_folder (fnmatchcase : string -> string -> bool) (w : world)
  : list (string * list string) :=
  [ ("src", snd hlffi_wrapper);
    ("vendor\hashlink\src", snd hashlink_core);
    (replace "/" "\" std_dir, discovered fnmatchcase w std_dir);
    (replace "/" "\" pcre_dir, discovered fnmatchcase w pcre_dir);
    ("vendor\hashlink\libs\uv", ["vendor\hashlink\libs\uv\uv.c"]);
    ("vendor\hashlink\libs\ssl", ["vendor\hashlink\libs\ssl\ssl.c"]);
    (replace "/" "\" uv_dir, discovered fnmatchcase w uv_dir);
    (replace "/" "\" uv_win_dir, discovered fnmatchcase w uv_win_dir);
    (replace "/" "\" mbedtls_dir, discovered fnmatchcase w mbedtls_dir) ].

(** A file of [libuv/src] with a backslash in its name, next to the
    folder [win]. *)
Definition world_backslash : world :=
  project
    [("include", Dir [("libuv", Dir [("src", Dir [
        ("win\a.c", File ""); ("win", Dir [("a.c", File "")])])])])]
    [].

(** * Properties *)

(** ** Strings *)

Lemma append_nil_r (s : string) : s ++ "" = s.
Proof. induction s as [|c s IH]; simpl; congruence. Qed.

Lemma append_assoc (a b c : string) : (a ++ b) ++ c = a ++ (b ++ c).
Proof. induction a as [|x a IH]; simpl; congruence. Qed.

Lemma nonempty_append_l (a b : string) : nonempty a = true -> nonempty (a ++ b) = true.
Proof. destruct a; simpl; congruence. Qed.

Lemma contains_append (c : ascii) (a b : string) :
  contains c (a ++ b) = contains c a || contains c b.
Proof.
  induction a as [|x a IH]; simpl; [reflexivity|].
  rewrite IH. apply orb_assoc.
Qed.

Lemma replace_no_old (a b : ascii) (s : string) :
  a <> b -> contains a (replace a b s) = false.
Proof.
  intros Hab. induction s as [|c s IH]; simpl; [reflexivity|].
  rewrite IH, orb_false_r.
  destruct (Ascii.eqb_spec c a) as [->|Hc].
  - apply Ascii.eqb_neq. congruence.
  - apply Ascii.eqb_neq. assumption.
Qed.

Lemma fold_left_append {A : Type} (g : A -> string) (l : list A) (acc : string) :
  fold_left (fun acc x => acc ++ g x) l acc = acc ++ concat_map g l.
Proof.
  revert acc. induction l as [|x l IH]; intros acc; simpl.
  - symmetry. apply append_nil_r.
  - rewrite IH. apply append_assoc.
Qed.

Lemma concat_map_cons {A : Type} (g : A -> string) (x : A) (l : list A) :
  concat_map g (x :: l) = g x ++ concat_map g l.
Proof. reflexivity. Qed.

Lemma concat_map_app {A : Type} (g : A -> string) (l1 l2 : list A) :
  concat_map g (l1 ++ l2)%list = concat_map g l1 ++ concat_map g l2.
Proof.
  induction l1 as [|x l1 IH]; simpl; [reflexivity|].
  rewrite IH. symmetry. apply append_assoc.
Qed.

(** ** The order of [sorted] *)

Lemma string_compare_trans (s1 s2 s3 : string) :
  String.compare s1 s2 <> Gt -> String.compare s2 s3 <> Gt ->
  String.compare s1 s3 <> Gt.
Proof.
  revert s2 s3. induction s1 as [|a1 s1 IH]; intros [|a2 s2] [|a3 s3]; simpl;
    try congruence.
  unfold Ascii.compare.
  destruct (N.compare_spec (N_of_ascii a1) (N_of_ascii a2)) as [E12|L12|G12];
    destruct (N.compare_spec (N_of_ascii a2) (N_of_ascii a3)) as [E23|L23|G23];
    intros H12 H23; try congruence.
  - rewrite E12, E23, N.compare_refl. eapply IH; eassumption.
  - rewrite E12. apply N.compare_lt_iff in L23. rewrite L23. discriminate.
  - rewrite <- E23. apply N.compare_lt_iff in L12. rewrite L12. discriminate.
  - assert (L13 : (N_of_ascii a1 < N_of_ascii a3)%N) by (eapply N.lt_trans; eassumption).
    apply N.compare_lt_iff in L13. rewrite L13. discriminate.
Qed.

Lemma string_leb_trans (s1 s2 s3 : string) :
  String.leb s1 s2 = true -> String.leb s2 s3 = true -> String.leb s1 s3 = true.
Proof.
  unfold String.leb. intros H12 H23.
  pose proof (string_compare_trans s1 s2 s3) as T.
  destruct (String.compare s1 s2); destruct (String.compare s2 s3);
    destruct (String.compare s1 s3); try reflexivity; try discriminate;
    exfalso; apply T; congruence.
Qed.

Lemma sorted_is_sorted (l : list string) : is_sorted (sorted l).
Proof. apply StringSort.Sorted_sort. Qed.

Lemma sorted_perm (l : list string) : Permutation l (sorted l).
Proof. apply StringSort.Permuted_sort. Qed.

Lemma sorted_strongly (l : list string) :
  StronglySorted (fun a b => String.leb a b = true) (sorted l).
Proof.
  apply Sorted_StronglySorted.
  - intros a b c. apply string_leb_trans.
  - apply sorted_is_sorted.
Qed.

Lemma strongly_sorted_perm_eq (l1 l2 : list string) :
  StronglySorted (fun a b => String.leb a b = true) l1 ->
  StronglySorted (fun a b => String.leb a b = true) l2 ->
  Permutation l1 l2 -> l1 = l2.
Proof.
  intros S1. revert l2. induction S1 as [|a l1 S1 IH Ha]; intros l2 S2 P.
  - apply Permutation_nil in P. congruence.
  - destruct S2 as [|b l2 S2 Hb].
    + apply Permutation_sym, Permutation_nil in P. discriminate.
    + assert (a = b) as ->.
      { assert (Ia : In a (b :: l2)) by (eapply Permutation_in; [exact P|left; reflexivity]).
        assert (Ib : In b (a :: l1))
          by (eapply Permutation_in; [apply Permutation_sym; exact P|left; reflexivity]).
        destruct Ia as [->|Ia]; [reflexivity|].
        destruct Ib as [->|Ib]; [reflexivity|].
        rewrite Forall_forall in Ha, Hb.
        apply String.leb_antisym; [apply Ha|apply Hb]; assumption. }
      f_equal. apply IH; [assumption|].
      eapply Permutation_cons_inv. exact P.
Qed.

(** [sorted] of two lists with the same elements is the same list. *)
Lemma sorted_permutation (l1 l2 : list string) :
  Permutation l1 l2 -> sorted l1 = sorted l2.
Proof.
  intros P. apply strongly_sorted_perm_eq; try apply sorted_strongly.
  eapply Permutation_trans; [apply Permutation_sym, sorted_perm|].
  eapply Permutation_trans; [exact P|apply sorted_perm].
Qed.

Lemma sorted_nil : sorted [] = [].
Proof. reflexivity. Qed.

Lemma sorted_In (l : list string) (x : string) : In x (sorted l) <-> In x l.
Proof.
  split; intros H.
  - eapply Permutation_in; [apply Permutation_sym, sorted_perm|exact H].
  - eapply Permutation_in; [apply sorted_perm|exact H].
Qed.

Lemma sorted_length (l : list string) : List.length (sorted l) = List.length l.
Proof. symmetry. apply Permutation_length, sorted_perm. Qed.

(** ** The rendering loop *)

Lemma fold_left_ext {A B : Type} (f g : A -> B -> A) (l : list B) (a : A) :
  (forall a b, f a b = g a b) -> fold_left f l a = fold_left g l a.
Proof.
  intros E. revert a. induction l as [|b l IH]; intros a; simpl; [reflexivity|].
  rewrite E. apply IH.
Qed.

(** The two nested loops of [main] build header, blocks and footer. *)
Lemma render_refines (sources : list SourceGroup) :
  render sources = render_spec sources.
Proof.
  unfold render, render_spec.
  rewrite fold_left_ext with (g := fun acc group => acc ++ group_block group).
  - rewrite fold_left_append. apply append_assoc.
  - intros acc [section_name files]. unfold group_block, comment_line.
    simpl fst. simpl snd.
    rewrite (fold_left_append include_entry), !append_assoc. reflexivity.
Qed.

Lemma render_spec_app (l1 l2 : list SourceGroup) :
  render_spec (l1 ++ l2)%list =
  VCXPROJ_HEADER ++ concat_map group_block l1 ++ concat_map group_block l2
  ++ VCXPROJ_FOOTER.
Proof.
  unfold render_spec. rewrite concat_map_app, append_assoc. reflexivity.
Qed.

(** ** The scanner on a concatenation *)

Lemma utf8_run_app (xml : bool) (a b : string) (st : ustate) :
  utf8_run xml (a ++ b) st =
  match utf8_run xml a st with
  | Some st' => utf8_run xml b st'
  | None => None
  end.
Proof.
  revert st. induction a as [|c a IH]; intros st; simpl; [reflexivity|].
  destruct (utf8_step xml st c); [apply IH|reflexivity].
Qed.

Lemma boundary_app (xml : bool) (a b : string) :
  at_boundary (utf8_run xml a UStart) = true ->
  at_boundary (utf8_run xml (a ++ b) UStart) = at_boundary (utf8_run xml b UStart).
Proof.
  intros H. rewrite utf8_run_app.
  destruct (utf8_run xml a UStart) as [[| |]|]; try discriminate. reflexivity.
Qed.

Lemma xml_chars_app (a b : string) :
  xml_chars a = true -> xml_chars b = true -> xml_chars (a ++ b) = true.
Proof. unfold xml_chars. intros Ha Hb. rewrite boundary_app; assumption. Qed.

Lemma xml_chars_concat_map {A : Type} (g : A -> string) (l : list A) :
  Forall (fun x => xml_chars (g x) = true) l -> xml_chars (concat_map g l) = true.
Proof.
  induction 1 as [|x l Hx _ IH]; [reflexivity|].
  rewrite concat_map_cons. apply xml_chars_app; assumption.
Qed.

Lemma utf8_valid_app (a b : string) :
  utf8_valid a = true -> utf8_valid (a ++ b) = utf8_valid b.
Proof. unfold utf8_valid. apply boundary_app. Qed.

Lemma attr_safe_spec (f : string) :
  attr_safe f = true -> attr_plain f = true /\ xml_chars f = true.
Proof. unfold attr_safe. apply andb_prop. Qed.

Lemma xml_chars_include_entry (f : string) :
  xml_chars f = true -> xml_chars (include_entry f) = true.
Proof.
  intros H. unfold include_entry.
  change ("    <ClCompile Include=" ++ dq ++ f ++ dq ++ " />" ++ nl)
    with (("    <ClCompile Include=" ++ dq) ++ (f ++ (dq ++ " />" ++ nl))).
  apply xml_chars_app; [reflexivity|]. apply xml_chars_app; [exact H|reflexivity].
Qed.

Lemma xml_chars_comment_line (name : string) :
  xml_chars name = true -> xml_chars (comment_line name) = true.
Proof.
  intros H. unfold comment_line.
  apply xml_chars_app; [reflexivity|]. apply xml_chars_app; [exact H|reflexivity].
Qed.

Lemma xml_run_app (a b : string) (s : xstate) :
  xml_run (a ++ b) s = xbind (xml_run a s) b.
Proof.
  revert s. induction a as [|c a IH]; intros s; simpl; [reflexivity|].
  destruct (xml_step s c); [apply IH|reflexivity].
Qed.

Lemma xml_attr_value (f : string) (name : string) (attrs : list string)
  (stack : list string) (roots : nat) :
  attr_plain f = true ->
  xml_run f {| x_mode := XAttrValue name attrs DQ; x_stack := stack; x_roots := roots |}
  = Some {| x_mode := XAttrValue name attrs DQ; x_stack := stack; x_roots := roots |}.
Proof.
  induction f as [|c f IH]; simpl; [reflexivity|].
  intros H. apply andb_prop in H as [Hc Hf].
  unfold attr_plain_char in Hc.
  apply andb_prop in Hc as [Hc Hq]. apply andb_prop in Hc as [Hlt Hamp].
  unfold xml_step; simpl.
  apply negb_true_iff in Hlt, Hamp, Hq. rewrite Hq, Hlt, Hamp.
  apply IH, Hf.
Qed.

(** An include-entry of a safe path is an empty element: the scanner is
    back where it was. *)
Lemma xml_include_entry (f top : string) (stack : list string) (roots : nat) :
  attr_plain f = true ->
  xml_run (include_entry f) (in_element top stack roots)
  = Some (in_element top stack roots).
Proof.
  intros H. unfold include_entry.
  change ("    <ClCompile Include=" ++ dq ++ f ++ dq ++ " />" ++ nl)
    with (("    <ClCompile Include=" ++ dq) ++ (f ++ (dq ++ " />" ++ nl))).
  rewrite xml_run_app.
  replace (xml_run ("    <ClCompile Include=" ++ dq) (in_element top stack roots))
    with (Some {| x_mode := XAttrValue "ClCompile" ["Include"] DQ;
                  x_stack := top :: stack; x_roots := roots |}) by reflexivity.
  unfold xbind. rewrite xml_run_app, (xml_attr_value f) by assumption.
  reflexivity.
Qed.

Lemma xml_include_entries (files : list string) (top : string) (stack : list string)
  (roots : nat) :
  Forall (fun f => attr_safe f = true) files ->
  xml_run (concat_map include_entry files) (in_element top stack roots)
  = Some (in_element top stack roots).
Proof.
  induction 1 as [|f files Hf _ IH]; [reflexivity|].
  apply attr_safe_spec in Hf as [Hf _].
  rewrite concat_map_cons, xml_run_app, xml_include_entry by assumption. exact IH.
Qed.

(** Inside a comment, a name without a double hyphen leaves the scanner
    inside the comment. *)
Lemma xml_comment_body (name : string) (stack : list string) (roots : nat) (m : xmode) :
  comment_safe name = true ->
  m = XComment \/ (m = XCommentDash /\ startswith "-" name = false) ->
  exists m', (m' = XComment \/ m' = XCommentDash) /\
    xml_run name {| x_mode := m; x_stack := stack; x_roots := roots |}
    = Some {| x_mode := m'; x_stack := stack; x_roots := roots |}.
Proof.
  revert m. induction name as [|c name IH]; intros m Hs Hm.
  - exists m. split; [tauto|reflexivity].
  - simpl in Hs. apply andb_prop in Hs as [Hdd Hrest].
    destruct (Ascii.eqb_spec c "-") as [->|Hc].
    + destruct Hm as [->|[_ Hm]]; [|discriminate].
      destruct (IH XCommentDash Hrest) as (m' & Hm' & Hrun).
      { right. split; [reflexivity|]. destruct name as [|d name]; [reflexivity|].
        simpl in *. destruct (Ascii.eqb d "-"); [discriminate|reflexivity]. }
      exists m'. split; [assumption|]. simpl. exact Hrun.
    + destruct (IH XComment Hrest) as (m' & Hm' & Hrun); [left; reflexivity|].
      exists m'. split; [assumption|].
      apply Ascii.eqb_neq in Hc.
      destruct Hm as [->|[-> _]]; simpl; unfold xml_step; simpl; rewrite Hc; exact Hrun.
Qed.

(** The comment line of a group leaves the scanner where it was. *)
Lemma xml_comment_line (name top : string) (stack : list string) (roots : nat) :
  comment_safe name = true ->
  xml_run (comment_line name) (in_element top stack roots)
  = Some (in_element top stack roots).
Proof.
  intros H. unfold comment_line.
  change ("    <!-- " ++ name ++ " -->" ++ nl)
    with ("    <!-- " ++ (name ++ (" -->" ++ nl))).
  rewrite xml_run_app.
  replace (xml_run "    <!-- " (in_element top stack roots))
    with (Some {| x_mode := XComment; x_stack := top :: stack; x_roots := roots |})
    by reflexivity.
  unfold xbind. rewrite xml_run_app.
  destruct (xml_comment_body name (top :: stack) roots XComment H) as (m' & Hm' & ->);
    [left; reflexivity|].
  destruct Hm' as [->| ->]; reflexivity.
Qed.

Lemma xml_group_block (group : SourceGroup) (top : string) (stack : list string)
  (roots : nat) :
  comment_safe (fst group) = true ->
  Forall (fun f => attr_safe f = true) (snd group) ->
  xml_run (group_block group) (in_element top stack roots)
  = Some (in_element top stack roots).
Proof.
  intros Hn Hf. unfold group_block.
  rewrite xml_run_app, xml_comment_line by assumption. unfold xbind.
  rewrite xml_run_app, xml_include_entries by assumption. reflexivity.
Qed.

Lemma xml_group_blocks (sources : list SourceGroup) (top : string)
  (stack : list string) (roots : nat) :
  xml_safe sources ->
  xml_run (concat_map group_block sources) (in_element top stack roots)
  = Some (in_element top stack roots).
Proof.
  induction 1 as [|group sources [[Hn _] Hf] _ IH]; [reflexivity|].
  rewrite concat_map_cons, xml_run_app, xml_group_block by assumption. exact IH.
Qed.

Lemma xml_chars_group_blocks (sources : list SourceGroup) :
  xml_safe sources -> xml_chars (concat_map group_block sources) = true.
Proof.
  intros H. apply xml_chars_concat_map. eapply Forall_impl; [|exact H].
  intros group [[_ Hn] Hf]. unfold group_block.
  apply xml_chars_app; [apply xml_chars_comment_line, Hn|].
  apply xml_chars_app; [|reflexivity].
  apply xml_chars_concat_map. eapply Forall_impl; [|exact Hf].
  intros f Ha. apply xml_chars_include_entry. apply attr_safe_spec in Ha. tauto.
Qed.

(** With safe names and paths, the rendered document is well formed. *)
Lemma render_well_formed (sources : list SourceGroup) :
  xml_safe sources -> well_formed (render sources) = true.
Proof.
  intros H. rewrite render_refines. unfold render_spec, well_formed.
  apply andb_true_intro. split.
  - apply xml_chars_app; [vm_compute; reflexivity|].
    apply xml_chars_app; [apply xml_chars_group_blocks, H|vm_compute; reflexivity].
  - unfold xml_markup. rewrite xml_run_app.
    replace (xml_run VCXPROJ_HEADER xml_start)
      with (Some (in_element "ItemGroup" ["Project"] 0)) by (vm_compute; reflexivity).
    unfold xbind. rewrite xml_run_app, xml_group_blocks by assumption.
    vm_compute. reflexivity.
Qed.

(** ** Lines and include-entries *)

Lemma split_not_nil (c : ascii) (s : string) : split c s <> [].
Proof.
  induction s as [|x s IH]; simpl; [discriminate|].
  destruct (Ascii.eqb x c); [discriminate|].
  destruct (split c s); [contradiction|discriminate].
Qed.

Lemma split_app_sep (c : ascii) (a b : string) :
  split c (a ++ String c b) = (split c a ++ split c b)%list.
Proof.
  induction a as [|x a IH]; simpl.
  - rewrite Ascii.eqb_refl. reflexivity.
  - destruct (Ascii.eqb x c); [rewrite IH; reflexivity|].
    rewrite IH. pose proof (split_not_nil c a) as N.
    destruct (split c a); [contradiction|reflexivity].
Qed.

(** A prefix without the separator stays on the first piece. *)
Lemma split_app_prefix (c : ascii) (p x : string) :
  contains c p = false ->
  split c (p ++ x) = (p ++ hd "" (split c x)) :: tl (split c x).
Proof.
  pose proof (split_not_nil c x) as N.
  induction p as [|a p IH]; simpl; intros H.
  - destruct (split c x); [contradiction|reflexivity].
  - apply orb_false_elim in H as [Ha Hp]. rewrite Ha, (IH Hp). reflexivity.
Qed.

Lemma split_pieces_without (c d : ascii) (s : string) :
  contains d s = false -> Forall (fun piece => contains d piece = false) (split c s).
Proof.
  induction s as [|x s IH]; simpl; intros H.
  - constructor; [reflexivity|constructor].
  - apply orb_false_elim in H as [Hx Hs]. specialize (IH Hs).
    destruct (Ascii.eqb x c).
    + constructor; [reflexivity|assumption].
    + destruct (split c s) as [|h t]; inversion IH; subst.
      * constructor; [simpl; rewrite Hx; reflexivity|constructor].
      * constructor; [simpl; rewrite Hx; assumption|assumption].
Qed.

Lemma prefix_append (p x : string) : prefix p (p ++ x) = true.
Proof.
  induction p as [|a p IH]; simpl; [destruct x; reflexivity|].
  destruct (ascii_dec a a); [assumption|contradiction].
Qed.

Lemma prefix_contains (c : ascii) (p l : string) :
  prefix p l = true -> contains c p = true -> contains c l = true.
Proof.
  revert l. induction p as [|a p IH]; intros l Hp Hc; [discriminate|].
  destruct l as [|b l]; [discriminate|]. simpl in *.
  destruct (ascii_dec a b) as [->|]; [|discriminate].
  destruct (Ascii.eqb b c); [reflexivity|]. simpl in *. eapply IH; eassumption.
Qed.

(** A line without [<] is no include-entry. *)
Lemma not_entry_line (l : string) : contains "<" l = false -> is_entry_line l = false.
Proof.
  intros H. destruct (is_entry_line l) eqn:E; [|reflexivity].
  apply prefix_contains with (c := "<"%char) in E; [congruence|reflexivity].
Qed.

Lemma no_entry_lines (ls : list string) :
  Forall (fun l => contains "<" l = false) ls -> filter is_entry_line ls = [].
Proof.
  induction 1 as [|l ls Hl _ IH]; simpl; [reflexivity|].
  rewrite (not_entry_line l Hl). exact IH.
Qed.

(** Counting line by line: a text that ends its last line, then the rest. *)
Lemma count_entry_lines_app (body rest : string) :
  count_entry_lines ((body ++ nl) ++ rest)
  = count_entry_lines body + count_entry_lines rest.
Proof.
  unfold count_entry_lines, lines, nl.
  rewrite append_assoc. simpl append.
  rewrite split_app_sep, filter_app, length_app. reflexivity.
Qed.

Lemma count_entry_lines_unlines (ls : list string) (rest : string) :
  count_entry_lines (unlines ls ++ rest)
  = list_sum (map count_entry_lines ls) + count_entry_lines rest.
Proof.
  induction ls as [|l ls IH]; [reflexivity|].
  replace (unlines (l :: ls) ++ rest) with ((l ++ nl) ++ (unlines ls ++ rest))
    by (unfold unlines; cbn [fold_right]; rewrite !append_assoc; reflexivity).
  rewrite count_entry_lines_app, IH. cbn [map]. simpl list_sum. lia.
Qed.

Lemma count_include_entry (f rest : string) :
  contains "<" f = false ->
  count_entry_lines (include_entry f ++ rest) = 1 + count_entry_lines rest.
Proof.
  intros H.
  replace (include_entry f) with ((entry_prefix ++ (f ++ dq ++ " />")) ++ nl)
    by (unfold include_entry, entry_prefix; simpl; rewrite !append_assoc; reflexivity).
  rewrite count_entry_lines_app. f_equal.
  unfold count_entry_lines, lines.
  rewrite split_app_prefix by reflexivity.
  assert (P : Forall (fun piece => contains "<" piece = false) (split LF (f ++ dq ++ " />"))).
  { apply split_pieces_without. rewrite contains_append, H. reflexivity. }
  destruct (split LF (f ++ dq ++ " />")) as [|h t] eqn:E.
  - exfalso. eapply split_not_nil, E.
  - inversion P; subst. cbn [filter hd tl]. unfold is_entry_line at 1.
    rewrite prefix_append, no_entry_lines by assumption. reflexivity.
Qed.

Lemma count_comment_line (name rest : string) :
  contains "<" name = false ->
  count_entry_lines (comment_line name ++ rest) = count_entry_lines rest.
Proof.
  intros H.
  replace (comment_line name) with (("    <!-- " ++ (name ++ " -->")) ++ nl)
    by (unfold comment_line; simpl; rewrite !append_assoc; reflexivity).
  rewrite count_entry_lines_app.
  replace (count_entry_lines ("    <!-- " ++ name ++ " -->")) with 0; [reflexivity|].
  unfold count_entry_lines, lines.
  rewrite (split_app_prefix LF "    <!-- ") by reflexivity.
  assert (P : Forall (fun piece => contains "<" piece = false) (split LF (name ++ " -->"))).
  { apply split_pieces_without. rewrite contains_append, H. reflexivity. }
  destruct (split LF (name ++ " -->")) as [|h t] eqn:E.
  - exfalso. eapply split_not_nil, E.
  - inversion P; subst. cbn [filter hd tl].
    replace (is_entry_line ("    <!-- " ++ h)) with false by reflexivity.
    rewrite no_entry_lines by assumption. reflexivity.
Qed.

Lemma count_empty_line (rest : string) :
  count_entry_lines (nl ++ rest) = count_entry_lines rest.
Proof. exact (count_entry_lines_app "" rest). Qed.

Lemma count_include_entries (files : list string) (rest : string) :
  Forall (fun f => contains "<" f = false) files ->
  count_entry_lines (concat_map include_entry files ++ rest)
  = List.length files + count_entry_lines rest.
Proof.
  induction 1 as [|f files Hf _ IH]; [reflexivity|].
  rewrite concat_map_cons, append_assoc, count_include_entry, IH by assumption.
  reflexivity.
Qed.

Lemma count_group_blocks (sources : list SourceGroup) (rest : string) :
  line_safe sources ->
  count_entry_lines (concat_map group_block sources ++ rest)
  = total_files sources + count_entry_lines rest.
Proof.
  induction 1 as [|[name files] sources [Hn Hf] _ IH]; [reflexivity|].
  rewrite concat_map_cons. unfold group_block at 1. simpl fst in *. simpl snd in *.
  rewrite !append_assoc.
  rewrite count_comment_line, count_include_entries, count_empty_line, IH by assumption.
  unfold total_files. simpl. lia.
Qed.

(** The document has one include-entry line per file of the groups. *)
Lemma render_entry_count (sources : list SourceGroup) :
  line_safe sources -> count_entry_lines (render sources) = total_files sources.
Proof.
  intros H. rewrite render_refines. unfold render_spec, VCXPROJ_HEADER.
  rewrite count_entry_lines_unlines, count_group_blocks by assumption.
  replace (list_sum (map count_entry_lines header_lines)) with 0 by (vm_compute; reflexivity).
  replace (count_entry_lines VCXPROJ_FOOTER) with 0 by (vm_compute; reflexivity).
  lia.
Qed.

(** ** Paths *)

Lemma has_magic_append (a b : string) :
  has_magic (a ++ b) = has_magic a || has_magic b.
Proof.
  induction a as [|c a IH]; simpl; [reflexivity|].
  rewrite IH, !orb_assoc. reflexivity.
Qed.

Lemma startswith_contains (c : ascii) (s : string) :
  contains c s = false -> startswith c s = false.
Proof. destruct s; simpl; [reflexivity|]. intros H. apply orb_false_elim in H. tauto. Qed.

Lemma cut_last_sep_no_sep (s : string) :
  contains SEP s = false -> cut_last_sep s = ("", s).
Proof.
  induction s as [|c s IH]; simpl; [reflexivity|].
  intros H. apply orb_false_elim in H as [Hc Hs]. rewrite (IH Hs), Hc. reflexivity.
Qed.

Lemma cut_last_sep_append (head tail : string) :
  endswith SEP head = true -> contains SEP tail = false ->
  cut_last_sep (head ++ tail) = (head, tail).
Proof.
  intros Hh Ht. induction head as [|c head IH]; [discriminate|].
  destruct head as [|d head].
  - simpl in Hh. simpl. rewrite (cut_last_sep_no_sep tail Ht), Hh.
    reflexivity.
  - change (String c (String d head) ++ tail) with (String c (String d head ++ tail)).
    cbn [cut_last_sep]. rewrite IH by exact Hh. reflexivity.
Qed.

Lemma endswith_append_sep (s : string) : endswith SEP (s ++ String SEP "") = true.
Proof.
  induction s as [|c s IH]; [reflexivity|].
  simpl. destruct (s ++ String SEP "") eqn:E; [destruct s; discriminate|exact IH].
Qed.

Lemma rstrip_sep_append_sep (s : string) :
  rstrip_sep (s ++ String SEP "") = rstrip_sep s.
Proof.
  induction s as [|c s IH]; [reflexivity|]. simpl. rewrite IH. reflexivity.
Qed.

Lemma rstrip_sep_decomp (s : string) : exists k, s = rstrip_sep s ++ slashes k.
Proof.
  induction s as [|c s [k IH]]; [exists 0; reflexivity|].
  simpl. destruct (rstrip_sep s) as [|d r] eqn:E; simpl in IH.
  - destruct (Ascii.eqb_spec c SEP) as [->|_].
    + exists (S k). simpl. congruence.
    + exists k. simpl. congruence.
  - exists k. simpl. congruence.
Qed.

Lemma rstrip_sep_endswith (s : string) :
  nonempty s = true -> endswith SEP s = false -> rstrip_sep s = s.
Proof.
  induction s as [|c s IH]; [discriminate|]. intros _ H.
  destruct s as [|d s].
  - simpl in *. rewrite H. reflexivity.
  - change (endswith SEP (String c (String d s))) with (endswith SEP (String d s)) in H.
    cbn [rstrip_sep]. cbn [rstrip_sep] in IH. rewrite IH by (reflexivity || exact H).
    reflexivity.
Qed.

Lemma has_magic_slashes (k : nat) : has_magic (slashes k) = false.
Proof. induction k; simpl; [reflexivity|assumption]. Qed.

Lemma dir_of_decomp (base_path : string) :
  exists k, base_path = dir_of base_path ++ slashes k.
Proof.
  unfold dir_of. destruct (rstrip_sep_decomp base_path) as [k E].
  destruct (rstrip_sep base_path); [exists 0; symmetry; apply append_nil_r|].
  exists k. exact E.
Qed.

Lemma dir_of_nonempty (base_path : string) :
  nonempty base_path = true -> nonempty (dir_of base_path) = true.
Proof. unfold dir_of. destruct (rstrip_sep base_path); [tauto|reflexivity]. Qed.

Lemma dir_of_no_magic (base_path : string) :
  has_magic base_path = false -> has_magic (dir_of base_path) = false.
Proof.
  destruct (dir_of_decomp base_path) as [k E]. intros H.
  rewrite E, has_magic_append in H. apply orb_false_elim in H. tauto.
Qed.

(** The pattern [find_sources] hands to [glob] splits into the directory
    of the base path and the pattern. *)
Lemma split_join_segment (base_path pattern : string) :
  nonempty base_path = true -> contains SEP pattern = false ->
  os_path_split (os_path_join base_path pattern) = (dir_of base_path, pattern).
Proof.
  intros Hb Hp. unfold os_path_join, os_path_split.
  rewrite (startswith_contains _ _ Hp), Hb. simpl negb. simpl orb.
  destruct (endswith SEP base_path) eqn:E.
  - rewrite cut_last_sep_append by assumption. unfold dir_of.
    destruct (rstrip_sep base_path); reflexivity.
  - replace (base_path ++ String SEP pattern)
      with ((base_path ++ String SEP "") ++ pattern)
      by (rewrite append_assoc; reflexivity).
    rewrite cut_last_sep_append by (apply endswith_append_sep || assumption).
    rewrite rstrip_sep_append_sep. unfold dir_of.
    rewrite (rstrip_sep_endswith base_path Hb E).
    destruct base_path; [discriminate|reflexivity].
Qed.

Lemma has_magic_join (base_path pattern : string) :
  has_magic pattern = true -> has_magic (os_path_join base_path pattern) = true.
Proof.
  intros H. unfold os_path_join.
  destruct (startswith SEP pattern); [assumption|].
  destruct (negb (nonempty base_path) || endswith SEP base_path);
    rewrite has_magic_append; [|simpl]; rewrite H; apply orb_true_r.
Qed.

Lemma os_path_join_nonempty (a b : string) :
  nonempty a = true -> nonempty (os_path_join a b) = true.
Proof.
  intros H. unfold os_path_join. destruct b as [|c b].
  - simpl. rewrite H. simpl. destruct (endswith SEP a); apply nonempty_append_l, H.
  - cbn [startswith]. destruct (Ascii.eqb c SEP); [reflexivity|].
    destruct (negb (nonempty a) || endswith SEP a); apply nonempty_append_l, H.
Qed.

(** ** [glob] on a literal directory and a one-segment pattern *)

Lemma literal_path_spec (base_path : string) :
  literal_path base_path = true ->
  nonempty base_path = true /\ has_magic base_path = false.
Proof.
  unfold literal_path. intros H. apply andb_prop in H as [H1 H2].
  apply negb_true_iff in H2. tauto.
Qed.

Lemma segment_pattern_spec (pattern : string) :
  segment_pattern pattern = true ->
  contains SEP pattern = false /\ has_magic pattern = true /\ _isrecursive pattern = false.
Proof.
  unfold segment_pattern. intros H. apply andb_prop in H as [H H3].
  apply andb_prop in H as [H1 H2]. apply negb_true_iff in H1, H3. tauto.
Qed.

Section GlobFacts.

Variable fnmatchcase : string -> string -> bool.
Variable w : world.

(** [glob] lists the directory of the base path, keeps the names that
    match, and joins each to the directory. *)
Lemma glob_segment (base_path pattern : string) :
  literal_path base_path = true -> segment_pattern pattern = true ->
  glob_glob fnmatchcase w (os_path_join base_path pattern)
  = map (os_path_join (dir_of base_path))
      (_glob1 fnmatchcase w (dir_of base_path) pattern false).
Proof.
  intros Hb Hp.
  apply literal_path_spec in Hb as [Hne Hmag].
  apply segment_pattern_spec in Hp as (Hsep & Hpm & Hrec).
  assert (Hit : _iglob fnmatchcase w (os_path_join base_path pattern) false
                = map (os_path_join (dir_of base_path))
                    (_glob1 fnmatchcase w (dir_of base_path) pattern false)).
  { unfold _iglob. cbn [iglob_fuel].
    rewrite split_join_segment, has_magic_join by assumption.
    rewrite dir_of_nonempty, dir_of_no_magic, Hpm, Hrec by assumption.
    rewrite andb_false_r. cbn [negb flat_map]. apply app_nil_r. }
  unfold glob_glob. rewrite Hit.
  destruct (negb (nonempty (os_path_join base_path pattern))
            || _isrecursive (substring 0 2 (os_path_join base_path pattern)));
    [|reflexivity].
  destruct (_glob1 fnmatchcase w (dir_of base_path) pattern false) as [|name names];
    [reflexivity|].
  cbn [map]. rewrite os_path_join_nonempty by (apply dir_of_nonempty, Hne).
  reflexivity.
Qed.

(** [os.path.relpath(f, '.')] when [os.getcwd()] returns [cwd], and when
    it raises. *)
Lemma os_path_relpath_there (cwd f : string) :
  nonempty f = true -> os_path_relpath (Ok cwd) f "." = Ok (relpath_of cwd f ".").
Proof.
  intros Hf. unfold os_path_relpath, os_path_abspath, relpath_of, rel_list, abspath_in.
  rewrite Hf. change (startswith SEP ".") with false. cbn [negb bind].
  destruct (startswith SEP f); cbn [negb bind]; cbv zeta;
    match goal with |- match ?l with _ => _ end = _ => destruct l end; reflexivity.
Qed.

Lemma os_path_relpath_gone (e : exn) (f : string) :
  nonempty f = true -> os_path_relpath (Raise e) f "." = Raise e.
Proof. intros Hf. unfold os_path_relpath. rewrite Hf. reflexivity. Qed.

Lemma os_path_relpath_raises (e : exn) (f : string) :
  exists e', os_path_relpath (Raise e) f "." = Raise e'.
Proof.
  unfold os_path_relpath. destruct (nonempty f); cbn [negb]; eexists; reflexivity.
Qed.

Lemma getcwd_there : cwd_there w = true -> getcwd w = Ok (cwd_path w).
Proof. unfold getcwd. intros ->. reflexivity. Qed.

Lemma getcwd_gone : cwd_there w = false -> getcwd w = Raise OSError.
Proof. unfold getcwd. intros ->. reflexivity. Qed.

(** The comprehension of [find_sources]: with a working directory, every
    path is made relative; without, the first path raises. *)
Lemma mapM_relpath (files : list string) :
  cwd_there w = true ->
  Forall (fun f => nonempty f = true) files ->
  mapM (fun f => r <- os_path_relpath (getcwd w) f "." ;; Ok (replace "/" "\" r)) files
  = Ok (map (to_rel w) files).
Proof.
  intros Hw. induction 1 as [|f files Hf _ IH]; [reflexivity|].
  cbn [mapM map]. rewrite IH, (getcwd_there Hw), os_path_relpath_there by exact Hf.
  reflexivity.
Qed.

Lemma mapM_relpath_cases (files : list string) :
  Forall (fun f => nonempty f = true) files ->
  mapM (fun f => r <- os_path_relpath (getcwd w) f "." ;; Ok (replace "/" "\" r)) files
  = match files with
    | [] => Ok []
    | _ :: _ => if cwd_there w then Ok (map (to_rel w) files) else Raise OSError
    end.
Proof.
  intros H. destruct files as [|f files]; [reflexivity|].
  destruct (cwd_there w) eqn:Hw; [apply mapM_relpath; assumption|].
  apply Forall_cons_iff in H as [Hf _].
  cbn [mapM]. rewrite (getcwd_gone Hw), os_path_relpath_gone by exact Hf.
  reflexivity.
Qed.

(** Without a working directory no relative path leads anywhere. *)
Lemma lookup_gone (path : string) :
  cwd_there w = false -> startswith SEP path = false -> lookup_path w path = None.
Proof.
  unfold cwd_there, lookup_path. intros Hw Hs.
  destruct path as [|c path]; [reflexivity|]. rewrite Hs.
  pose proof (split_not_nil SEP (String c path)) as N.
  destruct (split SEP (String c path)) as [|comp comps]; [contradiction|].
  destruct (cwd_stack w) as [[|[content|es] up]|]; try reflexivity. discriminate.
Qed.

Lemma listdir_gone (dirname : string) (dironly : bool) :
  cwd_there w = false -> startswith SEP dirname = false ->
  _listdir w dirname dironly = [].
Proof.
  intros Hw Hs. unfold _listdir. rewrite lookup_gone; [reflexivity|exact Hw|].
  destruct dirname; [reflexivity|exact Hs].
Qed.

Lemma glob1_gone (dirname pattern : string) (dironly : bool) :
  cwd_there w = false -> startswith SEP dirname = false ->
  _glob1 fnmatchcase w dirname pattern dironly = [].
Proof.
  intros Hw Hs. unfold _glob1. rewrite listdir_gone by assumption.
  destruct (negb (_ishidden pattern)); reflexivity.
Qed.

Lemma dir_of_startswith (base_path : string) :
  nonempty base_path = true ->
  startswith SEP (dir_of base_path) = startswith SEP base_path.
Proof.
  intros Hn. pose proof (dir_of_nonempty base_path Hn) as Hd.
  destruct (dir_of_decomp base_path) as [k E].
  destruct (dir_of base_path) as [|c r]; [discriminate|]. rewrite E. reflexivity.
Qed.

(** On a literal base path and a one-segment pattern, the result of
    [find_sources] is made of the names of one directory; it raises
    when there are such names and the working directory is gone. *)
Lemma find_sources_segment_cases (base_path pattern : string) :
  literal_path base_path = true -> segment_pattern pattern = true ->
  find_sources fnmatchcase w base_path pattern
  = match _glob1 fnmatchcase w (dir_of base_path) pattern false with
    | [] => Ok []
    | _ :: _ =>
        if cwd_there w then
          Ok (sorted (map (fun name => to_rel w (os_path_join (dir_of base_path) name))
                        (_glob1 fnmatchcase w (dir_of base_path) pattern false)))
        else Raise OSError
    end.
Proof.
  intros Hb Hp. unfold find_sources.
  rewrite glob_segment by assumption. rewrite mapM_relpath_cases.
  - destruct (_glob1 fnmatchcase w (dir_of base_path) pattern false) as [|name names];
      [reflexivity|].
    cbn [map]. destruct (cwd_there w); [|reflexivity].
    cbn [bind map]. rewrite map_map. reflexivity.
  - apply Forall_forall. intros f Hf. apply in_map_iff in Hf as (name & <- & _).
    apply os_path_join_nonempty, dir_of_nonempty.
    apply literal_path_spec in Hb. tauto.
Qed.

(** It returns with a working directory, and for every relative base
    path. *)
Lemma find_sources_segment (base_path pattern : string) :
  literal_path base_path = true -> segment_pattern pattern = true ->
  cwd_there w = true \/ startswith SEP base_path = false ->
  find_sources fnmatchcase w base_path pattern
  = Ok (sorted (map (fun name => to_rel w (os_path_join (dir_of base_path) name))
                  (_glob1 fnmatchcase w (dir_of base_path) pattern false))).
Proof.
  intros Hb Hp Hw. rewrite find_sources_segment_cases by assumption.
  destruct (cwd_there w) eqn:E.
  - destruct (_glob1 fnmatchcase w (dir_of base_path) pattern false); reflexivity.
  - destruct Hw as [Hw|Hw]; [discriminate|].
    rewrite glob1_gone; [reflexivity|exact E|].
    rewrite dir_of_startswith; [exact Hw|]. apply literal_path_spec in Hb. tauto.
Qed.

(** What it returns, when it returns. *)
Lemma find_sources_segment_ok (base_path pattern : string) (l : list string) :
  literal_path base_path = true -> segment_pattern pattern = true ->
  find_sources fnmatchcase w base_path pattern = Ok l ->
  l = sorted (map (fun name => to_rel w (os_path_join (dir_of base_path) name))
                (_glob1 fnmatchcase w (dir_of base_path) pattern false)).
Proof.
  intros Hb Hp H. rewrite find_sources_segment_cases in H by assumption.
  destruct (_glob1 fnmatchcase w (dir_of base_path) pattern false);
    [injection H as <-; reflexivity|].
  destruct (cwd_there w); [|discriminate]. injection H as <-. reflexivity.
Qed.

End GlobFacts.

(** ** Writing and reading back *)

Lemma lookup_set_entry (name : string) (n : node) (es : list (string * node)) :
  lookup_entry name (set_entry name n es) = Some n.
Proof.
  induction es as [|[x m] es IH]; simpl.
  - rewrite String.eqb_refl. reflexivity.
  - destruct (x =? name) eqn:E; simpl.
    + rewrite String.eqb_refl. reflexivity.
    + rewrite E. exact IH.
Qed.

Lemma descend_node_at (names : list string) (n : node) (st : list node) :
  match descend names (n :: st) with
  | Some (m :: _) => node_at names n = Some m
  | Some [] => False
  | None => node_at names n = None
  end.
Proof.
  revert n st. induction names as [|c names IH]; intros n st; [reflexivity|].
  simpl. destruct n as [|es]; [reflexivity|].
  destruct (lookup_entry c es) as [child|]; [apply IH|reflexivity].
Qed.

Lemma entries_at_cons (c : string) (names : list string) (es : list (string * node)) :
  entries_at (c :: names) (Dir es) =
  match lookup_entry c es with
  | Some child => entries_at names child
  | None => None
  end.
Proof.
  unfold entries_at. simpl. destruct (lookup_entry c es); reflexivity.
Qed.

Lemma update_dir_spec (names : list string)
  (f : list (string * node) -> result (list (string * node))) (n : node) :
  match entries_at names n with
  | Some es =>
      match f es with
      | Ok es' => exists n', update_dir names f n = Ok n' /\ entries_at names n' = Some es'
      | Raise e => update_dir names f n = Raise e
      end
  | None => update_dir names f n = Raise OSError
  end.
Proof.
  revert n. induction names as [|c names IH]; intros [content|es].
  - reflexivity.
  - unfold entries_at. simpl. destruct (f es) as [es'|e]; [|reflexivity].
    exists (Dir es'). split; reflexivity.
  - reflexivity.
  - rewrite entries_at_cons. cbn [update_dir].
    destruct (lookup_entry c es) as [child|]; [|reflexivity].
    specialize (IH child). destruct (entries_at names child) as [ces|].
    + destruct (f ces) as [ces'|e].
      * destruct IH as (child' & -> & Hc). cbn [bind].
        eexists. split; [reflexivity|].
        rewrite entries_at_cons, lookup_set_entry. exact Hc.
      * rewrite IH. reflexivity.
    + rewrite IH. reflexivity.
Qed.

Lemma cwd_entries (w : world) :
  entries_at (fs_cwd w) (fs_root w) =
  match cwd_stack w with
  | Some (Dir es :: _) => Some es
  | _ => None
  end.
Proof.
  unfold entries_at, cwd_stack.
  pose proof (descend_node_at (fs_cwd w) (fs_root w) []) as H.
  destruct (descend (fs_cwd w) [fs_root w]) as [[|m st]|]; [contradiction| |];
    rewrite H; reflexivity.
Qed.

(** Opening for writing and writing [s]: the file holds the translated
    text, whatever it held before. *)
Lemma open_write_read (w : world) (name newline s : string) :
  writable w name = true ->
  fs_encodable w (translate_newlines newline s) = true ->
  exists w1 w2,
    open_w w name = Ok w1 /\
    file_write w1 name newline s = Ok w2 /\
    read_file w2 name = Some (translate_newlines newline s).
Proof.
  unfold writable, open_w, file_write, read_file, update_cwd. intros H Henc.
  pose proof (cwd_entries w) as E.
  set (f1 := fun es => match lookup_entry name es with
                       | Some (Dir _) => Raise OSError
                       | _ => Ok (set_entry name (File "") es)
                       end).
  set (f2 := fun es => match lookup_entry name es with
                       | Some (File old) =>
                           Ok (set_entry name (File (old ++ translate_newlines newline s)) es)
                       | _ => Raise OSError
                       end).
  pose proof (update_dir_spec (fs_cwd w) f1 (fs_root w)) as U1.
  rewrite E in U1.
  destruct (cwd_stack w) as [[|[c|es] st]|]; try discriminate.
  assert (F1 : f1 es = Ok (set_entry name (File "") es)).
  { unfold f1. destruct (lookup_entry name es) as [[|]|]; try reflexivity; discriminate. }
  rewrite F1 in U1. destruct U1 as (root1 & R1 & E1).
  pose proof (update_dir_spec (fs_cwd w) f2 root1) as U2.
  rewrite E1 in U2. unfold f2 at 1 in U2. rewrite lookup_set_entry in U2.
  destruct U2 as (root2 & R2 & E2).
  exists {| fs_root := root1; fs_cwd := fs_cwd w; fs_encodable := fs_encodable w |},
         {| fs_root := root2; fs_cwd := fs_cwd w; fs_encodable := fs_encodable w |}.
  rewrite R1. cbn [bind fs_cwd fs_root fs_encodable]. cbv zeta.
  rewrite Henc. fold f2. rewrite R2. cbn [bind].
  split; [reflexivity|]. split; [reflexivity|].
  match goal with |- context [cwd_stack ?w2] =>
    pose proof (cwd_entries w2) as E3;
    cbn [fs_cwd fs_root] in E3; rewrite E2 in E3;
    destruct (cwd_stack w2) as [[|[c|es2] st2]|]; try discriminate
  end.
  injection E3 as <-. rewrite lookup_set_entry. reflexivity.
Qed.

(** Opening succeeds under the conditions of [writable], and keeps the
    encoding. *)
Lemma open_w_encoding (w w1 : world) (name : string) :
  open_w w name = Ok w1 -> fs_encodable w1 = fs_encodable w.
Proof.
  unfold open_w, update_cwd. destruct (update_dir _ _ _); [|discriminate].
  cbn [bind]. intros [= <-]. reflexivity.
Qed.

Lemma open_w_returns (w : world) (name : string) :
  writable w name = true -> exists w1, open_w w name = Ok w1.
Proof.
  unfold writable, open_w, update_cwd. intros H.
  match goal with |- context [update_dir _ ?f _] =>
    pose proof (update_dir_spec (fs_cwd w) f (fs_root w)) as U end.
  rewrite cwd_entries in U.
  destruct (cwd_stack w) as [[|[c|es] st]|]; try discriminate.
  destruct (lookup_entry name es) as [[|]|]; try discriminate;
    destruct U as (root1 & -> & _); eexists; reflexivity.
Qed.

(** A text the encoder does not take is not written. *)
Lemma file_write_unencodable (w : world) (name newline s : string) :
  fs_encodable w (translate_newlines newline s) = false ->
  file_write w name newline s = Raise UnicodeEncodeError.
Proof. unfold file_write. cbv zeta. intros ->. reflexivity. Qed.

(** Without the conditions of [writable], opening fails. *)
Lemma open_w_fails (w : world) (name : string) :
  writable w name = false -> open_w w name = Raise OSError.
Proof.
  unfold writable, open_w, update_cwd. intros H.
  match goal with |- context [update_dir _ ?f _] =>
    pose proof (update_dir_spec (fs_cwd w) f (fs_root w)) as U end.
  rewrite cwd_entries in U.
  destruct (cwd_stack w) as [[|[c|es] st]|]; try (rewrite U; reflexivity).
  destruct (lookup_entry name es) as [[|]|]; try discriminate.
  rewrite U. reflexivity.
Qed.

(** ** The run *)

Section MainFacts.

Variable fnmatchcase : string -> string -> bool.
Variable w : world.

Lemma find_sources_discovered (dirname : string) :
  In dirname searched_dirs ->
  find_sources fnmatchcase w dirname "*.c" = Ok (discovered fnmatchcase w dirname).
Proof.
  intros H. simpl in H.
  repeat (destruct H as [<-|H];
          [apply (find_sources_segment fnmatchcase w); (reflexivity || (right; reflexivity))|]).
  contradiction.
Qed.

Lemma main_sources_eq : main_sources fnmatchcase w = Ok (groups_of fnmatchcase w).
Proof.
  pose proof find_sources_discovered as E.
  unfold searched_dirs, std_dir, pcre_dir, uv_dir, uv_win_dir, mbedtls_dir in E.
  unfold main_sources.
  do 5 (rewrite E by (simpl; tauto); cbn [bind]).
  unfold groups_of, discover_group. cbn [fst snd flat_map].
  rewrite !app_nil_r. reflexivity.
Qed.

(** The three ways a run can go: the output file cannot be opened; the
    document cannot be encoded; the document is written. *)
Lemma main_cases :
  let doc := render (groups_of fnmatchcase w) in
  match main fnmatchcase w with
  | Raise e =>
      (e = OSError /\ writable w output_name = false) \/
      (e = UnicodeEncodeError /\ writable w output_name = true /\
       fs_encodable w (translate_newlines (String CR nl) doc) = false)
  | Ok r =>
      (writable w output_name = true /\
       fs_encodable w (translate_newlines (String CR nl) doc) = true) /\
      run_sources r = groups_of fnmatchcase w /\
      run_vcxproj r = doc /\
      run_stdout r = summary (groups_of fnmatchcase w) "" /\
      read_file (run_world r) output_name
      = Some (translate_newlines (String CR nl) doc)
  end.
Proof.
  cbv zeta. unfold main, output_name. rewrite main_sources_eq. cbn [bind]. cbv zeta.
  destruct (writable w "hlffi_monolithic.vcxproj") eqn:W.
  - destruct (fs_encodable w
                (translate_newlines (String CR nl) (render (groups_of fnmatchcase w))))
      eqn:C.
    + destruct (open_write_read w _ (String CR nl)
                  (render (groups_of fnmatchcase w)) W C) as (w1 & w2 & O & F & R).
      rewrite O. cbn [bind]. rewrite F. cbn [bind run_sources run_vcxproj run_stdout run_world].
      tauto.
    + destruct (open_w_returns w _ W) as [w1 O]. rewrite O. cbn [bind].
      rewrite file_write_unencodable by (rewrite (open_w_encoding _ _ _ O); exact C).
      right. tauto.
  - rewrite (open_w_fails w _ W). left. tauto.
Qed.

(** A run that ends has done all of this. *)
Lemma main_inv (r : run) :
  main fnmatchcase w = Ok r ->
  (writable w output_name = true /\
   fs_encodable w (translate_newlines (String CR nl) (run_vcxproj r)) = true) /\
  run_sources r = groups_of fnmatchcase w /\
  run_vcxproj r = render (run_sources r) /\
  run_stdout r = summary (run_sources r) "" /\
  read_file (run_world r) output_name
  = Some (translate_newlines (String CR nl) (run_vcxproj r)).
Proof.
  intros H. pose proof main_cases as C. cbv zeta in C. rewrite H in C.
  destruct C as (C1 & -> & -> & C4 & C5). tauto.
Qed.

(** A run ends when the output file can be opened and the document can
    be encoded. *)
Lemma main_total :
  writable w output_name = true ->
  fs_encodable w
    (translate_newlines (String CR nl) (render (groups_of fnmatchcase w))) = true ->
  exists r, main fnmatchcase w = Ok r.
Proof.
  intros W C. pose proof main_cases as M. cbv zeta in M.
  destruct (main fnmatchcase w) as [r|e]; [exists r; reflexivity|].
  destruct M as [[_ M]|(_ & _ & M)]; congruence.
Qed.

End MainFacts.

(** ** The written file *)

Lemma translate_newlines_app (newline a b : string) :
  translate_newlines newline (a ++ b)
  = translate_newlines newline a ++ translate_newlines newline b.
Proof.
  induction a as [|c a IH]; [reflexivity|].
  simpl. rewrite IH, append_assoc. reflexivity.
Qed.

Lemma translate_lf_after_cr (s : string) (prev : ascii) :
  lf_after_cr prev (translate_newlines CRLF s) = true.
Proof.
  revert prev. induction s as [|c s IH]; intros prev; [reflexivity|].
  simpl. destruct (Ascii.eqb c LF) eqn:E.
  - simpl. apply IH.
  - simpl. rewrite E. apply IH.
Qed.

Lemma endswith_append (c : ascii) (a b : string) :
  nonempty b = true -> endswith c (a ++ b) = endswith c b.
Proof.
  intros H. induction a as [|x a IH]; [reflexivity|].
  simpl. destruct (a ++ b) eqn:E; [|exact IH].
  destruct a; [|discriminate]. simpl in E. subst b. discriminate.
Qed.

(** The text written for a rendered document has CR LF line ends. *)
Lemma render_crlf_lines (sources : list SourceGroup) :
  crlf_lines (translate_newlines CRLF (render sources)) = true.
Proof.
  unfold crlf_lines. rewrite translate_lf_after_cr. simpl andb.
  unfold render. rewrite translate_newlines_app, endswith_append by reflexivity.
  apply orb_true_r.
Qed.

(** ** The summary *)

Lemma fold_left_total (sources : list SourceGroup) (acc : nat) :
  fold_left (fun acc (group : SourceGroup) => acc + List.length (snd group)) sources acc
  = acc + total_files sources.
Proof.
  revert acc. unfold total_files.
  induction sources as [|g sources IH]; intros acc; simpl; [lia|].
  rewrite IH. lia.
Qed.

(** The prints of [main] give the summary of the specification. *)
Lemma summary_refines (sources : list SourceGroup) :
  summary sources "" = summary_spec sources.
Proof.
  unfold summary, summary_spec, print.
  rewrite fold_left_total.
  rewrite fold_left_ext with (g := fun out group => out ++ count_line group).
  - rewrite fold_left_append. simpl Nat.add. rewrite !append_assoc. reflexivity.
  - intros out [name files]. unfold count_line. simpl fst. simpl snd.
    rewrite !append_assoc. reflexivity.
Qed.

Lemma translate_not_lf_first (s : string) :
  startswith LF (translate_newlines CRLF s) = false.
Proof.
  destruct s as [|c s]; [reflexivity|]. simpl.
  destruct (Ascii.eqb c LF) eqn:E; [reflexivity|exact E].
Qed.

Lemma untranslate_cons (c : ascii) (t : string) :
  startswith LF t = false ->
  untranslate_crlf (String c t) = String c (untranslate_crlf t).
Proof.
  destruct t as [|d t]; [reflexivity|]. simpl startswith. intros H.
  cbn [untranslate_crlf]. rewrite H, andb_false_r. reflexivity.
Qed.

Lemma untranslate_translate (s : string) :
  untranslate_crlf (translate_newlines CRLF s) = s.
Proof.
  induction s as [|c s IH]; [reflexivity|].
  pose proof (translate_not_lf_first s) as N.
  cbn [translate_newlines]. destruct (Ascii.eqb_spec c LF) as [->|Hc].
  - change (CRLF ++ translate_newlines CRLF s)
      with (String CR (String LF (translate_newlines CRLF s))).
    change (untranslate_crlf (String CR (String LF (translate_newlines CRLF s))))
      with (untranslate_crlf (String LF (translate_newlines CRLF s))).
    rewrite untranslate_cons, IH by exact N. reflexivity.
  - change (String c "" ++ translate_newlines CRLF s)
      with (String c (translate_newlines CRLF s)).
    rewrite untranslate_cons, IH by exact N. reflexivity.
Qed.

(** ** The order of the groups and of their files *)

Lemma discovered_sorted (fnmatchcase : string -> string -> bool) (w : world)
  (dirname : string) : is_sorted (discovered fnmatchcase w dirname).
Proof. apply sorted_is_sorted. Qed.

(** ** Safe paths *)

Lemma attr_plain_no_lt (f : string) : attr_plain f = true -> contains "<" f = false.
Proof.
  induction f as [|c f IH]; [reflexivity|]. simpl. intros H.
  apply andb_prop in H as [Hc Hf]. unfold attr_plain_char in Hc.
  apply andb_prop in Hc as [Hc _]. apply andb_prop in Hc as [Hc _].
  apply negb_true_iff in Hc. rewrite Hc, (IH Hf). reflexivity.
Qed.

Lemma attr_safe_no_lt (f : string) : attr_safe f = true -> contains "<" f = false.
Proof. intros H. apply attr_plain_no_lt. apply attr_safe_spec in H. tauto. Qed.

(** The groups of a run are safe when their paths are: the group names
    have no double hyphen and no [<]. *)
Lemma groups_of_safe (fnmatchcase : string -> string -> bool) (w : world) :
  (forall name files f,
     In (name, files) (groups_of fnmatchcase w) -> In f files -> attr_safe f = true) ->
  xml_safe (groups_of fnmatchcase w) /\ line_safe (groups_of fnmatchcase w).
Proof.
  intros H.
  assert (A : forall group, In group (groups_of fnmatchcase w) ->
              Forall (fun f => attr_safe f = true) (snd group)).
  { intros [name files] Hg. apply Forall_forall. intros f Hf. eapply H; eassumption. }
  assert (N : forall group, In group (groups_of fnmatchcase w) ->
              (comment_safe (fst group) = true /\ xml_chars (fst group) = true) /\
              contains "<" (fst group) = false).
  { intros group Hg. unfold groups_of in Hg. simpl in Hg.
    repeat (destruct Hg as [<-|Hg]; [repeat split; reflexivity|]). contradiction. }
  split; apply Forall_forall; intros group Hg; split;
    try (apply N, Hg); try (apply A, Hg).
  eapply Forall_impl; [|apply A, Hg]. intros f. apply attr_safe_no_lt.
Qed.

(** ** Listings *)

Lemma Permutation_filter_keep {A : Type} (f : A -> bool) (l1 l2 : list A) :
  Permutation l1 l2 -> Permutation (filter f l1) (filter f l2).
Proof.
  induction 1 as [|x l1 l2 _ IH|x y l|l1 l2 l3 _ IH1 _ IH2]; simpl.
  - constructor.
  - destruct (f x); [constructor|]; exact IH.
  - destruct (f x), (f y); try apply Permutation_refl. constructor.
  - eapply Permutation_trans; eassumption.
Qed.

Lemma concat_map_split {A : Type} (g : A -> string) (l1 l2 : list A) (x : A) :
  concat_map g (l1 ++ x :: l2)%list = concat_map g l1 ++ g x ++ concat_map g l2.
Proof. rewrite concat_map_app, concat_map_cons. reflexivity. Qed.

Section ListingFacts.

Variable fnmatchcase : string -> string -> bool.

(** The names [glob] keeps are names of the listing that match. *)
Lemma glob1_listed (w : world) (dirname pattern name : string) :
  In name (_glob1 fnmatchcase w dirname pattern false) ->
  In name (_listdir w dirname false) /\ fnmatchcase name pattern = true.
Proof.
  unfold _glob1. intros H. apply filter_In in H as [H M]. split; [|exact M].
  destruct (negb (_ishidden pattern)); [|exact H].
  apply filter_In in H. tauto.
Qed.

(** Nothing is listed where there is no directory. *)
Lemma listdir_absent (w : world) (dirname : string) (dironly : bool) :
  nonempty dirname = true ->
  (forall es, lookup_path w dirname <> Some (Dir es)) ->
  _listdir w dirname dironly = [].
Proof.
  intros Hn H. unfold _listdir. rewrite Hn.
  destruct (lookup_path w dirname) as [[c|es]|]; try reflexivity.
  exfalso. eapply H. reflexivity.
Qed.

Lemma glob1_absent (w : world) (dirname pattern : string) :
  nonempty dirname = true ->
  (forall es, lookup_path w dirname <> Some (Dir es)) ->
  _glob1 fnmatchcase w dirname pattern false = [].
Proof.
  intros Hn H. unfold _glob1. rewrite listdir_absent by assumption.
  destruct (negb (_ishidden pattern)); reflexivity.
Qed.

Lemma lexists_false (w : world) (path : string) :
  lexists w path = false -> forall es, lookup_path w path <> Some (Dir es).
Proof. unfold lexists. intros H es E. rewrite E in H. discriminate. Qed.

Lemma matching_absent (w : world) (dirname : string) :
  nonempty dirname = true -> lexists w dirname = false ->
  matching fnmatchcase w dirname = [].
Proof. intros Hn H. apply glob1_absent; [exact Hn|apply lexists_false, H]. Qed.

Lemma discovered_nothing (w : world) (dirname : string) :
  matching fnmatchcase w dirname = [] -> discovered fnmatchcase w dirname = [].
Proof. unfold discovered. intros ->. reflexivity. Qed.

Lemma searched_dirs_nonempty (dirname : string) :
  In dirname searched_dirs -> nonempty dirname = true.
Proof.
  intros H. simpl in H. repeat (destruct H as [<-|H]; [reflexivity|]). contradiction.
Qed.

(** Every discovered path comes from a name of a listing. *)
Lemma discovered_listed (w : world) (dirname p : string) :
  In p (discovered fnmatchcase w dirname) ->
  exists name,
    In name (_listdir w dirname false) /\ fnmatchcase name "*.c" = true /\
    p = to_rel w (os_path_join dirname name).
Proof.
  unfold discovered. intros H. apply sorted_In, in_map_iff in H as (name & <- & H).
  apply glob1_listed in H as [H M]. exists name. tauto.
Qed.

(** In the same working directory, the same names in any order give the
    same discovered paths. *)
Lemma discovered_permutation (w1 w2 : world) (dirname : string) :
  fs_cwd w1 = fs_cwd w2 ->
  Permutation (_listdir w1 dirname false) (_listdir w2 dirname false) ->
  discovered fnmatchcase w1 dirname = discovered fnmatchcase w2 dirname.
Proof.
  intros Hc Hp. unfold discovered, matching, _glob1, to_rel, cwd_path. rewrite Hc.
  apply sorted_permutation, Permutation_map, Permutation_filter_keep.
  destruct (negb (_ishidden "*.c")); [apply Permutation_filter_keep|]; exact Hp.
Qed.

End ListingFacts.

(** ** Trailing slashes *)

Lemma walk_app (l1 l2 : list string) (st : list node) :
  walk (l1 ++ l2)%list st =
  match walk l1 st with
  | Some st' => walk l2 st'
  | None => None
  end.
Proof.
  revert st. induction l1 as [|c l1 IH]; intros st; [reflexivity|].
  simpl. destruct st as [|[content|es] up]; try reflexivity.
  destruct ((c =? "") || (c =? ".")); [apply IH|].
  destruct (c =? ".."); [apply IH|].
  destruct (lookup_entry c es); [apply IH|reflexivity].
Qed.

Lemma split_only_slashes (k : nat) : split SEP (slashes k) = repeat "" (S k).
Proof.
  induction k as [|k IH]; [reflexivity|].
  cbn [slashes split]. rewrite Ascii.eqb_refl, IH. reflexivity.
Qed.

Lemma split_slashes (d : string) (k : nat) :
  split SEP (d ++ slashes k) = (split SEP d ++ repeat "" k)%list.
Proof.
  destruct k as [|k].
  - simpl. rewrite append_nil_r, app_nil_r. reflexivity.
  - cbn [slashes]. rewrite split_app_sep, split_only_slashes. reflexivity.
Qed.

Lemma walk_empties (k : nat) (es : list (string * node)) (up : list node) :
  walk (repeat "" k) (Dir es :: up) = Some (Dir es :: up).
Proof. induction k as [|k IH]; [reflexivity|exact IH]. Qed.

(** A directory is also found with slashes after its path. *)
Lemma lookup_slashes (w : world) (d : string) (k : nat) (es : list (string * node)) :
  lookup_path w d = Some (Dir es) -> lookup_path w (d ++ slashes k) = Some (Dir es).
Proof.
  destruct d as [|c d]; [discriminate|].
  unfold lookup_path. cbn [append startswith].
  change (String c (d ++ slashes k)) with (String c d ++ slashes k).
  rewrite split_slashes.
  destruct (if Ascii.eqb c SEP then Some [fs_root w] else cwd_stack w) as [st|];
    [|discriminate].
  rewrite walk_app.
  destruct (walk (split SEP (String c d)) st) as [[|n st']|]; try discriminate.
  intros [= ->]. rewrite walk_empties. reflexivity.
Qed.

Lemma dir_of_absent (w : world) (base_path : string) :
  lexists w base_path = false ->
  forall es, lookup_path w (dir_of base_path) <> Some (Dir es).
Proof.
  intros H es E. destruct (dir_of_decomp base_path) as [k D].
  apply (lookup_slashes w _ k) in E. rewrite <- D in E.
  unfold lexists in H. rewrite E in H. discriminate.
Qed.

(** ** Groups inside the document *)

Lemma render_split (before after : list SourceGroup) (group : SourceGroup) :
  render (before ++ group :: after)%list =
  VCXPROJ_HEADER ++ concat_map group_block before ++ group_block group
  ++ concat_map group_block after ++ VCXPROJ_FOOTER.
Proof.
  rewrite render_refines. unfold render_spec.
  rewrite concat_map_split, !append_assoc. reflexivity.
Qed.

(** The include-entry of every file of every group is in the document. *)
Lemma render_has_entry (sources : list SourceGroup) (group : SourceGroup) (f : string) :
  In group sources -> In f (snd group) ->
  exists pre post, render sources = pre ++ include_entry f ++ post.
Proof.
  intros Hg Hf.
  apply in_split in Hg as (before & after & ->).
  apply in_split in Hf as (l1 & l2 & Hf).
  rewrite render_split. unfold group_block. rewrite Hf, concat_map_split.
  exists (VCXPROJ_HEADER ++ concat_map group_block before
          ++ comment_line (fst group) ++ concat_map include_entry l1),
         (concat_map include_entry l2 ++ nl
          ++ concat_map group_block after ++ VCXPROJ_FOOTER).
  rewrite !append_assoc. reflexivity.
Qed.

Lemma discover_group_in (fnmatchcase : string -> string -> bool) (w : world)
  (group : string * list string) :
  In group discovered_groups ->
  In (discover_group fnmatchcase w group) (groups_of fnmatchcase w).
Proof.
  intros H. simpl in H. unfold groups_of.
  destruct H as [<-|[<-|[<-|[<-|[]]]]]; cbn [In]; tauto.
Qed.

(** ** [os.path.relpath] *)

Lemma split_pieces_sep_free (c : ascii) (s : string) :
  Forall (fun piece => contains c piece = false) (split c s).
Proof.
  induction s as [|x s IH]; simpl.
  - constructor; [reflexivity|constructor].
  - destruct (Ascii.eqb x c) eqn:E.
    + constructor; [reflexivity|exact IH].
    + destruct (split c s) as [|h t]; inversion IH; subst.
      * constructor; [simpl; rewrite E; reflexivity|constructor].
      * constructor; [simpl; rewrite E; assumption|assumption].
Qed.

Lemma split_sep_free (c : ascii) (s : string) :
  contains c s = false -> split c s = [s].
Proof.
  induction s as [|x s IH]; [reflexivity|]. simpl. intros H.
  apply orb_false_elim in H as [Hx Hs]. rewrite Hx, (IH Hs). reflexivity.
Qed.

Lemma proper_spec (comp : string) :
  proper comp = true ->
  nonempty comp = true /\ contains SEP comp = false /\ comp <> "." /\ comp <> "..".
Proof.
  unfold proper. intros H. apply andb_prop in H as [H H4].
  apply andb_prop in H as [H H3]. apply andb_prop in H as [H1 H2].
  apply negb_true_iff in H2, H3, H4.
  apply String.eqb_neq in H3, H4. tauto.
Qed.

Lemma proper_rel_comp (comp : string) : proper comp = true -> rel_comp comp = true.
Proof.
  unfold proper, rel_comp. intros H. apply andb_prop in H as [H _].
  apply andb_prop in H as [H _]. exact H.
Qed.

Lemma rel_comp_spec (comp : string) :
  rel_comp comp = true -> nonempty comp = true /\ contains SEP comp = false.
Proof.
  unfold rel_comp. intros H. apply andb_prop in H as [H1 H2].
  apply negb_true_iff in H2. tauto.
Qed.

(** *** The loop of [normpath] *)

Lemma normpath_step_proper (stack : list string) (comp : string) :
  proper comp = true -> normpath_step true stack comp = comp :: stack.
Proof.
  intros H. apply proper_spec in H as (Hn & _ & Hd & Hdd).
  unfold normpath_step.
  apply String.eqb_neq in Hd, Hdd. rewrite Hd, Hdd.
  destruct comp; [discriminate|reflexivity].
Qed.

Lemma normpath_step_keeps_proper (stack : list string) (comp : string) :
  contains SEP comp = false ->
  Forall (fun c => proper c = true) stack ->
  Forall (fun c => proper c = true) (normpath_step true stack comp).
Proof.
  intros Hs Hst. unfold normpath_step.
  destruct (comp =? "") eqn:E1; [exact Hst|].
  destruct (comp =? ".") eqn:E2; [exact Hst|]. cbn [orb].
  destruct (comp =? "..") eqn:E3; cbn [negb].
  - destruct stack as [|top stack]; [constructor|].
    inversion Hst as [|? ? Htop Hrest]; subst.
    apply proper_spec in Htop as (_ & _ & _ & Hdd).
    apply String.eqb_neq in Hdd. rewrite Hdd. exact Hrest.
  - constructor; [|exact Hst]. unfold proper.
    rewrite Hs, E2, E3. destruct comp; [discriminate|reflexivity].
Qed.

Lemma normpath_fold_proper (comps stack : list string) :
  Forall (fun c => contains SEP c = false) comps ->
  Forall (fun c => proper c = true) stack ->
  Forall (fun c => proper c = true) (fold_left (normpath_step true) comps stack).
Proof.
  intros Hc. revert stack. induction Hc as [|c comps Hs _ IH]; intros stack Hst.
  - exact Hst.
  - simpl. apply IH, normpath_step_keeps_proper; assumption.
Qed.

Lemma normpath_comps_proper (path : string) :
  Forall (fun c => proper c = true) (normpath_comps true path).
Proof.
  unfold normpath_comps. apply Forall_rev, normpath_fold_proper.
  - apply split_pieces_sep_free.
  - constructor.
Qed.

(** *** Joining and splitting components *)

Lemma concat_sep_each (a : string) (p : list string) :
  String.concat "/" (a :: p) = a ++ sep_each p.
Proof.
  revert a. induction p as [|b p IH]; intros a.
  - simpl. symmetry. apply append_nil_r.
  - change (String.concat "/" (a :: b :: p)) with (a ++ "/" ++ String.concat "/" (b :: p)).
    rewrite IH. reflexivity.
Qed.

Lemma split_sep_each (a : string) (p : list string) :
  contains SEP a = false ->
  Forall (fun c => contains SEP c = false) p ->
  split SEP (a ++ sep_each p) = a :: p.
Proof.
  intros Ha Hp. revert a Ha. induction Hp as [|b p Hb _ IH]; intros a Ha.
  - unfold sep_each. simpl. rewrite append_nil_r. apply split_sep_free, Ha.
  - unfold sep_each. rewrite concat_map_cons. fold (sep_each p).
    change (a ++ String SEP b ++ sep_each p) with (a ++ String SEP (b ++ sep_each p)).
    rewrite split_app_sep, (split_sep_free SEP a Ha), (IH b Hb). reflexivity.
Qed.

Lemma path_list_slash (s : string) : path_list (String SEP s) = path_list s.
Proof. reflexivity. Qed.

Lemma filter_nonempty_proper (comps : list string) :
  Forall (fun c => proper c = true) comps -> filter nonempty comps = comps.
Proof.
  induction 1 as [|c comps Hc _ IH]; [reflexivity|]. simpl.
  apply proper_spec in Hc as (Hn & _). rewrite Hn, IH. reflexivity.
Qed.

Lemma path_list_concat (comps : list string) :
  Forall (fun c => proper c = true) comps ->
  path_list (String.concat "/" comps) = comps.
Proof.
  intros H. destruct comps as [|a p]; [reflexivity|].
  unfold path_list. rewrite concat_sep_each, split_sep_each.
  - apply filter_nonempty_proper, H.
  - inversion H; subst. apply proper_spec in H2. tauto.
  - inversion H; subst. eapply Forall_impl; [|eassumption].
    intros c Hc. apply proper_spec in Hc. tauto.
Qed.

(** The components of a normalized absolute path are those of the loop. *)
Lemma path_list_normpath (path : string) :
  startswith SEP path = true ->
  path_list (os_path_normpath path) = normpath_comps true path.
Proof.
  intros H. destruct path as [|c r]; [discriminate|].
  unfold os_path_normpath. rewrite H.
  pose proof (normpath_comps_proper (String c r)) as P.
  set (comps := normpath_comps true (String c r)) in *.
  assert (E1 : path_list ("/" ++ String.concat "/" comps) = comps).
  { change ("/" ++ String.concat "/" comps) with (String SEP (String.concat "/" comps)).
    rewrite path_list_slash. apply path_list_concat, P. }
  assert (E2 : path_list ("//" ++ String.concat "/" comps) = comps).
  { change ("//" ++ String.concat "/" comps)
      with (String SEP (String SEP (String.concat "/" comps))).
    rewrite !path_list_slash. apply path_list_concat, P. }
  destruct r as [|b [|d t]].
  - exact E1.
  - destruct (Ascii.eqb b SEP); [exact E2|exact E1].
  - destruct (Ascii.eqb b SEP && negb (Ascii.eqb d SEP)); [exact E2|exact E1].
Qed.

Lemma endswith_contains (c : ascii) (s : string) :
  contains c s = false -> endswith c s = false.
Proof.
  induction s as [|x s IH]; [reflexivity|]. simpl. intros H.
  apply orb_false_elim in H as [Hx Hs]. destruct s; [exact Hx|apply IH, Hs].
Qed.

(** [os.path.join] of names puts one slash between them. *)
Lemma join_all_sep_each (p : list string) (acc : string) :
  nonempty acc = true -> endswith SEP acc = false ->
  Forall (fun c => rel_comp c = true) p ->
  os_path_join_all acc p = acc ++ sep_each p.
Proof.
  intros Hn He Hp. revert acc Hn He. unfold os_path_join_all.
  induction Hp as [|b p Hb _ IH]; intros acc Hn He.
  - simpl. symmetry. apply append_nil_r.
  - apply rel_comp_spec in Hb as [Hbn Hbs].
    cbn [fold_left]. unfold os_path_join at 2.
    rewrite (startswith_contains _ _ Hbs), Hn, He. cbn [negb orb].
    rewrite IH.
    + unfold sep_each. rewrite concat_map_cons, !append_assoc. reflexivity.
    + apply nonempty_append_l, Hn.
    + rewrite endswith_append by reflexivity.
      destruct b; [discriminate|]. apply (endswith_contains SEP (String a b)), Hbs.
Qed.

(** *** The parent steps and the common prefix *)

Lemma normpath_fold_parents (k : nat) (stack : list string) :
  Forall (fun c => proper c = true) stack ->
  fold_left (normpath_step true) (repeat ".." k) stack = skipn k stack.
Proof.
  revert stack. induction k as [|k IH]; intros stack H; [reflexivity|].
  cbn [repeat fold_left]. destruct stack as [|top stack].
  - cbn. rewrite IH by constructor. destruct k; reflexivity.
  - inversion H as [|? ? Htop Hrest]; subst.
    apply proper_spec in Htop as (_ & _ & _ & Hdd). apply String.eqb_neq in Hdd.
    unfold normpath_step at 2. cbn [String.eqb Ascii.eqb Bool.eqb orb negb].
    rewrite Hdd. apply IH, Hrest.
Qed.

Lemma normpath_fold_names (comps stack : list string) :
  Forall (fun c => proper c = true) comps ->
  fold_left (normpath_step true) comps stack = (rev comps ++ stack)%list.
Proof.
  intros H. revert stack. induction H as [|c comps Hc _ IH]; intros stack; [reflexivity|].
  cbn [fold_left rev]. rewrite normpath_step_proper by exact Hc.
  rewrite IH, <- app_assoc. reflexivity.
Qed.

Lemma commonprefix_len_spec (l1 l2 : list string) :
  commonprefix_len l1 l2 <= List.length l1 /\
  commonprefix_len l1 l2 <= List.length l2 /\
  firstn (commonprefix_len l1 l2) l1 = firstn (commonprefix_len l1 l2) l2.
Proof.
  revert l2. induction l1 as [|a l1 IH]; intros [|b l2]; simpl;
    try (repeat split; (lia || reflexivity)).
  destruct (String.eqb_spec a b) as [->|_]; simpl.
  - destruct (IH l2) as (H1 & H2 & H3). rewrite H3. repeat split; lia || reflexivity.
  - repeat split; lia || reflexivity.
Qed.

Lemma endswith_decomp (c : ascii) (s : string) :
  endswith c s = true -> exists s', s = s' ++ String c "".
Proof.
  induction s as [|x s IH]; [discriminate|]. intros H. destruct s as [|y s].
  - simpl in H. apply Ascii.eqb_eq in H as ->. exists "". reflexivity.
  - destruct (IH H) as [s' E]. exists (String x s'). simpl. rewrite <- E. reflexivity.
Qed.

Lemma normpath_step_empty (stack : list string) :
  normpath_step true stack "" = stack.
Proof. reflexivity. Qed.

(** Normalizing [join(cwd, x)]: the components of [cwd], then those of [x]. *)
Lemma normpath_fold_join (cwd x : string) (acc : list string) :
  nonempty cwd = true -> startswith SEP x = false ->
  fold_left (normpath_step true) (split SEP (os_path_join cwd x)) acc
  = fold_left (normpath_step true) (split SEP x)
      (fold_left (normpath_step true) (split SEP cwd) acc).
Proof.
  intros Hn Hx. unfold os_path_join. rewrite Hx, Hn. cbn [negb orb].
  destruct (endswith SEP cwd) eqn:E.
  - apply endswith_decomp in E as [c' ->].
    rewrite append_assoc. cbn [append].
    rewrite !split_app_sep, !fold_left_app. reflexivity.
  - rewrite split_app_sep, fold_left_app. reflexivity.
Qed.

Lemma startswith_join (cwd x : string) :
  startswith SEP cwd = true -> startswith SEP (os_path_join cwd x) = true.
Proof.
  intros H. unfold os_path_join. destruct (startswith SEP x) eqn:E; [exact E|].
  destruct cwd as [|c cwd]; [discriminate|].
  destruct (negb (nonempty (String c cwd)) || endswith SEP (String c cwd)); exact H.
Qed.

Lemma in_skipn {A : Type} (n : nat) (l : list A) (x : A) :
  In x (skipn n l) -> In x l.
Proof.
  intros H. rewrite <- (firstn_skipn n l). apply in_or_app. right. exact H.
Qed.

Lemma rel_list_comps (cwd f : string) :
  Forall (fun c => rel_comp c = true) (rel_list cwd f ".").
Proof.
  unfold rel_list. apply Forall_app. split.
  - apply Forall_forall. intros c Hc. apply repeat_spec in Hc as ->. reflexivity.
  - apply Forall_forall. intros c Hc.
    assert (Hin : In c (path_list (abspath_in cwd f))).
    { eapply in_skipn, Hc. }
    unfold path_list in Hin. apply filter_In in Hin as [Hin Hne].
    unfold rel_comp. rewrite Hne.
    pose proof (split_pieces_sep_free SEP (abspath_in cwd f)) as F.
    rewrite Forall_forall in F. rewrite (F c Hin). reflexivity.
Qed.

(** The value of [relpath] is relative, and its components are those of
    [rel_list]. *)
Lemma relpath_of_split (cwd f : string) (stack : list string) :
  startswith SEP (relpath_of cwd f ".") = false /\
  fold_left (normpath_step true) (split SEP (relpath_of cwd f ".")) stack
  = fold_left (normpath_step true) (rel_list cwd f ".") stack.
Proof.
  unfold relpath_of. pose proof (rel_list_comps cwd f) as H.
  destruct (rel_list cwd f ".") as [|a p]; [split; reflexivity|].
  inversion H as [|? ? Ha Hp]; subst.
  pose proof (rel_comp_spec a Ha) as [Han Has].
  rewrite join_all_sep_each; try assumption; [|apply endswith_contains, Has].
  split.
  - destruct a; [discriminate|]. apply (startswith_contains SEP (String a a0)), Has.
  - rewrite split_sep_each; [reflexivity|exact Has|].
    eapply Forall_impl; [|exact Hp]. intros c Hc. apply rel_comp_spec in Hc. tauto.
Qed.

(** Read from the working directory, the value of [relpath] names the
    place its argument names. *)
Lemma relpath_denotes (cwd f : string) :
  startswith SEP cwd = true ->
  startswith SEP (relpath_of cwd f ".") = false /\
  normpath_comps true (os_path_join cwd (relpath_of cwd f "."))
  = path_list (abspath_in cwd f).
Proof.
  intros Hcwd.
  assert (Hn : nonempty cwd = true) by (destruct cwd; [discriminate|reflexivity]).
  destruct (relpath_of_split cwd f
              (fold_left (normpath_step true) (split SEP cwd) [])) as [Hrel Hsplit].
  split; [exact Hrel|].
  unfold normpath_comps. rewrite normpath_fold_join, Hsplit by assumption.
  set (srev := fold_left (normpath_step true) (split SEP cwd) []).
  assert (Hsrev : Forall (fun c => proper c = true) srev).
  { apply normpath_fold_proper; [apply split_pieces_sep_free|constructor]. }
  assert (HS : path_list (abspath_in cwd ".") = rev srev).
  { unfold abspath_in. change (startswith SEP ".") with false. cbv iota.
    rewrite path_list_normpath by (apply startswith_join, Hcwd).
    unfold normpath_comps. rewrite normpath_fold_join by (assumption || reflexivity).
    reflexivity. }
  assert (HP : Forall (fun c => proper c = true) (path_list (abspath_in cwd f))).
  { unfold abspath_in. rewrite path_list_normpath.
    - apply normpath_comps_proper.
    - destruct (startswith SEP f) eqn:E; [exact E|apply startswith_join, Hcwd]. }
  unfold rel_list. rewrite HS.
  set (P := path_list (abspath_in cwd f)) in *.
  destruct (commonprefix_len_spec (rev srev) P) as (H1 & H2 & H3).
  set (i := commonprefix_len (rev srev) P) in *.
  rewrite fold_left_app, normpath_fold_parents by exact Hsrev.
  rewrite normpath_fold_names.
  - rewrite rev_app_distr, rev_involutive, length_rev, <- firstn_rev, H3.
    apply firstn_skipn.
  - apply Forall_forall. intros c Hc. rewrite Forall_forall in HP.
    apply HP. eapply in_skipn, Hc.
Qed.

Lemma mapM_In {A B : Type} (f : A -> result B) (l : list A) (l' : list B) :
  mapM f l = Ok l' -> forall y, In y l' -> exists x, In x l /\ f x = Ok y.
Proof.
  revert l'. induction l as [|a l IH]; intros l' H y Hy.
  - injection H as <-. contradiction.
  - cbn [mapM] in H. destruct (f a) as [b|e] eqn:Ea; [|discriminate].
    cbn [bind] in H. destruct (mapM f l) as [bs|e]; [|discriminate].
    injection H as <-. destruct Hy as [<-|Hy].
    + exists a. split; [left; reflexivity|exact Ea].
    + destruct (IH bs eq_refl y Hy) as (x & Hx & Ex).
      exists x. split; [right; exact Hx|exact Ex].
Qed.

Lemma os_path_relpath_ok (w : world) (f rel : string) :
  os_path_relpath (getcwd w) f "." = Ok rel ->
  cwd_there w = true /\ nonempty f = true /\ rel = relpath_of (cwd_path w) f ".".
Proof.
  unfold getcwd. destruct (cwd_there w).
  - destruct (nonempty f) eqn:Hf.
    + rewrite os_path_relpath_there by exact Hf. intros [= <-]. tauto.
    + unfold os_path_relpath. rewrite Hf. discriminate.
  - destruct (os_path_relpath_raises OSError f) as [e ->]. discriminate.
Qed.

Lemma filter_all {A : Type} (f : A -> bool) (l : list A) :
  (forall x, f x = true) -> filter f l = l.
Proof.
  intros H. induction l as [|x l IH]; [reflexivity|]. simpl. rewrite H, IH. reflexivity.
Qed.

(** ** The fuel of [_iglob] *)

Lemma length_append (a b : string) :
  String.length (a ++ b) = String.length a + String.length b.
Proof. induction a as [|c a IH]; simpl; [reflexivity|]. rewrite IH. reflexivity. Qed.

Lemma cut_last_sep_eq (p : string) :
  fst (cut_last_sep p) ++ snd (cut_last_sep p) = p.
Proof.
  induction p as [|c p IH]; [reflexivity|]. simpl.
  destruct (cut_last_sep p) as [[|a h] t]; simpl in *.
  - destruct (Ascii.eqb_spec c SEP); simpl; congruence.
  - congruence.
Qed.

Lemma append_same_length (a b : string) :
  String.length a = String.length (a ++ b) -> a ++ b = a.
Proof.
  rewrite length_append. intros H. destruct b; [apply append_nil_r|].
  simpl in H. lia.
Qed.

(** The head of [os.path.split] is the path itself or is shorter. *)
Lemma os_path_split_shorter (p d b : string) :
  os_path_split p = (d, b) -> d <> p -> String.length d < String.length p.
Proof.
  unfold os_path_split. pose proof (cut_last_sep_eq p) as E.
  destruct (cut_last_sep p) as [h t]. simpl in E.
  destruct (rstrip_sep_decomp h) as [k K].
  assert (Lp : String.length p = String.length h + String.length t)
    by (rewrite <- E; apply length_append).
  assert (Lh : String.length h = String.length (rstrip_sep h) + String.length (slashes k))
    by (rewrite K at 1; apply length_append).
  destruct (rstrip_sep h) as [|x r] eqn:R; intros [= <- <-] N.
  - destruct (Nat.eq_dec (String.length h) (String.length p)) as [L|L]; [|lia].
    exfalso. apply N. rewrite <- E. symmetry. apply append_same_length.
    rewrite E. exact L.
  - destruct (Nat.eq_dec (String.length (String x r)) (String.length p)) as [L|L]; [|lia].
    exfalso. apply N.
    assert (Ht : h ++ t = h) by (apply append_same_length; rewrite E; lia).
    assert (Hk : String x r ++ slashes k = String x r)
      by (apply append_same_length; rewrite <- K; lia).
    rewrite <- E, Ht, K. symmetry. exact Hk.
Qed.

Section Fuel.

Variable fnmatchcase : string -> string -> bool.
Variable w : world.

(** Any fuel above the length of the path gives the same result: the
    fuel of [_iglob] is never used up. *)
Lemma iglob_fuel_enough (n m : nat) (pathname : string) (dironly : bool) :
  String.length pathname < n -> String.length pathname < m ->
  iglob_fuel fnmatchcase w n pathname dironly
  = iglob_fuel fnmatchcase w m pathname dironly.
Proof.
  revert m pathname dironly.
  induction n as [|n IH]; intros m pathname dironly Hn Hm; [lia|].
  destruct m as [|m]; [lia|].
  cbn [iglob_fuel].
  destruct (os_path_split pathname) as [dirname basename] eqn:S.
  destruct (negb (has_magic pathname)); [reflexivity|].
  destruct (negb (nonempty dirname)); [reflexivity|].
  destruct (negb (dirname =? pathname) && has_magic dirname) eqn:C; [|reflexivity].
  apply andb_prop in C as [C _]. apply negb_true_iff, String.eqb_neq in C.
  pose proof (os_path_split_shorter pathname dirname basename S C) as L.
  rewrite (IH m dirname true) by lia. reflexivity.
Qed.

End Fuel.

(** ** [find_sources] returns *)

Lemma lookup_entry_names (c : string) (es : list (string * node)) (n : node) :
  names_nonempty (Dir es) = true -> lookup_entry c es = Some n ->
  names_nonempty n = true.
Proof.
  induction es as [|[x m] es IH]; [discriminate|]. cbn [names_nonempty forallb fst snd].
  intros H. apply andb_prop in H as [Hx Hes]. apply andb_prop in Hx as [_ Hm].
  cbn [lookup_entry]. destruct (x =? c); [intros [= <-]; exact Hm|].
  apply IH. exact Hes.
Qed.

Lemma walk_names (comps : list string) (stack stack' : list node) :
  Forall (fun n => names_nonempty n = true) stack ->
  walk comps stack = Some stack' ->
  Forall (fun n => names_nonempty n = true) stack'.
Proof.
  revert stack. induction comps as [|c comps IH]; intros stack H; [intros [= <-]; exact H|].
  cbn [walk]. destruct stack as [|[content|es] up]; try discriminate.
  destruct ((c =? "") || (c =? ".")); [apply IH, H|].
  destruct (c =? "..").
  - apply IH. destruct up; [exact H|]. inversion H; assumption.
  - destruct (lookup_entry c es) as [n|] eqn:E; [|discriminate].
    apply IH. constructor; [|exact H].
    inversion H; subst. eapply lookup_entry_names; eassumption.
Qed.

Lemma descend_names (names : list string) (stack stack' : list node) :
  Forall (fun n => names_nonempty n = true) stack ->
  descend names stack = Some stack' ->
  Forall (fun n => names_nonempty n = true) stack'.
Proof.
  revert stack. induction names as [|c names IH]; intros stack H; [intros [= <-]; exact H|].
  cbn [descend]. destruct stack as [|[content|es] up]; try discriminate.
  destruct (lookup_entry c es) as [n|] eqn:E; [|discriminate].
  apply IH. constructor; [|exact H].
  inversion H; subst. eapply lookup_entry_names; eassumption.
Qed.

Lemma lookup_path_names (w : world) (path : string) (n : node) :
  names_nonempty (fs_root w) = true -> lookup_path w path = Some n ->
  names_nonempty n = true.
Proof.
  intros Hw. unfold lookup_path. destruct path as [|c path]; [discriminate|].
  assert (R : Forall (fun n => names_nonempty n = true) [fs_root w])
    by (constructor; [exact Hw|constructor]).
  destruct (if startswith SEP (String c path) then Some [fs_root w] else cwd_stack w)
    as [st|] eqn:St; [|discriminate].
  assert (Hst : Forall (fun n => names_nonempty n = true) st).
  { destruct (startswith SEP (String c path)).
    - injection St as <-. exact R.
    - eapply descend_names; [exact R|exact St]. }
  destruct (walk (split SEP (String c path)) st) as [[|m st']|] eqn:W; try discriminate.
  intros [= <-]. apply (walk_names _ _ _ Hst) in W. inversion W; assumption.
Qed.

Lemma entries_names (es : list (string * node)) (f : string * node -> bool) :
  names_nonempty (Dir es) = true ->
  Forall (fun x => nonempty x = true) (map fst (filter f es)).
Proof.
  induction es as [|e es IH]; [constructor|]. cbn [names_nonempty forallb].
  intros H. apply andb_prop in H as [He Hes]. apply andb_prop in He as [He _].
  cbn [filter]. destruct (f e); [constructor; [exact He|]|]; apply IH, Hes.
Qed.

Lemma listdir_names (w : world) (dirname : string) (dironly : bool) :
  names_nonempty (fs_root w) = true ->
  Forall (fun x => nonempty x = true) (_listdir w dirname dironly).
Proof.
  intros Hw. unfold _listdir.
  destruct (lookup_path w (if nonempty dirname then dirname else ".")) as [[c|es]|] eqn:E;
    try constructor.
  apply entries_names. eapply lookup_path_names; eassumption.
Qed.

Lemma join_nonempty (x y : string) : nonempty x = true -> nonempty (_join x y) = true.
Proof.
  intros H. unfold _join. rewrite H. cbn [negb orb].
  destruct (nonempty y); [apply os_path_join_nonempty, H|exact H].
Qed.

Lemma rlistdir_names (dironly : bool) :
  forall n : node,
    names_nonempty n = true ->
    Forall (fun x => nonempty x = true) (rlistdir_node dironly n).
Proof.
  intros [content|es] H; [constructor|].
  cbn [rlistdir_node]. cbn [names_nonempty] in H.
  induction es as [|[x c] es IHes]; [constructor|].
  cbn [forallb fst snd] in H. apply andb_prop in H as [Hx Hes].
  apply andb_prop in Hx as [Hx Hc].
  cbn [flat_map fst snd]. apply Forall_app. split; [|apply IHes, Hes].
  destruct ((negb dironly || is_dir c) && negb (_ishidden x)); [|constructor].
  constructor; [exact Hx|].
  apply Forall_forall. intros y Hy. apply in_map_iff in Hy as (z & <- & _).
  apply join_nonempty, Hx.
Qed.

Lemma os_path_split_prefix (p d b : string) :
  os_path_split p = (d, b) -> exists rest, p = d ++ rest.
Proof.
  unfold os_path_split. pose proof (cut_last_sep_eq p) as E.
  destruct (cut_last_sep p) as [h t]. simpl in E.
  destruct (rstrip_sep_decomp h) as [k K].
  destruct (rstrip_sep h) as [|x r]; intros [= <- <-].
  - exists t. symmetry. exact E.
  - exists (slashes k ++ t). rewrite <- append_assoc, <- K. symmetry. exact E.
Qed.

Lemma os_path_split_no_dirname (p b : string) : os_path_split p = ("", b) -> p = b.
Proof.
  unfold os_path_split. pose proof (cut_last_sep_eq p) as E.
  destruct (cut_last_sep p) as [h t]. simpl in E.
  destruct (rstrip_sep h) as [|x r]; intros H; [|discriminate H].
  injection H as H1 H2. subst h b. symmetry. exact E.
Qed.

Lemma substring_none (s : string) : substring 0 0 s = "".
Proof. destruct s; reflexivity. Qed.

Lemma recursive_prefix (d rest : string) :
  _isrecursive (substring 0 2 d) = true ->
  _isrecursive (substring 0 2 (d ++ rest)) = true.
Proof.
  destruct d as [|a [|b d]]; intros H.
  - discriminate.
  - unfold _isrecursive in H. simpl in H.
    destruct (Ascii.eqb a "*"); discriminate.
  - cbn [substring append] in *. rewrite substring_none in *. exact H.
Qed.

Lemma os_path_join_empty (x : string) : os_path_join "" x = x.
Proof. unfold os_path_join. destruct (startswith SEP x); reflexivity. Qed.

Lemma map_join_empty (l : list string) : map (os_path_join "") l = l.
Proof.
  induction l as [|x l IH]; [reflexivity|]. simpl map.
  rewrite os_path_join_empty, IH. reflexivity.
Qed.

Lemma all_rest_nonempty (l : list string) :
  Forall (fun x => nonempty x = true) l -> rest_nonempty l /\ ~ first_empty l.
Proof.
  intros H. destruct H as [|x l Hx Hl].
  - split; [constructor|intros []].
  - split; [exact Hl|simpl; congruence].
Qed.

Lemma all_nonempty_first (l : list string) (Q : Prop) :
  Forall (fun x => nonempty x = true) l ->
  rest_nonempty l /\ (first_empty l -> Q).
Proof.
  intros H. destruct (all_rest_nonempty l H) as [R N].
  split; [exact R|]. intros E. contradiction.
Qed.

(** The results for a list of directories of which only the first may be
    the empty one. *)
Lemma flat_map_rest_nonempty (F : string -> list string) (dirs : list string) :
  (forall dn, nonempty dn = true -> Forall (fun x => nonempty x = true) (F dn)) ->
  rest_nonempty (F "") ->
  rest_nonempty dirs ->
  rest_nonempty (flat_map F dirs) /\
  (first_empty (flat_map F dirs) -> first_empty dirs /\ first_empty (F "")).
Proof.
  intros HF H0 Hd. destruct dirs as [|dn dirs]; [split; [constructor|intros []]|].
  unfold rest_nonempty in Hd. cbn [tl] in Hd.
  assert (Hrest : Forall (fun x => nonempty x = true) (flat_map F dirs)).
  { induction Hd as [|d dirs Hd1 _ IH]; [constructor|].
    cbn [flat_map]. apply Forall_app. split; [apply HF, Hd1|exact IH]. }
  cbn [flat_map].
  assert (Hdn : rest_nonempty (F dn) /\ (first_empty (F dn) -> dn = "")).
  { destruct dn as [|c dn].
    - split; [exact H0|reflexivity].
    - destruct (all_rest_nonempty (F (String c dn)) (HF (String c dn) eq_refl)) as [R N].
      split; [exact R|]. intros E. contradiction. }
  destruct Hdn as [R E]. destruct (F dn) as [|s t] eqn:Fd.
  - cbn [app]. destruct (all_rest_nonempty _ Hrest) as [R' N']. split; [exact R'|].
    intros Hf. contradiction.
  - cbn [app]. split.
    + unfold rest_nonempty. cbn [tl]. apply Forall_app. split; [exact R|exact Hrest].
    + intros Hf. cbn [first_empty] in Hf. specialize (E Hf). subst dn.
      split; [reflexivity|]. rewrite Fd. exact Hf.
Qed.

Section Returns.

Variable fnmatchcase : string -> string -> bool.
Variable w : world.
Hypothesis Hw : names_nonempty (fs_root w) = true.

Lemma glob1_names (dirname pattern : string) (dironly : bool) :
  Forall (fun x => nonempty x = true) (_glob1 fnmatchcase w dirname pattern dironly).
Proof.
  unfold _glob1. pose proof (listdir_names w dirname dironly Hw) as H.
  rewrite Forall_forall in *. intros x Hx. apply filter_In in Hx as [Hx _].
  destruct (negb (_ishidden pattern)); [apply filter_In in Hx as [Hx _]|]; apply H, Hx.
Qed.

Lemma glob0_names (dirname basename : string) (dironly : bool) :
  nonempty dirname = false ->
  Forall (fun x => nonempty x = true) (_glob0 w dirname basename dironly).
Proof.
  intros Hd. unfold _glob0. destruct (nonempty basename) eqn:B.
  - destruct (lexists w (_join dirname basename)); repeat constructor. exact B.
  - destruct dirname; [|discriminate]. constructor.
Qed.

Lemma glob2_rest (dirname pattern : string) (dironly : bool) :
  rest_nonempty (_glob2 w dirname pattern dironly).
Proof.
  unfold _glob2, rest_nonempty, _rlistdir. cbn [tl].
  destruct (lookup_path w (if nonempty dirname then dirname else ".")) as [n|] eqn:E;
    [|constructor].
  apply rlistdir_names. eapply lookup_path_names; eassumption.
Qed.

(** Of the paths [_iglob] yields only the first may be empty, and only
    for a path that starts with [**]. *)
Lemma iglob_rest_nonempty (fuel : nat) (pathname : string) (dironly : bool) :
  rest_nonempty (iglob_fuel fnmatchcase w fuel pathname dironly) /\
  (first_empty (iglob_fuel fnmatchcase w fuel pathname dironly) ->
   _isrecursive (substring 0 2 pathname) = true).
Proof.
  revert pathname dironly. induction fuel as [|fuel IH]; intros pathname dironly;
    [split; [constructor|intros []]|].
  cbn [iglob_fuel].
  destruct (os_path_split pathname) as [dirname basename] eqn:S.
  destruct (negb (has_magic pathname)).
  { destruct pathname as [|c pathname].
    - injection S as <- <-. split; [constructor|intros []].
    - apply all_nonempty_first.
      destruct (nonempty basename);
        [destruct (lexists w (String c pathname))|destruct (isdir w dirname)];
        repeat constructor. }
  destruct (nonempty dirname) eqn:D; cbn [negb].
  2:{ destruct dirname; [|discriminate]. apply os_path_split_no_dirname in S. subst basename.
      destruct (_isrecursive pathname) eqn:R.
      - split; [apply glob2_rest|]. intros _.
        apply String.eqb_eq in R. subst pathname. reflexivity.
      - apply all_nonempty_first, glob1_names. }
  set (glob_in_dir :=
         if has_magic basename
         then if _isrecursive basename then _glob2 w else _glob1 fnmatchcase w
         else _glob0 w).
  set (F := fun dn : string => map (os_path_join dn) (glob_in_dir dn basename dironly)).
  assert (HF : forall dn, nonempty dn = true -> Forall (fun x => nonempty x = true) (F dn)).
  { intros dn Hdn. unfold F. apply Forall_forall. intros x Hx.
    apply in_map_iff in Hx as (y & <- & _). apply os_path_join_nonempty, Hdn. }
  assert (H0 : rest_nonempty (F "")).
  { unfold F. rewrite map_join_empty. unfold glob_in_dir.
    destruct (has_magic basename); [destruct (_isrecursive basename)|].
    - apply glob2_rest.
    - apply all_rest_nonempty, glob1_names.
    - apply all_rest_nonempty, glob0_names. reflexivity. }
  destruct (negb (dirname =? pathname) && has_magic dirname).
  - destruct (IH dirname true) as [Rd Ed].
    destruct (flat_map_rest_nonempty F _ HF H0 Rd) as [R E].
    split; [exact R|]. intros Hf. destruct (E Hf) as [Hfd _].
    destruct (os_path_split_prefix _ _ _ S) as [rest ->].
    apply recursive_prefix, Ed, Hfd.
  - assert (Rd : rest_nonempty [dirname]) by constructor.
    destruct (flat_map_rest_nonempty F _ HF H0 Rd) as [R E].
    split; [exact R|]. intros Hf. destruct (E Hf) as [Hfd _].
    cbn [first_empty] in Hfd. congruence.
Qed.

(** [glob] returns no empty path. *)
Lemma glob_glob_nonempty (pathname : string) :
  Forall (fun x => nonempty x = true) (glob_glob fnmatchcase w pathname).
Proof.
  unfold glob_glob, _iglob.
  destruct (iglob_rest_nonempty (S (String.length pathname)) pathname false) as [R E].
  destruct (iglob_fuel fnmatchcase w (S (String.length pathname)) pathname false)
    as [|s rest] eqn:G.
  - destruct (negb (nonempty pathname) || _isrecursive (substring 0 2 pathname));
      constructor.
  - unfold rest_nonempty in R. cbn [tl first_empty] in R, E.
    destruct (nonempty s) eqn:Ns.
    + destruct (negb (nonempty pathname) || _isrecursive (substring 0 2 pathname));
        constructor; assumption.
    + rewrite (E eq_refl), orb_true_r. exact R.
Qed.

(** With a working directory, [find_sources] returns a list for every
    base path and pattern; without one, it raises [OSError] as soon as
    [glob] returns a path. *)
Lemma find_sources_cases (base_path pattern : string) :
  let files := glob_glob fnmatchcase w (os_path_join base_path pattern) in
  find_sources fnmatchcase w base_path pattern
  = match files with
    | [] => Ok []
    | _ :: _ =>
        if cwd_there w then Ok (sorted (map (to_rel w) files)) else Raise OSError
    end.
Proof.
  cbv zeta. unfold find_sources. rewrite mapM_relpath_cases by apply glob_glob_nonempty.
  destruct (glob_glob fnmatchcase w (os_path_join base_path pattern)); [reflexivity|].
  destruct (cwd_there w); reflexivity.
Qed.

Lemma find_sources_returns (base_path pattern : string) :
  cwd_there w = true ->
  exists l, find_sources fnmatchcase w base_path pattern = Ok l.
Proof.
  intros C. rewrite find_sources_cases, C.
  destruct (glob_glob fnmatchcase w (os_path_join base_path pattern));
    eexists; reflexivity.
Qed.

End Returns.

(** * The claims *)




(** C2. Two runs in the same working directory, over file systems whose
    searched directories list the same names, in the same order or in
    another, build the same document, write the same file and print the
    same summary: the result is a function of the listings, and the
    order of a listing is taken out by [sorted]. *)
Theorem same_listing_same_document
  (fnmatchcase : string -> string -> bool) (w1 w2 : world) (r1 r2 : run) :
  fs_cwd w1 = fs_cwd w2 ->
  (forall d, In d searched_dirs ->
     Permutation (_listdir w1 d false) (_listdir w2 d false)) ->
  main fnmatchcase w1 = Ok r1 ->
  main fnmatchcase w2 = Ok r2 ->
  run_vcxproj r1 = run_vcxproj r2 /\
  read_file (run_world r1) output_name = read_file (run_world r2) output_name /\
  run_stdout r1 = run_stdout r2.
Proof.
  intros Hc Hl H1 H2.
  apply main_inv in H1 as (_ & Hs1 & Hv1 & Ho1 & Hr1).
  apply main_inv in H2 as (_ & Hs2 & Hv2 & Ho2 & Hr2).
  assert (E : run_sources r1 = run_sources r2).
  { rewrite Hs1, Hs2. unfold groups_of, discover_group. cbn [fst snd flat_map].
    rewrite !(discovered_permutation fnmatchcase w1 w2)
      by (exact Hc || (apply Hl; simpl; tauto)).
    reflexivity. }
  assert (V : run_vcxproj r1 = run_vcxproj r2) by (rewrite Hv1, Hv2, E; reflexivity).
  split; [exact V|]. split.
  - rewrite Hr1, Hr2, V. reflexivity.
  - rewrite Ho1, Ho2, E. reflexivity.
Qed.

(** [world_std] lists [b.c] before [a.c], [world_std_swapped] the other
    way round. *)
Lemma same_listing_same_document_witness :
  _listdir world_std std_dir false = ["b.c"; "a.c"] /\
  _listdir world_std_swapped std_dir false = ["a.c"; "b.c"] /\
  run_vcxproj (run_in world_std) = run_vcxproj (run_in world_std_swapped) /\
  read_file (run_world (run_in world_std)) output_name
  = read_file (run_world (run_in world_std_swapped)) output_name /\
  run_stdout (run_in world_std) = run_stdout (run_in world_std_swapped).
Proof.
  split; [reflexivity|]. split; [reflexivity|].
  apply (same_listing_same_document fnmatch_wild world_std world_std_swapped).
  - reflexivity.
  - intros d Hd. simpl in Hd.
    destruct Hd as [<-|[<-|[<-|[<-|[<-|[]]]]]];
      vm_compute; first [apply perm_swap | apply perm_nil].
  - vm_compute. reflexivity.
  - vm_compute. reflexivity.
Defined.






(** C5 (amended). [render] emits the header, then for each group, in the
    order of the list, its comment line, one include-entry per file in the
    order of the group and an empty line, then the footer. In a run the
    groups are the seven of [main] in the order of the script, the
    hand-declared ones before the discovered ones that follow them; the
    files of the standard library, PCRE2 and mbedtls groups are what
    [find_sources] returns for the directory of the group, in
    lexicographic order, and the files of the libuv group are what it
    returns for [libuv/src], in lexicographic order, followed by what it
    returns for [libuv/src/win], in lexicographic order. *)
Theorem render_keeps_order :
  (forall sources : list SourceGroup,
     render sources =
     VCXPROJ_HEADER
     ++ concat_map
          (fun group : SourceGroup =>
             comment_line (fst group) ++ concat_map include_entry (snd group) ++ nl)
          sources
     ++ VCXPROJ_FOOTER) /\
  (forall (fnmatchcase : string -> string -> bool) (w : world) (r : run),
     main fnmatchcase w = Ok r ->
     run_vcxproj r = render (run_sources r) /\
     exists std pcre uv uv_win mbedtls : list string,
       find_sources fnmatchcase w "vendor/hashlink/src/std" "*.c" = Ok std /\
       find_sources fnmatchcase w "vendor/hashlink/include/pcre" "*.c" = Ok pcre /\
       find_sources fnmatchcase w "vendor/hashlink/include/libuv/src" "*.c" = Ok uv /\
       find_sources fnmatchcase w "vendor/hashlink/include/libuv/src/win" "*.c"
       = Ok uv_win /\
       find_sources fnmatchcase w "vendor/hashlink/include/mbedtls/library" "*.c"
       = Ok mbedtls /\
       run_sources r =
       [ hlffi_wrapper; hashlink_core; (std_name, std); (pcre_name, pcre);
         plugin_wrappers; (uv_name, (uv ++ uv_win)%list); (mbedtls_name, mbedtls) ] /\
       is_sorted std /\ is_sorted pcre /\ is_sorted uv /\ is_sorted uv_win /\
       is_sorted mbedtls).
Proof.
  split.
  - intros sources. apply render_refines.
  - intros fnmatchcase w r H. apply main_inv in H as (_ & Hs & Hv & _).
    split; [exact Hv|].
    exists (discovered fnmatchcase w std_dir), (discovered fnmatchcase w pcre_dir),
      (discovered fnmatchcase w uv_dir), (discovered fnmatchcase w uv_win_dir),
      (discovered fnmatchcase w mbedtls_dir).
    pose proof (find_sources_discovered fnmatchcase w) as F.
    split; [apply (F std_dir); simpl; tauto|].
    split; [apply (F pcre_dir); simpl; tauto|].
    split; [apply (F uv_dir); simpl; tauto|].
    split; [apply (F uv_win_dir); simpl; tauto|].
    split; [apply (F mbedtls_dir); simpl; tauto|].
    split.
    + rewrite Hs. unfold groups_of, discover_group. cbn [fst snd flat_map].
      rewrite !app_nil_r. reflexivity.
    + repeat split; apply discovered_sorted.
Qed.

(** In [world_uv] the search of [libuv/src] finds [z.c] and the search
    of [libuv/src/win] finds [a.c]. *)
Lemma render_keeps_order_witness :
  find_sources fnmatch_wild world_uv "vendor/hashlink/include/libuv/src" "*.c"
  = Ok ["vendor\hashlink\include\libuv\src\z.c"] /\
  find_sources fnmatch_wild world_uv "vendor/hashlink/include/libuv/src/win" "*.c"
  = Ok ["vendor\hashlink\include\libuv\src\win\a.c"] /\
  run_vcxproj (run_in world_uv) = render (run_sources (run_in world_uv)) /\
  exists std pcre uv uv_win mbedtls : list string,
    find_sources fnmatch_wild world_uv "vendor/hashlink/src/std" "*.c" = Ok std /\
    find_sources fnmatch_wild world_uv "vendor/hashlink/include/pcre" "*.c" = Ok pcre /\
    find_sources fnmatch_wild world_uv "vendor/hashlink/include/libuv/src" "*.c"
    = Ok uv /\
    find_sources fnmatch_wild world_uv "vendor/hashlink/include/libuv/src/win" "*.c"
    = Ok uv_win /\
    find_sources fnmatch_wild world_uv "vendor/hashlink/include/mbedtls/library" "*.c"
    = Ok mbedtls /\
    run_sources (run_in world_uv) =
    [ hlffi_wrapper; hashlink_core; (std_name, std); (pcre_name, pcre);
      plugin_wrappers; (uv_name, (uv ++ uv_win)%list); (mbedtls_name, mbedtls) ] /\
    is_sorted std /\ is_sorted pcre /\ is_sorted uv /\ is_sorted uv_win /\
    is_sorted mbedtls.
Proof.
  split; [vm_compute; reflexivity|]. split; [vm_compute; reflexivity|].
  apply (proj2 render_keeps_order fnmatch_wild world_uv).
  vm_compute. reflexivity.
Defined.

(** With [z.c] next to the [win] folder of libuv, the libuv group lists
    [src\z.c] before [src\win\a.c]: it is not in lexicographic order. *)
Lemma libuv_group_not_sorted :
  main fnmatch_wild world_uv = Ok (run_in world_uv) /\
  In (uv_name,
      [ "vendor\hashlink\include\libuv\src\z.c";
        "vendor\hashlink\include\libuv\src\win\a.c" ])
     (run_sources (run_in world_uv)) /\
  ~ is_sorted [ "vendor\hashlink\include\libuv\src\z.c";
                "vendor\hashlink\include\libuv\src\win\a.c" ].
Proof.
  split; [vm_compute; reflexivity|]. split.
  - vm_compute. do 5 right. left. reflexivity.
  - intros H. unfold is_sorted in H. inversion H as [|a l _ Hd]; subst.
    inversion Hd as [|b l' Hle]; subst. vm_compute in Hle. discriminate.
Qed.




(** With a source file whose name has the control character U+0001, the
    document is not well-formed XML either. *)
Lemma control_character_breaks_xml :
  main fnmatch_wild world_ctl = Ok (run_in world_ctl) /\
  attr_plain (String "a" (String "001" ".c")) = true /\
  well_formed (run_vcxproj (run_in world_ctl)) = false.
Proof. repeat split; vm_compute; reflexivity. Qed.

(** C7. [main] writes the rendered text to the fixed output path through
    a stream opened with mode [w] and [newline='\r\n']: when the run ends,
    the file holds the document rendered from the groups the script has
    built, with every line feed turned into CR LF, whatever the file held
    before (the stream truncates it); every line of the file ends in
    CR LF, and reading the CR LF back gives the rendered document
    exactly. *)
Theorem written_file_is_crlf_document
  (fnmatchcase : string -> string -> bool) (w : world) (r : run) :
  main fnmatchcase w = Ok r ->
  exists sources,
    main_sources fnmatchcase w = Ok sources /\
    run_sources r = sources /\
    run_vcxproj r = render sources /\
    read_file (run_world r) output_name
    = Some (translate_newlines CRLF (render sources)) /\
    crlf_lines (translate_newlines CRLF (render sources)) = true /\
    untranslate_crlf (translate_newlines CRLF (render sources)) = render sources.
Proof.
  intros H. apply main_inv in H as (_ & Hs & Hv & _ & Hr).
  exists (groups_of fnmatchcase w).
  split; [apply main_sources_eq|]. split; [exact Hs|].
  rewrite Hv, Hs in Hr. rewrite Hv, Hs.
  split; [reflexivity|]. split; [exact Hr|].
  split; [apply render_crlf_lines|apply untranslate_translate].
Qed.

(** The output file of [world_std] held [stale] before the run; after it
    the file holds the header, the groups with the two files of the std
    subtree, and the footer, with CR LF. *)
Lemma written_file_is_crlf_document_witness :
  read_file world_std output_name = Some "stale" /\
  read_file (run_world (run_in world_std)) output_name
  = Some (translate_newlines CRLF
            (VCXPROJ_HEADER
             ++ group_block hlffi_wrapper
             ++ group_block hashlink_core
             ++ ("    <!-- HashLink standard library -->" ++ nl
                 ++ "    <ClCompile Include=" ++ dq ++ "vendor\hashlink\src\std\a.c"
                 ++ dq ++ " />" ++ nl
                 ++ "    <ClCompile Include=" ++ dq ++ "vendor\hashlink\src\std\b.c"
                 ++ dq ++ " />" ++ nl
                 ++ nl)
             ++ ("    <!-- PCRE2 regex library -->" ++ nl ++ nl)
             ++ group_block plugin_wrappers
             ++ ("    <!-- libuv sources (embedded) -->" ++ nl ++ nl)
             ++ ("    <!-- mbedtls sources (embedded - TLS/SSL support) -->" ++ nl ++ nl)
             ++ VCXPROJ_FOOTER)) /\
  exists sources,
    main_sources fnmatch_wild world_std = Ok sources /\
    run_sources (run_in world_std) = sources /\
    run_vcxproj (run_in world_std) = render sources /\
    read_file (run_world (run_in world_std)) output_name
    = Some (translate_newlines CRLF (render sources)) /\
    crlf_lines (translate_newlines CRLF (render sources)) = true /\
    untranslate_crlf (translate_newlines CRLF (render sources)) = render sources.
Proof.
  split; [reflexivity|]. split; [vm_compute; reflexivity|].
  apply (written_file_is_crlf_document fnmatch_wild world_std).
  vm_compute. reflexivity.
Defined.

(** C8. In a run, a discovered group whose directories are absent, or are
    there without a name that matches, has no file: its block in the
    document is its comment line and the empty line that ends a group,
    with no include-entry, at the place of the group. *)
Theorem empty_group_keeps_comment
  (fnmatchcase : string -> string -> bool) (w : world) (r : run)
  (name : string) (dirs : list string) :
  main fnmatchcase w = Ok r ->
  In (name, dirs) discovered_groups ->
  (forall d, In d dirs -> lexists w d = false \/ matching fnmatchcase w d = []) ->
  exists before after : list SourceGroup,
    run_sources r = (before ++ (name, []) :: after)%list /\
    run_vcxproj r =
      VCXPROJ_HEADER ++ concat_map group_block before
      ++ (comment_line name ++ nl)
      ++ concat_map group_block after ++ VCXPROJ_FOOTER /\
    count_entry_lines (comment_line name ++ nl) = 0.
Proof.
  intros H Hg Hd. apply main_inv in H as (_ & Hs & Hv & _).
  assert (E : flat_map (discovered fnmatchcase w) dirs = []).
  { assert (E : forall d, In d dirs -> discovered fnmatchcase w d = []).
    { intros d Hin. apply discovered_nothing.
      destruct (Hd d Hin) as [Ha|Hm]; [|exact Hm].
      apply matching_absent; [|exact Ha]. apply searched_dirs_nonempty.
      simpl in Hg.
      repeat (destruct Hg as [[= <- <-]|Hg];
              [simpl in Hin; simpl; tauto|]).
      contradiction. }
    clear Hd Hg. induction dirs as [|d dirs IH]; [reflexivity|].
    cbn [flat_map]. rewrite (E d) by (left; reflexivity).
    apply IH. intros d' Hd'. apply E. right. exact Hd'. }
  pose proof (discover_group_in fnmatchcase w (name, dirs) Hg) as Hin.
  unfold discover_group in Hin. cbn [fst snd] in Hin. rewrite E, <- Hs in Hin.
  apply in_split in Hin as (before & after & Hsplit).
  exists before, after. split; [exact Hsplit|]. split.
  - rewrite Hv, Hsplit. apply render_split.
  - simpl in Hg.
    destruct Hg as [[= <- <-]|[[= <- <-]|[[= <- <-]|[[= <- <-]|[]]]]]; reflexivity.
Qed.

(** In [world_std] the PCRE2 directory is absent. *)
Lemma empty_group_keeps_comment_witness :
  exists before after : list SourceGroup,
    run_sources (run_in world_std) = (before ++ (pcre_name, []) :: after)%list /\
    run_vcxproj (run_in world_std) =
      VCXPROJ_HEADER ++ concat_map group_block before
      ++ (comment_line pcre_name ++ nl)
      ++ concat_map group_block after ++ VCXPROJ_FOOTER /\
    count_entry_lines (comment_line pcre_name ++ nl) = 0.
Proof.
  apply (empty_group_keeps_comment fnmatch_wild world_std (run_in world_std)
           pcre_name [pcre_dir]).
  - vm_compute. reflexivity.
  - simpl. tauto.
  - intros d [<-|[]]. left. reflexivity.
Defined.

(** C9 (amended). A run prints the summary: the line of the output
    file, the total file count, one count line per group in order, and
    the instruction to rename the output file. The printed total is the
    sum of the printed counts of the groups; when no path has a [<], it
    is the number of include-entry lines of the document. *)
Theorem summary_reports_counts
  (fnmatchcase : string -> string -> bool) (w : world) (r : run) :
  main fnmatchcase w = Ok r ->
  let counts := map (fun group : SourceGroup => List.length (snd group)) (run_sources r) in
  let total := list_sum counts in
  run_stdout r =
    ("Generated hlffi_monolithic.vcxproj" ++ nl)
    ++ ("Total source files: " ++ str_of_nat total ++ nl)
    ++ concat_map
         (fun group : SourceGroup =>
            "  " ++ fst group ++ ": " ++ str_of_nat (List.length (snd group))
            ++ " files" ++ nl)
         (run_sources r)
    ++ (nl ++ "To use:" ++ nl)
    ++ ("  mv hlffi_monolithic.vcxproj hlffi.vcxproj" ++ nl)
  /\ (line_safe (run_sources r) -> count_entry_lines (run_vcxproj r) = total).
Proof.
  intros H. apply main_inv in H as (_ & _ & Hv & Ho & _).
  split.
  - rewrite Ho. apply summary_refines.
  - intros Hs. rewrite Hv. apply render_entry_count, Hs.
Qed.

(** The run in [world_std] prints the total 17 for 6, 7, 2, 0, 2, 0 and 0
    files, and its document has 17 include-entry lines. *)
Lemma summary_reports_counts_witness :
  main fnmatch_wild world_std = Ok (run_in world_std) /\
  map (fun group : SourceGroup => List.length (snd group))
    (run_sources (run_in world_std)) = [6; 7; 2; 0; 2; 0; 0] /\
  run_stdout (run_in world_std) =
    "Generated hlffi_monolithic.vcxproj" ++ nl
    ++ "Total source files: 17" ++ nl
    ++ "  HLFFI wrapper code: 6 files" ++ nl
    ++ "  HashLink VM core: 7 files" ++ nl
    ++ "  HashLink standard library: 2 files" ++ nl
    ++ "  PCRE2 regex library: 0 files" ++ nl
    ++ "  Plugin wrappers: 2 files" ++ nl
    ++ "  libuv sources (embedded): 0 files" ++ nl
    ++ "  mbedtls sources (embedded - TLS/SSL support): 0 files" ++ nl
    ++ nl ++ "To use:" ++ nl
    ++ "  mv hlffi_monolithic.vcxproj hlffi.vcxproj" ++ nl /\
  count_entry_lines (run_vcxproj (run_in world_std)) = 17.
Proof.
  assert (E : main fnmatch_wild world_std = Ok (run_in world_std))
    by (vm_compute; reflexivity).
  split; [exact E|]. split; [vm_compute; reflexivity|].
  destruct (summary_reports_counts fnmatch_wild world_std (run_in world_std) E)
    as [Ho H].
  split; [rewrite Ho; vm_compute; reflexivity|].
  rewrite H; [vm_compute; reflexivity|].
  unfold line_safe.
  replace (run_sources (run_in world_std))
    with (groups_of fnmatch_wild world_std) by (vm_compute; reflexivity).
  vm_compute groups_of. forall_by_computation.
Defined.

(** With a source file whose name has a line feed and then the start of
    an include-entry, the one entry written for it is two lines that
    start as an include-entry: the run prints the total 16 and the
    document has 17 include-entry lines. *)
Lemma line_feed_name_counts_twice :
  main fnmatch_wild world_lf = Ok (run_in world_lf) /\
  map (fun group : SourceGroup => List.length (snd group))
    (run_sources (run_in world_lf)) = [6; 7; 1; 0; 2; 0; 0] /\
  run_stdout (run_in world_lf) =
    "Generated hlffi_monolithic.vcxproj" ++ nl
    ++ "Total source files: 16" ++ nl
    ++ "  HLFFI wrapper code: 6 files" ++ nl
    ++ "  HashLink VM core: 7 files" ++ nl
    ++ "  HashLink standard library: 1 files" ++ nl
    ++ "  PCRE2 regex library: 0 files" ++ nl
    ++ "  Plugin wrappers: 2 files" ++ nl
    ++ "  libuv sources (embedded): 0 files" ++ nl
    ++ "  mbedtls sources (embedded - TLS/SSL support): 0 files" ++ nl
    ++ nl ++ "To use:" ++ nl
    ++ "  mv hlffi_monolithic.vcxproj hlffi.vcxproj" ++ nl /\
  count_entry_lines (run_vcxproj (run_in world_lf)) = 17.
Proof. repeat split; vm_compute; reflexivity. Qed.

(** C10. In a run, each hand-declared group is among the groups as it is
    written in the script, and the include-entry of each of its files is
    in the document: the file system is not asked about these files.
    Every path of a discovered group comes from a name that the listing
    of one of its directories returned and that matches [*.c]. *)
Theorem explicit_groups_written_verbatim
  (fnmatchcase : string -> string -> bool) (w : world) (r : run) :
  main fnmatchcase w = Ok r ->
  (forall group : SourceGroup,
     In group explicit_groups ->
     In group (run_sources r) /\
     forall f, In f (snd group) ->
       exists pre post, run_vcxproj r = pre ++ include_entry f ++ post) /\
  (forall name dirs,
     In (name, dirs) discovered_groups ->
     exists files,
       In (name, files) (run_sources r) /\
       forall p, In p files ->
         exists d entry,
           In d dirs /\ In entry (_listdir w d false) /\
           fnmatchcase entry "*.c" = true /\
           p = to_rel w (os_path_join d entry)).
Proof.
  intros H. apply main_inv in H as (_ & Hs & Hv & _). split.
  - intros group Hg.
    assert (Hin : In group (run_sources r)).
    { rewrite Hs. unfold groups_of. simpl in Hg.
      destruct Hg as [<-|[<-|[<-|[]]]]; cbn [In]; tauto. }
    split; [exact Hin|]. intros f Hf. rewrite Hv.
    eapply render_has_entry; eassumption.
  - intros name dirs Hg.
    exists (flat_map (discovered fnmatchcase w) dirs). split.
    + rewrite Hs. apply (discover_group_in fnmatchcase w (name, dirs) Hg).
    + intros p Hp. apply in_flat_map in Hp as (d & Hd & Hp).
      apply discovered_listed in Hp as (entry & He & Hm & ->).
      exists d, entry. tauto.
Qed.

(** In [world_bare] none of the hand-declared files exists, and their
    include-entries are written all the same. *)
Lemma explicit_groups_written_verbatim_witness :
  lexists world_bare "src/hlffi_core.c" = false /\
  lexists world_bare "src\hlffi_core.c" = false /\
  (forall group : SourceGroup,
     In group explicit_groups ->
     In group (run_sources (run_in world_bare)) /\
     forall f, In f (snd group) ->
       exists pre post,
         run_vcxproj (run_in world_bare) = pre ++ include_entry f ++ post).
Proof.
  split; [reflexivity|]. split; [reflexivity|].
  apply (explicit_groups_written_verbatim fnmatch_wild world_bare (run_in world_bare)).
  vm_compute. reflexivity.
Defined.

(** * More of the script *)

(** ** What [main] raises *)



(** ** One path per result of [glob] *)

Lemma mapM_relpath_ok (w : world) (files l : list string) :
  mapM (fun f => r <- os_path_relpath (getcwd w) f "." ;; Ok (replace "/" "\" r)) files
  = Ok l ->
  l = map (to_rel w) files.
Proof.
  revert l. induction files as [|f files IH]; intros l H.
  - injection H as <-. reflexivity.
  - cbn [mapM] in H.
    destruct (os_path_relpath (getcwd w) f ".") as [rel|e] eqn:R; [|discriminate].
    cbn [bind] in H.
    destruct (mapM _ files) as [rels|e]; [|discriminate].
    cbn [bind] in H. injection H as <-.
    apply os_path_relpath_ok in R as (_ & _ & ->).
    rewrite (IH rels eq_refl). reflexivity.
Qed.

(** X2. The list [find_sources] returns has one path for each path of
    [glob], made relative and written with backslashes: sorting reorders
    the results, it drops none and merges no two that are equal. *)
Theorem find_sources_keeps_every_result
  (fnmatchcase : string -> string -> bool) (w : world)
  (base_path pattern : string) (l : list string) :
  find_sources fnmatchcase w base_path pattern = Ok l ->
  Permutation
    (map (to_rel w) (glob_glob fnmatchcase w (os_path_join base_path pattern))) l /\
  List.length l
  = List.length (glob_glob fnmatchcase w (os_path_join base_path pattern)).
Proof.
  unfold find_sources. intros H.
  destruct (mapM _ (glob_glob fnmatchcase w (os_path_join base_path pattern)))
    as [rel_files|e] eqn:M; [|discriminate].
  cbn [bind] in H. injection H as <-.
  apply mapM_relpath_ok in M. subst rel_files. split.
  - apply sorted_perm.
  - rewrite sorted_length. apply length_map.
Qed.

Lemma find_sources_keeps_every_result_witness :
  glob_glob fnmatch_wild world_std (os_path_join std_dir "*.c")
  = ["vendor/hashlink/src/std/b.c"; "vendor/hashlink/src/std/a.c"] /\
  Permutation
    (map (to_rel world_std)
       (glob_glob fnmatch_wild world_std (os_path_join std_dir "*.c")))
    ["vendor\hashlink\src\std\a.c"; "vendor\hashlink\src\std\b.c"] /\
  List.length ["vendor\hashlink\src\std\a.c"; "vendor\hashlink\src\std\b.c"]
  = List.length (glob_glob fnmatch_wild world_std (os_path_join std_dir "*.c")).
Proof.
  split; [vm_compute; reflexivity|].
  apply (find_sources_keeps_every_result fnmatch_wild world_std std_dir "*.c").
  vm_compute. reflexivity.
Defined.

(** ** Paths of plain names *)

Lemma split_rejoin (s : string) :
  hd "" (split SEP s) ++ sep_each (tl (split SEP s)) = s.
Proof.
  induction s as [|c s IH]; [reflexivity|]. cbn [split].
  destruct (Ascii.eqb_spec c SEP) as [->|_].
  - cbn [hd tl]. pose proof (split_not_nil SEP s) as N.
    destruct (split SEP s) as [|h t]; [contradiction|].
    unfold sep_each. rewrite concat_map_cons. fold (sep_each t).
    cbn [hd tl] in IH. cbn [append]. rewrite IH. reflexivity.
  - pose proof (split_not_nil SEP s) as N.
    destruct (split SEP s) as [|h t]; [contradiction|].
    cbn [hd tl] in *. cbn [append]. rewrite IH. reflexivity.
Qed.

Lemma commonprefix_len_app (l q : list string) :
  commonprefix_len l (l ++ q)%list = List.length l.
Proof.
  induction l as [|a l IH]; [destruct q; reflexivity|].
  cbn [app commonprefix_len List.length]. rewrite String.eqb_refl, IH. reflexivity.
Qed.

Lemma skipn_app_exact {A : Type} (l q : list A) : skipn (List.length l) (l ++ q)%list = q.
Proof. induction l as [|a l IH]; [reflexivity|exact IH]. Qed.

Lemma proper_head_relative (f : string) :
  Forall (fun c => proper c = true) (split SEP f) -> startswith SEP f = false.
Proof.
  destruct f as [|c f]; [reflexivity|]. cbn [split startswith].
  destruct (Ascii.eqb c SEP); [|reflexivity].
  intros H. inversion H as [|? ? Hh _]; subst. discriminate.
Qed.

Lemma path_list_abspath_dot (cwd : string) :
  startswith SEP cwd = true ->
  path_list (abspath_in cwd ".")
  = rev (fold_left (normpath_step true) (split SEP cwd) []).
Proof.
  intros Hcwd.
  assert (Hn : nonempty cwd = true) by (destruct cwd; [discriminate|reflexivity]).
  unfold abspath_in. change (startswith SEP ".") with false. cbv iota.
  rewrite path_list_normpath by (apply startswith_join, Hcwd).
  unfold normpath_comps. rewrite normpath_fold_join by (assumption || reflexivity).
  reflexivity.
Qed.

(** A path of plain names is its own relative path. *)
Lemma relpath_of_plain (cwd f : string) :
  startswith SEP cwd = true ->
  Forall (fun c => proper c = true) (split SEP f) ->
  relpath_of cwd f "." = f.
Proof.
  intros Hcwd Hf.
  assert (Hn : nonempty cwd = true) by (destruct cwd; [discriminate|reflexivity]).
  pose proof (proper_head_relative f Hf) as Hrel.
  unfold relpath_of, rel_list.
  rewrite path_list_abspath_dot by exact Hcwd.
  set (srev := fold_left (normpath_step true) (split SEP cwd) []).
  assert (P : path_list (abspath_in cwd f) = (rev srev ++ split SEP f)%list).
  { unfold abspath_in. rewrite Hrel.
    rewrite path_list_normpath by (apply startswith_join, Hcwd).
    unfold normpath_comps. rewrite normpath_fold_join by assumption.
    fold srev. rewrite normpath_fold_names by exact Hf.
    rewrite rev_app_distr, rev_involutive. reflexivity. }
  rewrite P, commonprefix_len_app, Nat.sub_diag, skipn_app_exact. cbn [repeat app].
  pose proof (split_rejoin f) as R. pose proof (split_not_nil SEP f) as N.
  destruct (split SEP f) as [|a p]; [contradiction|].
  apply Forall_cons_iff in Hf as [Ha Hp]. cbn [hd tl] in R.
  rewrite join_all_sep_each; [exact R| | |].
  - apply proper_spec in Ha. tauto.
  - apply endswith_contains. apply proper_spec in Ha. tauto.
  - eapply Forall_impl; [|exact Hp]. intros c. apply proper_rel_comp.
Qed.

Lemma replace_append (a b : ascii) (x y : string) :
  replace a b (x ++ y) = replace a b x ++ replace a b y.
Proof. induction x as [|c x IH]; [reflexivity|]. simpl. rewrite IH. reflexivity. Qed.

Lemma replace_absent (a b : ascii) (s : string) :
  contains a s = false -> replace a b s = s.
Proof.
  induction s as [|c s IH]; [reflexivity|]. simpl. intros H.
  apply orb_false_elim in H as [Hc Hs]. rewrite Hc, (IH Hs). reflexivity.
Qed.

Lemma proper_path_shape (d : string) :
  Forall (fun c => proper c = true) (split SEP d) ->
  nonempty d = true /\ endswith SEP d = false.
Proof.
  intros H. split.
  - destruct d; [inversion H; discriminate|reflexivity].
  - destruct (endswith SEP d) eqn:E; [|reflexivity].
    apply endswith_decomp in E as [d' ->].
    rewrite split_app_sep in H. apply Forall_app in H as [_ H].
    inversion H; discriminate.
Qed.

Lemma join_plain (d name : string) :
  Forall (fun c => proper c = true) (split SEP d) -> proper name = true ->
  os_path_join d name = d ++ String SEP name /\
  Forall (fun c => proper c = true) (split SEP (d ++ String SEP name)).
Proof.
  intros Hd Hn. destruct (proper_path_shape d Hd) as [Hne He].
  pose proof (proper_spec name Hn) as (_ & Hs & _). split.
  - unfold os_path_join. rewrite (startswith_contains _ _ Hs), Hne, He. reflexivity.
  - rewrite split_app_sep, (split_sep_free SEP name Hs).
    apply Forall_app. split; [exact Hd|]. constructor; [exact Hn|constructor].
Qed.

(** The entry [name] of the directory [d] is written as [d], with
    backslashes, a backslash and [name], wherever the working directory
    is. *)
Lemma to_rel_plain (w : world) (d name : string) :
  Forall (fun c => proper c = true) (split SEP d) -> proper name = true ->
  to_rel w (os_path_join d name) = win_path d name.
Proof.
  intros Hd Hn. destruct (join_plain d name Hd Hn) as [-> Hp].
  unfold to_rel, win_path. rewrite relpath_of_plain by (reflexivity || exact Hp).
  change (d ++ String SEP name) with (d ++ "/" ++ name).
  rewrite !replace_append. apply proper_spec in Hn as (_ & Hs & _).
  rewrite (replace_absent "/" "\" name Hs). reflexivity.
Qed.

Lemma dir_of_plain (d : string) :
  Forall (fun c => proper c = true) (split SEP d) -> dir_of d = d.
Proof.
  intros H. destruct (proper_path_shape d H) as [Hne He].
  unfold dir_of. rewrite rstrip_sep_endswith by assumption.
  destruct d; reflexivity.
Qed.

Lemma glob1_sublist (fnmatchcase : string -> string -> bool) (w : world)
  (d pattern : string) (P : string -> Prop) :
  Forall P (_listdir w d false) -> Forall P (_glob1 fnmatchcase w d pattern false).
Proof.
  intros H. rewrite Forall_forall in *. intros x Hx.
  apply glob1_listed in Hx as [Hx _]. apply H, Hx.
Qed.



Lemma append_cancel_l (a x y : string) : a ++ x = a ++ y -> x = y.
Proof. induction a as [|c a IH]; simpl; [tauto|]. intros [= H]. apply IH, H. Qed.

Lemma NoDup_map_injective {A B : Type} (f : A -> B) (l : list A) :
  (forall x y, f x = f y -> x = y) -> NoDup l -> NoDup (map f l).
Proof.
  intros Hf. induction 1 as [|a l Ha _ IH]; [constructor|].
  cbn [map]. constructor; [|exact IH].
  intros Hin. apply in_map_iff in Hin as (b & E & Hb).
  apply Hf in E. subst b. contradiction.
Qed.

Lemma glob1_NoDup (fnmatchcase : string -> string -> bool) (w : world)
  (d pattern : string) :
  NoDup (_listdir w d false) -> NoDup (_glob1 fnmatchcase w d pattern false).
Proof.
  intros H. unfold _glob1. apply NoDup_filter.
  destruct (negb (_ishidden pattern)); [apply NoDup_filter|]; exact H.
Qed.



(** ** The paths of [glob] exist *)

Lemma lookup_entry_listed (name : string) (es : list (string * node)) :
  In name (map fst es) -> exists n, lookup_entry name es = Some n.
Proof.
  induction es as [|[x m] es IH]; [intros []|]. cbn [map fst In lookup_entry].
  destruct (String.eqb_spec x name) as [->|N].
  - intros _. exists m. reflexivity.
  - intros [E|H]; [contradiction|apply IH, H].
Qed.

Lemma walk_name (name : string) (es : list (string * node)) (up : list node) :
  proper name = true ->
  walk [name] (Dir es :: up) =
  match lookup_entry name es with
  | Some n => Some (n :: Dir es :: up)
  | None => None
  end.
Proof.
  intros H. apply proper_spec in H as (Hn & _ & Hd & Hdd).
  cbn [walk]. apply String.eqb_neq in Hd, Hdd. rewrite Hd, Hdd.
  destruct name; [discriminate|]. cbn [String.eqb orb].
  destruct (lookup_entry (String a name) es); reflexivity.
Qed.

Lemma walk_blank (st st' : list node) : walk [""] st = Some st' -> st' = st.
Proof.
  cbn [walk]. destruct st as [|[c|es] up]; try discriminate.
  cbn. intros [= <-]. reflexivity.
Qed.

Lemma lookup_path_nonempty (w : world) (path : string) :
  nonempty path = true ->
  lookup_path w path =
  match (if startswith SEP path then Some [fs_root w] else cwd_stack w) with
  | Some st =>
      match walk (split SEP path) st with
      | Some (n :: _) => Some n
      | _ => None
      end
  | None => None
  end.
Proof. destruct path; [discriminate|reflexivity]. Qed.

Lemma startswith_append (c : ascii) (a x : string) :
  nonempty a = true -> startswith c (a ++ x) = startswith c a.
Proof. destruct a; [discriminate|reflexivity]. Qed.

(** The components of [join(d, name)]: those of [d], without the empty
    one a final slash gives, then [name]. *)
Lemma split_join_name (d name : string) :
  nonempty d = true -> contains SEP name = false ->
  startswith SEP (os_path_join d name) = startswith SEP d /\
  exists comps,
    split SEP (os_path_join d name) = (comps ++ [name])%list /\
    (split SEP d = comps \/ split SEP d = (comps ++ [""])%list).
Proof.
  intros Hne Hs. unfold os_path_join.
  rewrite (startswith_contains _ _ Hs), Hne. cbn [negb orb].
  destruct (endswith SEP d) eqn:E.
  - split; [apply startswith_append, Hne|].
    apply endswith_decomp in E as [d' ->]. exists (split SEP d'). split.
    + rewrite append_assoc. cbn [append].
      rewrite split_app_sep, (split_sep_free SEP name Hs). reflexivity.
    + right. rewrite split_app_sep. reflexivity.
  - split; [apply startswith_append, Hne|].
    exists (split SEP d). split; [|left; reflexivity].
    rewrite split_app_sep, (split_sep_free SEP name Hs). reflexivity.
Qed.

(** An entry of a directory is found under the joined path. *)
Lemma lookup_child (w : world) (d name : string) (es : list (string * node)) (n : node) :
  nonempty d = true -> lookup_path w d = Some (Dir es) ->
  lookup_entry name es = Some n -> proper name = true ->
  lookup_path w (os_path_join d name) = Some n.
Proof.
  intros Hne Hd He Hn. pose proof (proper_spec name Hn) as (_ & Hs & _).
  destruct (split_join_name d name Hne Hs) as (Hst & comps & Hj & Hc).
  rewrite lookup_path_nonempty in Hd by exact Hne.
  rewrite lookup_path_nonempty by (apply os_path_join_nonempty, Hne).
  rewrite Hst, Hj.
  destruct (if startswith SEP d then Some [fs_root w] else cwd_stack w) as [st|];
    [|discriminate].
  rewrite walk_app.
  assert (W : exists up, walk comps st = Some (Dir es :: up)).
  { destruct Hc as [Hc|Hc]; rewrite Hc in Hd.
    - destruct (walk comps st) as [[|m up]|]; try discriminate.
      injection Hd as ->. exists up. reflexivity.
    - rewrite walk_app in Hd.
      destruct (walk comps st) as [st1|]; [|discriminate].
      destruct (walk [""] st1) as [[|m up]|] eqn:B; try discriminate.
      injection Hd as ->. apply walk_blank in B. subst st1. exists up. reflexivity. }
  destruct W as [up ->]. rewrite walk_name, He by exact Hn. reflexivity.
Qed.

(** X5. For a base path that names a directory and a one-segment
    pattern, in a directory whose entries have plain names, every path of
    the list [find_sources] returns is made from a path that exists in the
    file system (as a file or as a directory) when the search runs. *)
Theorem find_sources_paths_exist
  (fnmatchcase : string -> string -> bool) (w : world)
  (base_path pattern : string) (l : list string) :
  literal_path base_path = true -> segment_pattern pattern = true ->
  Forall (fun name => proper name = true) (_listdir w (dir_of base_path) false) ->
  find_sources fnmatchcase w base_path pattern = Ok l ->
  forall p, In p l ->
    exists f, lexists w f = true /\
      In f (glob_glob fnmatchcase w (os_path_join base_path pattern)) /\
      p = to_rel w f.
Proof.
  intros Hl Hp Hnames H p Hin.
  pose proof (literal_path_spec _ Hl) as [Hne _].
  pose proof (dir_of_nonempty _ Hne) as Hdn.
  apply find_sources_segment_ok in H; [|assumption|assumption]. subst l.
  apply (proj1 (sorted_In _ _)), in_map_iff in Hin as (name & <- & Hname).
  exists (os_path_join (dir_of base_path) name).
  split; [|split; [|reflexivity]].
  - apply glob1_listed in Hname as [Hlisted _].
    assert (Hproper : proper name = true)
      by (rewrite Forall_forall in Hnames; apply Hnames, Hlisted).
    unfold _listdir in Hlisted. rewrite Hdn in Hlisted.
    destruct (lookup_path w (dir_of base_path)) as [[c|es]|] eqn:E;
      try contradiction.
    assert (Hin : In name (map fst es)).
    { apply in_map_iff in Hlisted as (e & <- & He).
      apply filter_In in He as [He _]. apply in_map, He. }
    destruct (lookup_entry_listed name es Hin) as [n Hn].
    unfold lexists. rewrite (lookup_child w _ name es n Hdn E Hn Hproper).
    reflexivity.
  - rewrite glob_segment by assumption. apply in_map, Hname.
Qed.

(** In [world_deep] the directory [dir.c] matches [*.c] as the file [a.c] does. *)
Lemma find_sources_paths_exist_witness :
  find_sources fnmatch_wild world_deep std_dir "*.c"
  = Ok ["vendor\hashlink\src\std\a.c"; "vendor\hashlink\src\std\dir.c"] /\
  isdir world_deep "vendor/hashlink/src/std/dir.c" = true /\
  forall p, In p ["vendor\hashlink\src\std\a.c"; "vendor\hashlink\src\std\dir.c"] ->
    exists f, lexists world_deep f = true /\
      In f (glob_glob fnmatch_wild world_deep (os_path_join std_dir "*.c")) /\
      p = to_rel world_deep f.
Proof.
  split; [vm_compute; reflexivity|]. split; [reflexivity|].
  apply (find_sources_paths_exist fnmatch_wild world_deep std_dir "*.c").
  - reflexivity.
  - reflexivity.
  - vm_compute. forall_by_computation.
  - vm_compute. reflexivity.
Defined.

(** ** What [main] leaves alone *)

Lemma lookup_set_entry_other (x name : string) (n : node) (es : list (string * node)) :
  x <> name -> lookup_entry x (set_entry name n es) = lookup_entry x es.
Proof.
  intros N. induction es as [|[y m] es IH]; cbn [set_entry lookup_entry].
  - destruct (String.eqb_spec name x); [congruence|reflexivity].
  - destruct (String.eqb_spec y name) as [->|Ny]; cbn [lookup_entry].
    + destruct (String.eqb_spec name x); [congruence|reflexivity].
    + destruct (y =? x); [reflexivity|exact IH].
Qed.

Section UpdateElsewhere.

Variable name : string.
Variable f : list (string * node) -> result (list (string * node)).

(** [f] puts a file under [name], where no directory was, and keeps the
    other entries. *)
Hypothesis f_sets : forall es es', f es = Ok es' ->
  (forall x, x <> name -> lookup_entry x es' = lookup_entry x es) /\
  (exists c, lookup_entry name es' = Some (File c)) /\
  (forall es0, lookup_entry name es <> Some (Dir es0)).

Lemma update_dir_elsewhere (path : list string) (n n' : node) :
  update_dir path f n = Ok n' ->
  forall names,
    dir_at names n' = dir_at names n /\
    (names <> (path ++ [name])%list -> file_at names n' = file_at names n).
Proof.
  revert n n'. induction path as [|c p IH]; intros [content|es] n' H names;
    try discriminate.
  - cbn [update_dir] in H. destruct (f es) as [es'|e] eqn:F; [|discriminate].
    injection H as <-. destruct (f_sets _ _ F) as (Ho & [c Hc] & Hn).
    destruct names as [|x rest]; [split; reflexivity|].
    unfold dir_at, file_at. cbn [node_at].
    destruct (String.eqb_spec x name) as [->|N].
    + rewrite Hc.
      destruct (lookup_entry name es) as [[c0|es0]|] eqn:L;
        [|exfalso; exact (Hn es0 eq_refl)|];
        (destruct rest; cbn [node_at];
         [split; [reflexivity|intros Hx; exfalso; apply Hx; reflexivity]
         |split; reflexivity]).
    + rewrite (Ho x N). split; reflexivity.
  - cbn [update_dir] in H.
    destruct (lookup_entry c es) as [child|] eqn:L; [|discriminate].
    destruct (update_dir p f child) as [child'|e] eqn:U; [|discriminate].
    cbn [bind] in H. injection H as <-.
    destruct names as [|x rest]; [split; reflexivity|].
    unfold dir_at, file_at. cbn [node_at].
    destruct (String.eqb_spec x c) as [->|N].
    + rewrite lookup_set_entry, L. destruct (IH child child' U rest) as [Hd Hf].
      unfold dir_at, file_at in Hd, Hf. split; [exact Hd|].
      intros Hx. apply Hf. intros ->. apply Hx. reflexivity.
    + rewrite (lookup_set_entry_other x c _ _ N). split; reflexivity.
Qed.

End UpdateElsewhere.

Lemma open_w_elsewhere (w w1 : world) (name : string) :
  open_w w name = Ok w1 ->
  fs_cwd w1 = fs_cwd w /\
  forall names,
    dir_at names (fs_root w1) = dir_at names (fs_root w) /\
    (names <> (fs_cwd w ++ [name])%list ->
     file_at names (fs_root w1) = file_at names (fs_root w)).
Proof.
  unfold open_w, update_cwd.
  destruct (update_dir _ _ _) as [root1|e] eqn:U; [|discriminate].
  cbn [bind]. intros [= <-]. split; [reflexivity|]. cbn [fs_root fs_cwd].
  refine (update_dir_elsewhere name _ _ _ _ _ U).
  intros es es'. cbv beta.
  destruct (lookup_entry name es) as [[c0|es0]|] eqn:L; intros F;
    try discriminate; injection F as <-;
    (split; [intros x N; apply lookup_set_entry_other, N|];
     split; [eexists; apply lookup_set_entry|intros es1 E; discriminate]).
Qed.

Lemma file_write_elsewhere (w w1 : world) (name newline s : string) :
  file_write w name newline s = Ok w1 ->
  fs_cwd w1 = fs_cwd w /\
  forall names,
    dir_at names (fs_root w1) = dir_at names (fs_root w) /\
    (names <> (fs_cwd w ++ [name])%list ->
     file_at names (fs_root w1) = file_at names (fs_root w)).
Proof.
  unfold file_write, update_cwd. cbv zeta.
  destruct (fs_encodable w _); [|discriminate].
  destruct (update_dir _ _ _) as [root1|e] eqn:U; [|discriminate].
  cbn [bind]. intros [= <-]. split; [reflexivity|]. cbn [fs_root fs_cwd].
  refine (update_dir_elsewhere name _ _ _ _ _ U).
  intros es es'. cbv beta.
  destruct (lookup_entry name es) as [[c0|es0]|] eqn:L; intros F;
    try discriminate; injection F as <-;
    (split; [intros x N; apply lookup_set_entry_other, N|];
     split; [eexists; apply lookup_set_entry|intros es1 E; discriminate]).
Qed.

(** X6. A run that ends changes nothing of the file system but the output
    file of the working directory: the working directory is the same,
    the same paths lead to directories, and every file other than the
    output file holds what it held, wherever it is in the tree. *)
Theorem main_changes_only_the_output_file
  (fnmatchcase : string -> string -> bool) (w : world) (r : run) :
  main fnmatchcase w = Ok r ->
  fs_cwd (run_world r) = fs_cwd w /\
  (forall names, dir_at names (fs_root (run_world r)) = dir_at names (fs_root w)) /\
  (forall names, names <> (fs_cwd w ++ [output_name])%list ->
     file_at names (fs_root (run_world r)) = file_at names (fs_root w)).
Proof.
  intros H. unfold main in H. rewrite main_sources_eq in H.
  cbn [bind] in H. cbv zeta in H.
  destruct (open_w w _) as [w1|] eqn:O; [|discriminate]. cbn [bind] in H.
  destruct (file_write w1 _ _ _) as [w2|] eqn:F; [|discriminate].
  cbn [bind] in H. injection H as <-. cbn [run_world].
  destruct (open_w_elsewhere _ _ _ O) as [C1 E1].
  destruct (file_write_elsewhere _ _ _ _ _ F) as [C2 E2].
  split; [congruence|]. split; intros names.
  - rewrite (proj1 (E2 names)). apply E1.
  - intros N. rewrite (proj2 (E2 names)) by (rewrite C1; exact N).
    apply E1, N.
Qed.

(** The run in [world_std] replaces the stale output file and keeps [a.c]. *)
Lemma main_changes_only_the_output_file_witness :
  file_at ["home"; "u"; "vendor"; "hashlink"; "src"; "std"; "a.c"]
    (fs_root (run_world (run_in world_std))) = Some "int a;" /\
  file_at ["home"; "u"; output_name] (fs_root world_std) = Some "stale" /\
  fs_cwd (run_world (run_in world_std)) = fs_cwd world_std /\
  (forall names,
     dir_at names (fs_root (run_world (run_in world_std)))
     = dir_at names (fs_root world_std)) /\
  (forall names, names <> (fs_cwd world_std ++ [output_name])%list ->
     file_at names (fs_root (run_world (run_in world_std)))
     = file_at names (fs_root world_std)).
Proof.
  split; [vm_compute; reflexivity|]. split; [reflexivity|].
  apply (main_changes_only_the_output_file fnmatch_wild world_std).
  vm_compute. reflexivity.
Defined.

(** ** A second run *)

Lemma set_entry_twice (name : string) (n m : node) (es : list (string * node)) :
  set_entry name n (set_entry name m es) = set_entry name n es.
Proof.
  induction es as [|[y k] es IH]; cbn [set_entry].
  - rewrite String.eqb_refl. reflexivity.
  - destruct (y =? name) eqn:E; cbn [set_entry].
    + rewrite String.eqb_refl. reflexivity.
    + rewrite E, IH. reflexivity.
Qed.

Lemma update_dir_ext (path : list string)
  (f g : list (string * node) -> result (list (string * node))) (n : node) :
  (forall es, f es = g es) -> update_dir path f n = update_dir path g n.
Proof.
  intros H. revert n. induction path as [|c p IH]; intros [content|es];
    cbn [update_dir]; try reflexivity.
  - rewrite H. reflexivity.
  - destruct (lookup_entry c es); [rewrite IH|]; reflexivity.
Qed.

(** Two updates of the same directory are one. *)
Lemma update_dir_compose (path : list string)
  (f g : list (string * node) -> result (list (string * node))) (n : node) :
  (n1 <- update_dir path f n ;; update_dir path g n1)
  = update_dir path (fun es => es1 <- f es ;; g es1) n.
Proof.
  revert n. induction path as [|c p IH]; intros [content|es];
    cbn [update_dir bind]; try reflexivity.
  - destruct (f es) as [es1|e]; reflexivity.
  - destruct (lookup_entry c es) as [child|]; [|reflexivity].
    rewrite <- IH.
    destruct (update_dir p f child) as [child1|e]; cbn [bind update_dir];
      [|reflexivity].
    rewrite lookup_set_entry.
    destruct (update_dir p g child1) as [child2|e]; cbn [bind]; [|reflexivity].
    rewrite set_entry_twice. reflexivity.
Qed.

Lemma update_cwd_encoding (w w' : world)
  (f : list (string * node) -> result (list (string * node))) :
  update_cwd w f = Ok w' -> fs_encodable w' = fs_encodable w.
Proof.
  unfold update_cwd. destruct (update_dir _ _ _); [|discriminate].
  cbn [bind]. intros [= <-]. reflexivity.
Qed.

Lemma open_then_write (w : world) (name newline s : string) :
  fs_encodable w (translate_newlines newline s) = true ->
  (w1 <- open_w w name ;; file_write w1 name newline s)
  = update_cwd w (store name (translate_newlines newline s)).
Proof.
  intros Henc. unfold open_w, file_write, update_cwd. cbv zeta.
  set (f1 := fun es => match lookup_entry name es with
                       | Some (Dir _) => Raise OSError
                       | _ => Ok (set_entry name (File "") es)
                       end).
  set (f2 := fun es => match lookup_entry name es with
                       | Some (File old) =>
                           Ok (set_entry name (File (old ++ translate_newlines newline s)) es)
                       | _ => Raise OSError
                       end).
  pose proof (update_dir_compose (fs_cwd w) f1 f2 (fs_root w)) as C.
  rewrite (update_dir_ext (fs_cwd w) (fun es => es1 <- f1 es ;; f2 es1)
             (store name (translate_newlines newline s))) in C.
  - rewrite <- C.
    destruct (update_dir (fs_cwd w) f1 (fs_root w)) as [root1|e]; [|reflexivity].
    cbn [bind fs_cwd fs_root fs_encodable]. rewrite Henc. reflexivity.
  - intros es. unfold store, f1, f2.
    destruct (lookup_entry name es) as [[c|es0]|]; cbn [bind];
      rewrite ?lookup_set_entry, ?set_entry_twice; reflexivity.
Qed.

(** [main], with the opening and the writing as one update. *)
Lemma main_writes (fnmatchcase : string -> string -> bool) (w : world) :
  fs_encodable w
    (translate_newlines (String CR nl) (render (groups_of fnmatchcase w))) = true ->
  main fnmatchcase w
  = (w2 <- update_cwd w
             (store output_name
                (translate_newlines (String CR nl) (render (groups_of fnmatchcase w)))) ;;
     Ok {| run_sources := groups_of fnmatchcase w;
           run_vcxproj := render (groups_of fnmatchcase w);
           run_world := w2;
           run_stdout := summary (groups_of fnmatchcase w) "" |}).
Proof.
  intros Henc. unfold main, output_name. rewrite main_sources_eq. cbn [bind]. cbv zeta.
  rewrite <- open_then_write by exact Henc.
  destruct (open_w w _) as [w1|e]; reflexivity.
Qed.

(** For names, [walk] is [descend]. *)
Lemma walk_descend (comps : list string) (n : node) (st : list node) :
  Forall (fun c => proper c = true) comps ->
  walk comps (n :: st) = descend comps (n :: st).
Proof.
  revert n st. induction comps as [|c comps IH]; intros n st H; [reflexivity|].
  apply Forall_cons_iff in H as [Hc H].
  apply proper_spec in Hc as (Hn & _ & Hd & Hdd).
  cbn [walk descend]. destruct n as [content|es]; [reflexivity|].
  apply String.eqb_neq in Hd, Hdd. rewrite Hd, Hdd.
  destruct c; [discriminate|]. cbn [String.eqb orb].
  destruct (lookup_entry (String a c) es); [apply IH, H|reflexivity].
Qed.

(** A relative path of names is looked up below the working directory. *)
Lemma lookup_relative (w : world) (d : string) :
  nonempty d = true -> startswith SEP d = false ->
  Forall (fun c => proper c = true) (split SEP d) ->
  lookup_path w d =
  match node_at (fs_cwd w) (fs_root w) with
  | Some n => node_at (split SEP d) n
  | None => None
  end.
Proof.
  intros Hn Hs Hp. rewrite lookup_path_nonempty, Hs by exact Hn.
  unfold cwd_stack.
  pose proof (descend_node_at (fs_cwd w) (fs_root w) []) as D.
  destruct (descend (fs_cwd w) [fs_root w]) as [[|m st]|]; [contradiction| |];
    rewrite D; [|reflexivity].
  rewrite walk_descend by exact Hp.
  pose proof (descend_node_at (split SEP d) m st) as D2.
  destruct (descend (split SEP d) (m :: st)) as [[|m2 st2]|]; [contradiction| |];
    rewrite D2; reflexivity.
Qed.

(** Storing a file under [name] keeps what the relative paths that do
    not start with [name] lead to. *)
Lemma store_keeps_lookup (w w' : world) (name text d : string) :
  update_cwd w (store name text) = Ok w' ->
  nonempty d = true -> startswith SEP d = false ->
  Forall (fun c => proper c = true) (split SEP d) ->
  hd "" (split SEP d) <> name ->
  lookup_path w' d = lookup_path w d.
Proof.
  unfold update_cwd.
  destruct (update_dir (fs_cwd w) (store name text) (fs_root w)) as [root'|e] eqn:U;
    [|discriminate].
  cbn [bind]. intros [= <-] Hn Hs Hp Hhd.
  rewrite !lookup_relative by assumption. cbn [fs_cwd fs_root].
  pose proof (update_dir_spec (fs_cwd w) (store name text) (fs_root w)) as S.
  unfold entries_at in S.
  destruct (node_at (fs_cwd w) (fs_root w)) as [[c|es]|];
    try (rewrite S in U; discriminate).
  destruct (store name text es) as [es'|e] eqn:St;
    [|rewrite S in U; discriminate].
  destruct S as (n' & U' & E'). rewrite U in U'. injection U' as <-.
  destruct (node_at (fs_cwd w) root') as [[c|es2]|]; try discriminate.
  injection E' as ->.
  destruct (split SEP d) as [|c rest] eqn:Sp;
    [exfalso; exact (split_not_nil _ _ Sp)|].
  cbn [hd] in Hhd. cbn [node_at].
  unfold store in St.
  destruct (lookup_entry name es) as [[c0|es0]|]; try discriminate;
    injection St as <-; rewrite lookup_set_entry_other by exact Hhd; reflexivity.
Qed.

Lemma searched_dirs_plain (d : string) :
  In d searched_dirs ->
  nonempty d = true /\ startswith SEP d = false /\
  Forall (fun c => proper c = true) (split SEP d) /\
  hd "" (split SEP d) <> output_name.
Proof.
  intros H. simpl in H.
  repeat (destruct H as [<-|H];
          [split; [reflexivity|]; split; [reflexivity|];
           split; [vm_compute; forall_by_computation|vm_compute; discriminate]|]).
  contradiction.
Qed.

(** The searches find after the write what they found before it. *)
Lemma store_keeps_groups (fnmatchcase : string -> string -> bool)
  (w w' : world) (text : string) :
  update_cwd w (store output_name text) = Ok w' ->
  groups_of fnmatchcase w' = groups_of fnmatchcase w.
Proof.
  intros U.
  assert (C : fs_cwd w' = fs_cwd w).
  { unfold update_cwd in U. destruct (update_dir _ _ _); [|discriminate].
    cbn [bind] in U. injection U as <-. reflexivity. }
  assert (E : forall d, In d searched_dirs ->
                        discovered fnmatchcase w' d = discovered fnmatchcase w d).
  { intros d Hd. destruct (searched_dirs_plain d Hd) as (Hn & Hs & Hp & Hhd).
    apply discovered_permutation; [exact C|].
    unfold _listdir. rewrite Hn.
    rewrite (store_keeps_lookup w w' output_name text d U Hn Hs Hp Hhd).
    apply Permutation_refl. }
  unfold groups_of, discover_group. cbn [fst snd flat_map].
  rewrite (E std_dir), (E pcre_dir), (E uv_dir), (E uv_win_dir), (E mbedtls_dir)
    by (simpl; tauto).
  reflexivity.
Qed.

(** X7. Running the script again, in the file system a run has left,
    does the same: the second run ends with the same groups, the same
    document and the same output, and leaves the file system as the first
    run left it; in particular the output file of the first run is not
    picked up as a source. *)
Theorem main_again_is_the_same_run
  (fnmatchcase : string -> string -> bool) (w : world) (r : run) :
  main fnmatchcase w = Ok r -> main fnmatchcase (run_world r) = Ok r.
Proof.
  intros H.
  assert (Henc : fs_encodable w
                   (translate_newlines (String CR nl)
                      (render (groups_of fnmatchcase w))) = true).
  { pose proof (main_inv fnmatchcase w r H) as ((_ & C) & Hs & Hv & _).
    rewrite Hv, Hs in C. exact C. }
  rewrite main_writes in H by exact Henc.
  destruct (update_cwd w _) as [w2|e] eqn:U; [|discriminate].
  cbn [bind] in H. injection H as <-. cbn [run_world].
  rewrite main_writes;
    rewrite (store_keeps_groups fnmatchcase w w2 _ U);
    [|rewrite (update_cwd_encoding _ _ _ U); exact Henc].
  assert (U2 : update_cwd w2
                 (store output_name
                    (translate_newlines (String CR nl)
                       (render (groups_of fnmatchcase w)))) = Ok w2).
  { unfold update_cwd in U |- *.
    destruct (update_dir (fs_cwd w) _ (fs_root w)) as [root2|e] eqn:D;
      [|discriminate].
    cbn [bind] in U. injection U as <-. cbn [fs_root fs_cwd].
    match type of D with update_dir _ ?f _ = _ =>
      pose proof (update_dir_compose (fs_cwd w) f f (fs_root w)) as C;
      rewrite D in C; cbn [bind] in C; rewrite C;
      rewrite (update_dir_ext (fs_cwd w) _ f);
      [rewrite D; reflexivity|]
    end.
    intros es. unfold store.
    destruct (lookup_entry output_name es) as [[c|es0]|]; cbn [bind];
      rewrite ?lookup_set_entry, ?set_entry_twice; reflexivity. }
  rewrite U2. reflexivity.
Qed.

(** In [world_std] the first run replaces the stale output file; the
    second finds the new one and writes the same again. *)
Lemma main_again_is_the_same_run_witness :
  main fnmatch_wild world_std = Ok (run_in world_std) /\
  read_file world_std output_name = Some "stale" /\
  main fnmatch_wild (run_world (run_in world_std)) = Ok (run_in world_std).
Proof.
  split; [vm_compute; reflexivity|]. split; [reflexivity|].
  apply (main_again_is_the_same_run fnmatch_wild world_std).
  vm_compute. reflexivity.
Defined.

(** ** Names, not contents *)

Lemma lookup_entry_shape (name : string) (es : list (string * node)) :
  lookup_entry name (map (fun e => (fst e, shape (snd e))) es)
  = option_map shape (lookup_entry name es).
Proof.
  induction es as [|[x m] es IH]; [reflexivity|].
  cbn [map fst snd lookup_entry]. destruct (x =? name); [reflexivity|exact IH].
Qed.

Lemma walk_shape (comps : list string) (st : list node) :
  walk comps (map shape st) = option_map (map shape) (walk comps st).
Proof.
  revert st. induction comps as [|c comps IH]; intros st; [reflexivity|].
  destruct st as [|[content|es] up]; [reflexivity|reflexivity|].
  cbn [map shape walk].
  destruct ((c =? "") || (c =? ".")); [apply (IH (Dir es :: up))|].
  destruct (c =? "..").
  - destruct up as [|u up']; [apply (IH [Dir es])|apply (IH (u :: up'))].
  - rewrite lookup_entry_shape.
    destruct (lookup_entry c es) as [n|]; cbn [option_map]; [|reflexivity].
    apply (IH (n :: Dir es :: up)).
Qed.

Lemma descend_shape (names : list string) (st : list node) :
  descend names (map shape st) = option_map (map shape) (descend names st).
Proof.
  revert st. induction names as [|c names IH]; intros st; [reflexivity|].
  destruct st as [|[content|es] up]; [reflexivity|reflexivity|].
  cbn [map shape descend]. rewrite lookup_entry_shape.
  destruct (lookup_entry c es) as [n|]; cbn [option_map]; [|reflexivity].
  apply (IH (n :: Dir es :: up)).
Qed.

Lemma is_dir_shape (n : node) : is_dir (shape n) = is_dir n.
Proof. destruct n; reflexivity. Qed.

Lemma rlistdir_node_shape (dironly : bool) (n : node) :
  rlistdir_node dironly (shape n) = rlistdir_node dironly n.
Proof.
  induction n as [c|es H] using node_tree_ind; [reflexivity|].
  cbn [shape rlistdir_node].
  induction H as [|[x m] es Hm Hes IH]; [reflexivity|].
  cbn [map flat_map fst snd] in *. rewrite is_dir_shape, Hm, IH. reflexivity.
Qed.

Section Shape.

Variable fnmatchcase : string -> string -> bool.
Variable w : world.

Lemma lookup_path_shape (path : string) :
  lookup_path (shape_world w) path = option_map shape (lookup_path w path).
Proof.
  destruct path as [|a path]; [reflexivity|].
  rewrite !lookup_path_nonempty by reflexivity.
  assert (S : (if startswith SEP (String a path)
               then Some [fs_root (shape_world w)] else cwd_stack (shape_world w))
              = option_map (map shape)
                  (if startswith SEP (String a path)
                   then Some [fs_root w] else cwd_stack w)).
  { destruct (startswith SEP (String a path)); [reflexivity|].
    apply (descend_shape (fs_cwd w) [fs_root w]). }
  rewrite S.
  destruct (if startswith SEP (String a path) then Some [fs_root w] else cwd_stack w)
    as [st|]; cbn [option_map]; [|reflexivity].
  rewrite walk_shape.
  destruct (walk (split SEP (String a path)) st) as [[|n st']|]; reflexivity.
Qed.

Lemma lexists_shape (path : string) : lexists (shape_world w) path = lexists w path.
Proof.
  unfold lexists. rewrite lookup_path_shape.
  destruct (lookup_path w path); reflexivity.
Qed.

Lemma isdir_shape (path : string) : isdir (shape_world w) path = isdir w path.
Proof.
  unfold isdir. rewrite lookup_path_shape.
  destruct (lookup_path w path); [apply is_dir_shape|reflexivity].
Qed.

Lemma listdir_shape (dirname : string) (dironly : bool) :
  _listdir (shape_world w) dirname dironly = _listdir w dirname dironly.
Proof.
  unfold _listdir. rewrite lookup_path_shape.
  destruct (lookup_path w _) as [[c|es]|]; cbn [option_map shape]; try reflexivity.
  induction es as [|[x m] es IH]; [reflexivity|].
  cbn [map filter fst snd]. rewrite is_dir_shape.
  destruct (negb dironly || is_dir m); cbn [map fst]; rewrite IH; reflexivity.
Qed.

Lemma rlistdir_shape (dirname : string) (dironly : bool) :
  _rlistdir (shape_world w) dirname dironly = _rlistdir w dirname dironly.
Proof.
  unfold _rlistdir. rewrite lookup_path_shape.
  destruct (lookup_path w _); [apply rlistdir_node_shape|reflexivity].
Qed.

Lemma glob1_shape (dirname pattern : string) (dironly : bool) :
  _glob1 fnmatchcase (shape_world w) dirname pattern dironly
  = _glob1 fnmatchcase w dirname pattern dironly.
Proof. unfold _glob1. rewrite listdir_shape. reflexivity. Qed.

Lemma glob0_shape (dirname basename : string) (dironly : bool) :
  _glob0 (shape_world w) dirname basename dironly = _glob0 w dirname basename dironly.
Proof. unfold _glob0. rewrite lexists_shape, isdir_shape. reflexivity. Qed.

Lemma glob2_shape (dirname pattern : string) (dironly : bool) :
  _glob2 (shape_world w) dirname pattern dironly = _glob2 w dirname pattern dironly.
Proof. unfold _glob2. rewrite rlistdir_shape. reflexivity. Qed.

Lemma iglob_fuel_shape (fuel : nat) (pathname : string) (dironly : bool) :
  iglob_fuel fnmatchcase (shape_world w) fuel pathname dironly
  = iglob_fuel fnmatchcase w fuel pathname dironly.
Proof.
  revert pathname dironly. induction fuel as [|fuel IH]; intros pathname dironly;
    [reflexivity|].
  cbn [iglob_fuel]. destruct (os_path_split pathname) as [dirname basename].
  rewrite lexists_shape, isdir_shape, glob2_shape, glob1_shape, IH.
  destruct (negb (has_magic pathname)); [reflexivity|].
  destruct (negb (nonempty dirname)); [reflexivity|].
  apply flat_map_ext. intros d. f_equal.
  destruct (has_magic basename); [destruct (_isrecursive basename)|];
    [apply glob2_shape|apply glob1_shape|apply glob0_shape].
Qed.

Lemma getcwd_shape : getcwd (shape_world w) = getcwd w.
Proof.
  unfold getcwd, cwd_there, cwd_stack. cbn [shape_world fs_cwd fs_root].
  change [shape (fs_root w)] with (map shape [fs_root w]).
  rewrite (descend_shape (fs_cwd w) [fs_root w]).
  destruct (descend (fs_cwd w) [fs_root w]) as [[|[c|es] st]|]; reflexivity.
Qed.

Lemma find_sources_shape (base_path pattern : string) :
  find_sources fnmatchcase (shape_world w) base_path pattern
  = find_sources fnmatchcase w base_path pattern.
Proof.
  unfold find_sources, glob_glob, _iglob. rewrite iglob_fuel_shape, getcwd_shape.
  reflexivity.
Qed.

End Shape.

(** X8. [find_sources] reads names and never contents: in two file
    systems with the same working directory, the same names and the same
    kinds of entries, it returns the same, for every base path and every
    pattern, the recursive ones included. *)
Theorem find_sources_reads_names_only
  (fnmatchcase : string -> string -> bool) (w1 w2 : world)
  (base_path pattern : string) :
  shape_world w1 = shape_world w2 ->
  find_sources fnmatchcase w1 base_path pattern
  = find_sources fnmatchcase w2 base_path pattern.
Proof.
  intros H.
  rewrite <- (find_sources_shape fnmatchcase w1), <- (find_sources_shape fnmatchcase w2), H.
  reflexivity.
Qed.

Lemma find_sources_reads_names_only_witness :
  read_file world_std "hlffi_monolithic.vcxproj"
  <> read_file world_std_edited "hlffi_monolithic.vcxproj" /\
  find_sources fnmatch_wild world_std "vendor/hashlink" "**"
  = find_sources fnmatch_wild world_std_edited "vendor/hashlink" "**".
Proof.
  split; [discriminate|].
  apply (find_sources_reads_names_only fnmatch_wild world_std world_std_edited).
  reflexivity.
Defined.

(** ** The recursive pattern *)

Lemma lookup_entry_In (name : string) (es : list (string * node)) (n : node) :
  lookup_entry name es = Some n -> In (name, n) es.
Proof.
  induction es as [|[x m] es IH]; [discriminate|]. cbn [lookup_entry].
  destruct (String.eqb_spec x name) as [->|N].
  - intros [= ->]. left. reflexivity.
  - intros H. right. apply IH, H.
Qed.

Lemma visible_spec (c : string) :
  visible c = true -> proper c = true /\ _ishidden c = false.
Proof.
  unfold visible. intros H. apply andb_prop in H as [H1 H2].
  apply negb_true_iff in H2. tauto.
Qed.

(** A path of names below a name, as [_rlistdir] joins it. *)
Lemma join_below (c c2 : string) (rest : list string) :
  proper c = true -> proper c2 = true ->
  _join c (c2 ++ sep_each rest) = c ++ sep_each (c2 :: rest).
Proof.
  intros Hc Hc2.
  apply proper_spec in Hc as (Hn & Hs & _).
  apply proper_spec in Hc2 as (Hn2 & Hs2 & _).
  unfold sep_each. rewrite concat_map_cons. fold (sep_each rest).
  unfold _join, os_path_join. rewrite Hn, (endswith_contains _ _ Hs).
  destruct c2 as [|a c2]; [discriminate|].
  cbn [append nonempty negb orb startswith].
  cbn [contains] in Hs2. apply orb_false_elim in Hs2 as [Ha _].
  cbn [startswith]. rewrite Ha. reflexivity.
Qed.

(** Every entry reached through names that are not hidden is listed. *)
Lemma rlistdir_lists (m : node) (rest : list string) :
  forall (c : string) (n : node),
    node_at (c :: rest) n = Some m ->
    Forall (fun c => visible c = true) (c :: rest) ->
    In (c ++ sep_each rest) (rlistdir_node false n).
Proof.
  induction rest as [|c2 rest IH]; intros c [content|es] H V; try discriminate;
    cbn [node_at] in H;
    destruct (lookup_entry c es) as [child|] eqn:L; try discriminate;
    apply Forall_cons_iff in V as [Vc V];
    pose proof (visible_spec c Vc) as [Pc Hc];
    cbn [rlistdir_node]; apply in_flat_map; exists (c, child);
    (split; [apply lookup_entry_In, L|]); cbn [fst snd negb orb andb];
    rewrite Hc; cbn [negb].
  - left. symmetry. apply append_nil_r.
  - right. apply in_map_iff. exists (c2 ++ sep_each rest). split.
    + apply join_below; [exact Pc|].
      apply Forall_cons_iff in V as [V2 _]. apply visible_spec in V2. tauto.
    + apply IH; assumption.
Qed.

(** With a final slash, the path is still its own relative path. *)
Lemma relpath_of_slash (cwd f : string) :
  startswith SEP cwd = true ->
  Forall (fun c => proper c = true) (split SEP f) ->
  relpath_of cwd (f ++ "/") "." = f.
Proof.
  intros Hcwd Hf.
  assert (Hn : nonempty cwd = true) by (destruct cwd; [discriminate|reflexivity]).
  pose proof (proper_head_relative f Hf) as Hrel.
  destruct (proper_path_shape f Hf) as [Hfn _].
  unfold relpath_of, rel_list.
  rewrite path_list_abspath_dot by exact Hcwd.
  set (srev := fold_left (normpath_step true) (split SEP cwd) []).
  assert (P : path_list (abspath_in cwd (f ++ "/")) = (rev srev ++ split SEP f)%list).
  { unfold abspath_in. rewrite (startswith_append _ _ _ Hfn), Hrel.
    rewrite path_list_normpath by (apply startswith_join, Hcwd).
    unfold normpath_comps.
    rewrite normpath_fold_join
      by (try assumption; rewrite (startswith_append _ _ _ Hfn); exact Hrel).
    fold srev. change (f ++ "/") with (f ++ String SEP "").
    rewrite split_app_sep, fold_left_app.
    rewrite (normpath_fold_names (split SEP f)) by exact Hf.
    cbn [split fold_left]. unfold normpath_step at 1. cbn [String.eqb orb].
    rewrite rev_app_distr, rev_involutive. reflexivity. }
  rewrite P, commonprefix_len_app, Nat.sub_diag, skipn_app_exact. cbn [repeat app].
  pose proof (split_rejoin f) as R. pose proof (split_not_nil SEP f) as N.
  destruct (split SEP f) as [|a p]; [contradiction|].
  apply Forall_cons_iff in Hf as [Ha Hp]. cbn [hd tl] in R.
  rewrite join_all_sep_each; [exact R| | |].
  - apply proper_spec in Ha. tauto.
  - apply endswith_contains. apply proper_spec in Ha. tauto.
  - eapply Forall_impl; [|exact Hp]. intros c. apply proper_rel_comp.
Qed.

Section Recursive.

Variable fnmatchcase : string -> string -> bool.
Variable w : world.

(** For [**], [glob] yields the directory of the base path, with a
    slash, and everything [_rlistdir] lists below it. *)
Lemma glob_recursive (base_path : string) :
  literal_path base_path = true ->
  glob_glob fnmatchcase w (os_path_join base_path "**")
  = map (os_path_join (dir_of base_path))
      ("" :: _rlistdir w (dir_of base_path) false).
Proof.
  intros Hb. apply literal_path_spec in Hb as [Hne Hmag].
  assert (Hit : _iglob fnmatchcase w (os_path_join base_path "**") false
                = map (os_path_join (dir_of base_path))
                    ("" :: _rlistdir w (dir_of base_path) false)).
  { unfold _iglob. cbn [iglob_fuel].
    rewrite split_join_segment, has_magic_join by (assumption || reflexivity).
    rewrite dir_of_nonempty, dir_of_no_magic by assumption.
    rewrite andb_false_r. cbn [negb flat_map has_magic]. apply app_nil_r. }
  unfold glob_glob. rewrite Hit.
  destruct (negb (nonempty (os_path_join base_path "**"))
            || _isrecursive (substring 0 2 (os_path_join base_path "**")));
    [|reflexivity].
  cbn [map]. rewrite os_path_join_nonempty by (apply dir_of_nonempty, Hne).
  reflexivity.
Qed.

Lemma find_sources_recursive (base_path : string) :
  literal_path base_path = true ->
  find_sources fnmatchcase w base_path "**"
  = if cwd_there w then
      Ok (sorted (map (fun x => to_rel w (os_path_join (dir_of base_path) x))
                    ("" :: _rlistdir w (dir_of base_path) false)))
    else Raise OSError.
Proof.
  intros Hb. unfold find_sources. rewrite glob_recursive by exact Hb.
  apply literal_path_spec in Hb as [Hne _].
  rewrite mapM_relpath_cases.
  - cbn [map]. destruct (cwd_there w); [|reflexivity].
    cbn [bind map]. rewrite map_map. reflexivity.
  - apply Forall_forall. intros f Hf. apply in_map_iff in Hf as (x & <- & _).
    apply os_path_join_nonempty, dir_of_nonempty, Hne.
Qed.

End Recursive.



(** ** No matching entry is left out *)

Lemma searched_dir_group (d : string) :
  In d searched_dirs ->
  exists name dirs, In (name, dirs) discovered_groups /\ In d dirs.
Proof.
  intros H. simpl in H.
  destruct H as [<-|[<-|[<-|[<-|[<-|[]]]]]].
  - exists std_name, [std_dir]. simpl. tauto.
  - exists pcre_name, [pcre_dir]. simpl. tauto.
  - exists uv_name, [uv_dir; uv_win_dir]. simpl. tauto.
  - exists uv_name, [uv_dir; uv_win_dir]. simpl. tauto.
  - exists mbedtls_name, [mbedtls_dir]. simpl. tauto.
Qed.

Lemma matching_keeps (fnmatchcase : string -> string -> bool) (w : world)
  (d name : string) :
  In name (_listdir w d false) -> _ishidden name = false ->
  fnmatchcase name "*.c" = true ->
  In name (matching fnmatchcase w d).
Proof.
  intros Hin Hh Hm. unfold matching, _glob1.
  apply filter_In. split; [|exact Hm].
  change (negb (_ishidden "*.c")) with true. cbv iota.
  apply filter_In. split; [exact Hin|]. rewrite Hh. reflexivity.
Qed.

(** X10. A run leaves out no source file of a searched directory: every
    entry of one of the five directories whose name is plain, does not
    start with a dot and matches [*.c] is in a group of the run, under the
    path of the directory with backslashes, and has its include-entry in
    the document. *)
Theorem main_lists_every_matching_entry
  (fnmatchcase : string -> string -> bool) (w : world) (r : run)
  (d name : string) :
  main fnmatchcase w = Ok r ->
  In d searched_dirs ->
  In name (_listdir w d false) ->
  proper name = true -> _ishidden name = false ->
  fnmatchcase name "*.c" = true ->
  (exists group, In group (run_sources r) /\ In (win_path d name) (snd group)) /\
  exists pre post,
    run_vcxproj r = pre ++ include_entry (win_path d name) ++ post.
Proof.
  intros H Hd Hin Hp Hh Hm. apply main_inv in H as (_ & Hs & Hv & _).
  destruct (searched_dir_group d Hd) as (gname & dirs & Hg & Hdirs).
  destruct (searched_dirs_plain d Hd) as (_ & _ & Hplain & _).
  assert (Hgroup : In (discover_group fnmatchcase w (gname, dirs)) (run_sources r)).
  { rewrite Hs. apply discover_group_in, Hg. }
  assert (Hfile : In (win_path d name)
                    (snd (discover_group fnmatchcase w (gname, dirs)))).
  { unfold discover_group. cbn [fst snd]. apply in_flat_map. exists d.
    split; [exact Hdirs|]. unfold discovered.
    apply (proj2 (sorted_In _ _)), in_map_iff. exists name. split.
    - apply to_rel_plain; assumption.
    - apply matching_keeps; assumption. }
  split.
  - eexists. split; [exact Hgroup|exact Hfile].
  - rewrite Hv. eapply render_has_entry; eassumption.
Qed.

Lemma main_lists_every_matching_entry_witness :
  (exists group,
     In group (run_sources (run_in world_deep)) /\
     In "vendor\hashlink\src\std\a.c" (snd group)) /\
  exists pre post,
    run_vcxproj (run_in world_deep)
    = pre ++ include_entry "vendor\hashlink\src\std\a.c" ++ post.
Proof.
  apply (main_lists_every_matching_entry fnmatch_wild world_deep
           (run_in world_deep) std_dir "a.c").
  - vm_compute. reflexivity.
  - left. reflexivity.
  - vm_compute. tauto.
  - reflexivity.
  - reflexivity.
  - reflexivity.
Defined.

(** ** No file twice *)

Lemma distinct_NoDup (l : list string) : distinct l = true -> NoDup l.
Proof.
  induction l as [|x l IH]; [constructor|]. cbn [distinct]. intros H.
  apply andb_prop in H as [Hx Hl]. constructor; [|apply IH, Hl].
  intros Hin. apply negb_true_iff in Hx.
  assert (E : existsb (String.eqb x) l = true).
  { apply existsb_exists. exists x. split; [exact Hin|apply String.eqb_refl]. }
  congruence.
Qed.

Lemma folder_append (a name : string) :
  contains "\" name = false -> folder (a ++ String "\" name) = a.
Proof.
  intros H. induction a as [|c a IH]; cbn [append folder].
  - rewrite H. reflexivity.
  - rewrite contains_append. cbn [contains]. rewrite Ascii.eqb_refl.
    cbn [orb]. rewrite orb_true_r, IH. reflexivity.
Qed.

(** Lists of paths of folders that differ have no path in common. *)
Lemma NoDup_by_folder (segs : list (string * list string)) :
  NoDup (map fst segs) ->
  Forall (fun s => NoDup (snd s) /\ Forall (fun p => folder p = fst s) (snd s)) segs ->
  NoDup (flat_map snd segs).
Proof.
  induction segs as [|[k l] segs IH]; intros Hk Hs; [constructor|].
  cbn [map fst] in Hk. apply NoDup_cons_iff in Hk as [Hk Hks].
  apply Forall_cons_iff in Hs as [[Hl Hf] Hs]. cbn [fst snd] in Hl, Hf.
  cbn [flat_map snd]. apply NoDup_app; [exact Hl|apply IH; assumption|].
  intros a Ha Hin. apply in_flat_map in Hin as ([k' l'] & Hseg & Hal).
  rewrite Forall_forall in Hf, Hs. pose proof (Hf a Ha) as E1.
  destruct (Hs _ Hseg) as [_ Hf']. rewrite Forall_forall in Hf'.
  pose proof (Hf' a Hal) as E2. cbn [fst snd] in E2.
  apply Hk. rewrite <- E1, E2. apply (in_map fst _ _ Hseg).
Qed.

Lemma groups_by_folder (fnmatchcase : string -> string -> bool) (w : world) :
  flat_map snd (groups_of fnmatchcase w) = flat_map snd (by_folder fnmatchcase w).
Proof.
  unfold groups_of, by_folder, discover_group, hlffi_wrapper, hashlink_core,
    plugin_wrappers.
  cbn [flat_map fst snd app]. rewrite !app_nil_r. rewrite <- !app_assoc.
  reflexivity.
Qed.

Lemma discovered_by_folder (fnmatchcase : string -> string -> bool) (w : world)
  (d : string) :
  In d searched_dirs ->
  NoDup (_listdir w d false) ->
  Forall (fun name => proper name = true /\ contains "\" name = false)
    (_listdir w d false) ->
  NoDup (discovered fnmatchcase w d) /\
  Forall (fun p => folder p = replace "/" "\" d) (discovered fnmatchcase w d).
Proof.
  intros Hd Hnd Hnames.
  destruct (searched_dirs_plain d Hd) as (_ & _ & Hplain & _).
  rewrite Forall_forall in Hnames.
  assert (E : discovered fnmatchcase w d
              = sorted (map (win_path d) (matching fnmatchcase w d))).
  { unfold discovered. f_equal. apply map_ext_in. intros name Hin.
    apply to_rel_plain; [exact Hplain|].
    apply glob1_listed in Hin as [Hin _]. apply Hnames, Hin. }
  rewrite E. split.
  - eapply Permutation_NoDup; [apply sorted_perm|].
    apply NoDup_map_injective; [|apply glob1_NoDup, Hnd].
    intros x y Exy. unfold win_path in Exy.
    apply append_cancel_l in Exy. injection Exy as Exy. exact Exy.
  - apply Forall_forall. intros p Hp.
    apply (proj1 (sorted_In _ _)), in_map_iff in Hp as (name & <- & Hin).
    apply glob1_listed in Hin as [Hin _].
    apply (folder_append (replace "/" "\" d) name), Hnames, Hin.
Qed.

(** A backslash in a name is a separator after the replacement: the file
    [win\a.c] of [libuv/src] is written as [a.c] of [libuv/src/win] is. *)
Lemma backslash_name_is_written_twice :
  discovered fnmatch_wild world_backslash uv_dir
  = ["vendor\hashlink\include\libuv\src\win\a.c"] /\
  discovered fnmatch_wild world_backslash uv_win_dir
  = ["vendor\hashlink\include\libuv\src\win\a.c"].
Proof. split; vm_compute; reflexivity. Qed.

(** X11. When the five searched directories list no name twice and
    their names are plain and without a backslash, no path is twice in
    the groups of a run, within a group or in two of them: a file is
    compiled once. *)
Theorem main_lists_no_file_twice
  (fnmatchcase : string -> string -> bool) (w : world) (r : run) :
  main fnmatchcase w = Ok r ->
  (forall d, In d searched_dirs ->
     NoDup (_listdir w d false) /\
     Forall (fun name => proper name = true /\ contains "\" name = false)
       (_listdir w d false)) ->
  NoDup (flat_map snd (run_sources r)).
Proof.
  intros H Hdirs. apply main_inv in H as (_ & Hs & _).
  rewrite Hs, groups_by_folder. apply NoDup_by_folder.
  - unfold by_folder. cbn [map fst]. apply distinct_NoDup. vm_compute. reflexivity.
  - unfold by_folder.
    repeat apply Forall_cons; try apply Forall_nil; cbn [fst snd];
      try (apply discovered_by_folder;
           [simpl; tauto|apply Hdirs; simpl; tauto|apply Hdirs; simpl; tauto]);
      (split; [apply distinct_NoDup; reflexivity|vm_compute; forall_by_computation]).
Qed.

Lemma main_lists_no_file_twice_witness :
  NoDup (flat_map snd (run_sources (run_in world_std))).
Proof.
  apply (main_lists_no_file_twice fnmatch_wild world_std (run_in world_std)).
  - vm_compute. reflexivity.
  - intros d Hd. simpl in Hd.
    repeat (destruct Hd as [<-|Hd];
            [split; [apply distinct_NoDup; reflexivity
                    |vm_compute; forall_by_computation]|]).
    contradiction.
Defined.
